(** * Service quota monitor: collection engine, caches, scheduler, aggregator

    A shallow embedding of the Python sources of the quota exporter
    (main.py, collector/collector.py, cache/cache.py,
    cache/quota_limit_cache.py, scheduler/scheduler.py,
    provider/aws/service_quotas.py, provider/aws/sagemaker_discovery.py,
    provider/discovery/active_region_discoverer.py,
    provider/discovery/credential_provider.py,
    provider/discovery/cmdb_provider.py, force_refresh_all_regions.py)
    together with the properties established about them.

    Conventions.
    - Python [str] values are Rocq [string]s; [dict]s used as maps are
      stdpp [gmap]s, dicts with a fixed vocabulary of optional keys are
      records of [option]s, and dicts iterated in insertion order are
      association lists.
    - Gauge values and quota values are IEEE binary64 numbers, as in Python:
      the kernel's primitive [float].
    - Instants and durations are in seconds and are rationals ([Q]); a TTL
      typed [int] in the source is a [Z] injected into [Q].
    - Code that sleeps, calls a remote API or reads the clock threads an
      explicit state; remote behaviour is supplied by a [World] record.
    - Writing a cache file and creating an API client are taken to succeed;
      logging is left out. *)

From Stdlib Require Import ZArith QArith Lqa Floats String Ascii List.
From stdpp Require Import gmap strings list fin_maps.

Close Scope Q_scope.
Open Scope Z_scope.
Open Scope string_scope.
Open Scope list_scope.

(** ** Python string helpers *)

Module Py.

(** [c.lower()] on one ASCII character: [A]..[Z] are shifted by 32. *)
Definition ascii_lower (c : ascii) : ascii :=
  let n := N_of_ascii c in
  if ((65 <=? n) && (n <=? 90))%N then ascii_of_N (n + 32) else c.

(** [s.lower()], for ASCII text. *)
Fixpoint lower (s : string) : string :=
  match s with
  | EmptyString => EmptyString
  | String c s' => String (ascii_lower c) (lower s')
  end.

(** [s.startswith(p)]. *)
Fixpoint startswith (p s : string) : bool :=
  match p, s with
  | EmptyString, _ => true
  | String a p', String b s' => if Ascii.eqb a b then startswith p' s' else false
  | String _ _, EmptyString => false
  end.

(** The operator [sub in s] on strings: does [sub] occur in [s]? *)
Fixpoint str_in (sub s : string) : bool :=
  if startswith sub s then true
  else match s with
       | EmptyString => false
       | String _ s' => str_in sub s'
       end.

(** The words of the specification: [sub] is a substring of [s] when [s]
    splits as a prefix, [sub], and a suffix. *)
Definition is_substring (sub s : string) : Prop :=
  exists pre post : string, s = pre +:+ sub +:+ post.

(** [a or b] on optional strings, where [None] and the empty string are
    falsy. *)
Definition str_or (a : option string) (b : string) : string :=
  match a with
  | Some (String c r) => String c r
  | _ => b
  end.

End Py.

(** ** Clock comparisons *)

(** [x > y] on instants, as a boolean. *)
Definition Qgtb (x y : Q) : bool := negb (Qle_bool x y).

(** ** Shared data *)

(** Results of a call that may raise: the returned value, or the exception. *)
Inductive exn_class := ClientError | BotoCoreError | OtherException.

(** An exception as the handlers look at it: its class, the
    [response['Error']['Code']] of a [ClientError] (['Unknown'] when the
    response carries none), and the text [str(e)]. *)
Record exn := mk_exn {
  exn_cls : exn_class;
  error_code : string;
  exn_str : string
}.

Inductive outcome (A : Type) :=
| Returns (a : A)
| Raises (e : exn).
Arguments Returns {A} a.
Arguments Raises {A} e.

(** The quota dictionary built by [ServiceQuotasClient.get_service_quota],
    extended by the orchestrator with [account_id] and [region]; the
    CloudFront table entry has only five of the keys, so every key is
    optional. *)
Record quota_info := mk_quota_info {
  qi_quota_code : option string;
  qi_quota_name : option string;
  qi_value : option float;
  qi_unit : option string;
  qi_adjustable : option bool;
  qi_global_quota : option bool;
  qi_account_id : option string;
  qi_region : option string
}.

(** Truth value of the dictionary: a dict is falsy exactly when empty. *)
Definition dict_truthy (q : quota_info) : bool :=
  match q with
  | mk_quota_info None None None None None None None None => false
  | _ => true
  end.

(** The empty dictionary [{}]. *)
Definition empty_dict : quota_info :=
  mk_quota_info None None None None None None None None.

(** [quota_info.copy()] followed by the two assignments of the context keys. *)
Definition with_context (q : quota_info) (account_id region : string) : quota_info :=
  mk_quota_info (qi_quota_code q) (qi_quota_name q) (qi_value q) (qi_unit q)
    (qi_adjustable q) (qi_global_quota q) (Some account_id) (Some region).

(** config/loader.py: [QuotaItem] and [DiscoveryConfig]. *)
Record QuotaItem := mk_QuotaItem {
  item_quota_code : string;
  item_quota_name : string;
  description : string;
  priority : string;
  cache_ttl_limit : Z;
  cache_ttl_usage : Z
}.

(** A match rule is a dict; the only key read is [name_contains]. *)
Record match_rule := mk_rule { name_contains : option (list string) }.

Record DiscoveryConfig := mk_DiscoveryConfig {
  enabled : bool;
  match_rules : list match_rule;
  default_priority : string
}.

(** ** cache/cache.py: MemoryCache *)

Module MemoryCache.
Section Cache.
Context {V : Type}.

(** [self._cache]: key -> (value, expiration_time). *)
Definition t := gmap string (V * Q).

Definition empty : t := ∅.

(** [get(key)] at clock reading [now]. The pair [(value, True)] is
    [Some value]; [(None, False)] is [None]. The second component is the
    cache after the call. *)
Definition get (now : Q) (key : string) (c : gmap string (V * Q))
  : option V * gmap string (V * Q) :=
  match c !! key with
  | None => (None, c)
  | Some (value, expiration_time) =>
      if Qgtb now expiration_time
      then (None, delete key c)
      else (Some value, c)
  end.

(** [set(key, value, ttl)] at clock reading [now]. *)
Definition set (now : Q) (key : string) (value : V) (ttl : Z)
  (c : gmap string (V * Q)) : gmap string (V * Q) :=
  let expiration_time := (now + inject_Z ttl)%Q in
  <[key := (value, expiration_time)]> c.

Definition delete (key : string) (c : gmap string (V * Q)) : gmap string (V * Q) :=
  match c !! key with
  | Some _ => base.delete key c
  | None => c
  end.

Definition clear (c : gmap string (V * Q)) : gmap string (V * Q) := ∅.

(** [cleanup_expired()]: drop every entry whose expiry lies before
    [current_time]. *)
Definition cleanup_expired (current_time : Q) (c : gmap string (V * Q))
  : gmap string (V * Q) :=
  filter (fun kv => Qgtb current_time (snd (snd kv)) = false) c.

End Cache.
End MemoryCache.

(** ** cache/quota_limit_cache.py: QuotaLimitCache *)

Module QuotaLimitCache.

(** The JSON object of one cache file. The keys are optional because [get]
    reads them with defaults. *)
Record cache_data := mk_cache_data {
  cd_timestamp : option Q;
  cd_account_id : option string;
  cd_region : option string;
  cd_service : option string;
  cd_quotas : option (gmap string quota_info)
}.

(** A file on disk: unreadable content makes [json.load] raise. *)
Inductive file :=
| Unreadable
| Json (d : cache_data).

(** The cache directory: one file per (account_id, region, service), the
    path built by [_get_cache_file_path]. *)
Definition files := gmap (string * string * string) file.

(** The cache object: its TTL, and the value of the environment switch
    read by [is_force_refresh]. *)
Record t := mk_cache {
  cache_ttl : Z;
  force_refresh_quota_limits : bool
}.

Definition is_force_refresh (c : t) : bool := force_refresh_quota_limits c.

(** [get(account_id, region, service, quota_code)] at clock reading [now];
    the second component is the directory after the call. *)
Definition get (c : t) (now : Q) (account_id region service quota_code : string)
  (fs : gmap (string * string * string) file)
  : option quota_info * gmap (string * string * string) file :=
  match fs !! (account_id, region, service) with
  | None => (None, fs)
  | Some Unreadable => (None, fs)
  | Some (Json d) =>
      let cache_time := default 0%Q (cd_timestamp d) in
      if Qgtb (now - cache_time)%Q (inject_Z (cache_ttl c)) then (None, fs)
      else
        let quotas := default ∅ (cd_quotas d) in
        match quotas !! quota_code with
        | Some quota_data => if dict_truthy quota_data then (Some quota_data, fs)
                             else (None, fs)
        | None => (None, fs)
        end
  end.

(** [set(account_id, region, service, quota_code, quota_data)] at clock
    reading [now]: read-modify-write of the whole file. *)
Definition set (c : t) (now : Q) (account_id region service quota_code : string)
  (quota_data : quota_info) (fs : gmap (string * string * string) file)
  : gmap (string * string * string) file :=
  let quotas :=
    match fs !! (account_id, region, service) with
    | Some (Json d) => default ∅ (cd_quotas d)
    | _ => ∅
    end in
  <[(account_id, region, service) :=
      Json (mk_cache_data (Some now) (Some account_id) (Some region) (Some service)
              (Some (<[quota_code := quota_data]> quotas)))]> fs.

(** An argument of [clear] counts as given when it is a non-empty string. *)
Definition given (arg : option string) : option string :=
  match arg with
  | Some (String c rest) => Some (String c rest)
  | _ => None
  end.

(** [clear(account_id, region, service)]: one file, the directory of one
    region, the directory of one account, or the whole cache directory. *)
Definition clear (account_id region service : option string)
  (fs : gmap (string * string * string) file)
  : gmap (string * string * string) file :=
  match given account_id, given region, given service with
  | Some a, Some r, Some sv => delete (a, r, sv) fs
  | Some a, Some r, None =>
      filter (fun kv => negb (String.eqb (fst (fst (fst kv))) a
                                && String.eqb (snd (fst (fst kv))) r) = true) fs
  | Some a, None, _ =>
      filter (fun kv => negb (String.eqb (fst (fst (fst kv))) a) = true) fs
  | None, _, _ => ∅
  end.

End QuotaLimitCache.

(** ** collector/quota_result.py

    The field [quota_info] of the dataclass is [quota_info_of] here, the
    name being that of the dictionary type. *)

Inductive QuotaStatus := SUCCESS | SKIPPED | FAILED.

Record QuotaResult := mk_QuotaResult {
  service : string;
  quota_code : string;
  quota_name : string;
  status : QuotaStatus;
  account_id : string;
  region : string;
  reason : option string;
  quota_info_of : option quota_info;
  error : option string
}.

Definition is_success (r : QuotaResult) : bool :=
  match status r with SUCCESS => true | _ => false end.
Definition is_skipped (r : QuotaResult) : bool :=
  match status r with SKIPPED => true | _ => false end.
Definition is_failed (r : QuotaResult) : bool :=
  match status r with FAILED => true | _ => false end.

(** ** collector/collector.py: QuotaCollector *)

Module Collector.

(** Label values of one gauge child, in the order
    provider, account_id, region, service, quota_name, quota_code. *)
Definition labels : Type := string * string * string * string * string * string.

Definition labels_of (account_id region service quota_name quota_code : string)
  : labels :=
  ("aws", account_id, region, service, quota_name, quota_code).

(** [float('nan')]. *)
Definition NaN : float := PrimFloat.nan.

(** The state of a collector: three gauge families, two counters, the
    duration histogram's observations, the accumulated results and the
    service-level usage dictionaries. *)
Record t := mk {
  quota_limit : gmap labels float;
  quota_usage : gmap labels float;
  quota_usage_percent : gmap labels float;
  scrape_errors_total : gmap (string * string * string) nat;
  scrape_duration_seconds : list Q;
  scrape_skipped_total : gmap (string * string) nat;
  results : list QuotaResult;
  usage_data : gmap (string * string * string) (gmap string float)
}.

(** [QuotaCollector()]. *)
Definition init : t := mk ∅ ∅ ∅ ∅ [] ∅ [] ∅.

Definition set_limit (l : labels) (v : float) (c : t) : t :=
  mk (<[l := v]> (quota_limit c)) (quota_usage c) (quota_usage_percent c)
     (scrape_errors_total c) (scrape_duration_seconds c) (scrape_skipped_total c)
     (results c) (usage_data c).

Definition set_usage (l : labels) (v : float) (c : t) : t :=
  mk (quota_limit c) (<[l := v]> (quota_usage c)) (quota_usage_percent c)
     (scrape_errors_total c) (scrape_duration_seconds c) (scrape_skipped_total c)
     (results c) (usage_data c).

Definition set_percent (l : labels) (v : float) (c : t) : t :=
  mk (quota_limit c) (quota_usage c) (<[l := v]> (quota_usage_percent c))
     (scrape_errors_total c) (scrape_duration_seconds c) (scrape_skipped_total c)
     (results c) (usage_data c).

Definition inc_errors (k : string * string * string) (c : t) : t :=
  mk (quota_limit c) (quota_usage c) (quota_usage_percent c)
     (<[k := S (default O (scrape_errors_total c !! k))]> (scrape_errors_total c))
     (scrape_duration_seconds c) (scrape_skipped_total c)
     (results c) (usage_data c).

Definition inc_skipped (k : string * string) (c : t) : t :=
  mk (quota_limit c) (quota_usage c) (quota_usage_percent c)
     (scrape_errors_total c) (scrape_duration_seconds c)
     (<[k := S (default O (scrape_skipped_total c !! k))]> (scrape_skipped_total c))
     (results c) (usage_data c).

Definition observe_duration (d : Q) (c : t) : t :=
  mk (quota_limit c) (quota_usage c) (quota_usage_percent c)
     (scrape_errors_total c) (scrape_duration_seconds c ++ [d])
     (scrape_skipped_total c) (results c) (usage_data c).

Definition append_result (r : QuotaResult) (c : t) : t :=
  mk (quota_limit c) (quota_usage c) (quota_usage_percent c)
     (scrape_errors_total c) (scrape_duration_seconds c) (scrape_skipped_total c)
     (results c ++ [r]) (usage_data c).

Definition store_usage_data (k : string * string * string) (d : gmap string float)
  (c : t) : t :=
  mk (quota_limit c) (quota_usage c) (quota_usage_percent c)
     (scrape_errors_total c) (scrape_duration_seconds c) (scrape_skipped_total c)
     (results c) (<[k := d]> (usage_data c)).

(** [_get_usage_value]: [self.usage_data.get(key, {}).get(quota_code)]. *)
Definition _get_usage_value (c : t) (account_id region service quota_code : string)
  : option float :=
  default ∅ (usage_data c !! (account_id, region, service)) !! quota_code.

(** The percent written next to a usage value:
    [(usage_value / limit_value) * 100.0] when [limit_value > 0], otherwise
    [float('nan')]. *)
Definition percent_of (usage_value limit_value : float) : float :=
  if PrimFloat.ltb 0%float limit_value
  then PrimFloat.mul (PrimFloat.div usage_value limit_value) 100%float
  else NaN.

(** The error type counted for a failed result. *)
Definition error_type_of (r : QuotaResult) : string :=
  let e := default "" (error r) in
  if Py.str_in "NoSuchResourceException" e then "quota_not_found"
  else if Py.str_in "AccessDeniedException" e then "permission_denied"
  else "api_error".

(** [add_result(result)]. *)
Definition add_result (r : QuotaResult) (c : t) : t :=
  let c := append_result r c in
  if is_success r then
    let qi := default empty_dict (quota_info_of r) in
    let limit_value := default 0%float (qi_value qi) in
    let l := labels_of (account_id r) (region r) (service r) (quota_name r)
               (quota_code r) in
    let c := set_limit l limit_value c in
    match _get_usage_value c (account_id r) (region r) (service r) (quota_code r) with
    | Some usage_value =>
        let c := set_usage l usage_value c in
        set_percent l (percent_of usage_value limit_value) c
    | None =>
        let c := set_usage l NaN c in
        set_percent l NaN c
    end
  else if is_skipped r then
    inc_skipped (service r, Py.str_or (reason r) "unknown") c
  else if is_failed r then
    inc_errors (service r, quota_code r, error_type_of r) c
  else c.

(** [collect_all(results)]; [start_time] and [end_time] are the two clock
    readings around the loop. *)
Definition collect_all (start_time end_time : Q) (rs : list QuotaResult) (c : t) : t :=
  let c := fold_left (fun c r => add_result r c) rs c in
  observe_duration (end_time - start_time)%Q c.

(** Body of the first loop of [set_usage_data], for one stored result. *)
Definition update_success (account_id0 region0 service0 : string)
  (usage : gmap string float) (c : t) (r : QuotaResult) : t :=
  match quota_info_of r with
  | Some qi =>
      if is_success r && dict_truthy qi
         && bool_decide (qi_account_id qi = Some account_id0)
         && bool_decide (qi_region qi = Some region0)
         && bool_decide (service r = service0)
      then
        match usage !! quota_code r with
        | Some usage_value =>
            let limit_value := default 0%float (qi_value qi) in
            let l := labels_of account_id0 region0 service0 (quota_name r)
                       (quota_code r) in
            let c := set_usage l usage_value c in
            set_percent l (percent_of usage_value limit_value) c
        | None => c
        end
      else c
  | None => c
  end.

(** Body of the second loop of [set_usage_data], for one stored result. *)
Definition update_skipped (account_id0 region0 service0 : string)
  (usage : gmap string float) (c : t) (r : QuotaResult) : t :=
  if is_skipped r
     && bool_decide (account_id r = account_id0)
     && bool_decide (region r = region0)
     && bool_decide (service r = service0)
  then
    match usage !! quota_code r with
    | Some usage_value =>
        let l := labels_of account_id0 region0 service0 (quota_name r)
                   (quota_code r) in
        let c := set_usage l usage_value c in
        set_percent l NaN c
    | None => c
    end
  else c.

(** [set_usage_data(account_id, region, service, usage_data)]. Both loops
    run over [self.results], which neither loop changes. *)
Definition set_usage_data (account_id0 region0 service0 : string)
  (usage : gmap string float) (c : t) : t :=
  let c := store_usage_data (account_id0, region0, service0) usage c in
  let rs := results c in
  let c := fold_left (update_success account_id0 region0 service0 usage) rs c in
  fold_left (update_skipped account_id0 region0 service0 usage) rs c.

(** *** [get_summary] *)

(** The three counters kept per service. *)
Record service_counts := mk_counts {
  n_success : nat;
  n_skipped : nat;
  n_failed : nat
}.

Record summary := mk_summary {
  sum_total : nat;
  sum_success : nat;
  sum_skipped : nat;
  sum_failed : nat;
  by_service : gmap string service_counts;
  skip_reasons : gmap string nat
}.

(** [sum(1 for r in self.results if pred(r))]. *)
Definition count_results (pred : QuotaResult -> bool) (rs : list QuotaResult) : nat :=
  length (List.filter pred rs).

(** One iteration of the loop that fills [by_service]. *)
Definition by_service_step (m : gmap string service_counts) (r : QuotaResult)
  : gmap string service_counts :=
  let sc := default (mk_counts 0 0 0) (m !! service r) in
  <[service r :=
      if is_success r then mk_counts (S (n_success sc)) (n_skipped sc) (n_failed sc)
      else if is_skipped r then mk_counts (n_success sc) (S (n_skipped sc)) (n_failed sc)
      else if is_failed r then mk_counts (n_success sc) (n_skipped sc) (S (n_failed sc))
      else sc]> m.

(** One iteration of the loop that fills [skip_reasons]. *)
Definition skip_reasons_step (m : gmap string nat) (r : QuotaResult)
  : gmap string nat :=
  match reason r with
  | Some (String c rest) =>
      if is_skipped r
      then <[String c rest := S (default O (m !! String c rest))]> m
      else m
  | _ => m
  end.

Definition get_summary (c : t) : summary :=
  mk_summary (length (results c))
    (count_results is_success (results c))
    (count_results is_skipped (results c))
    (count_results is_failed (results c))
    (fold_left by_service_step (results c) ∅)
    (fold_left skip_reasons_step (results c) ∅).

(** *** Reading a collector *)

(** The label values under which a result is exported. *)
Definition labels_of_result (r : QuotaResult) : labels :=
  labels_of (account_id r) (region r) (service r) (quota_name r) (quota_code r).

(** [(result.quota_info or {}).get('value', 0.0)]. *)
Definition limit_of_result (r : QuotaResult) : float :=
  default 0%float (qi_value (default empty_dict (quota_info_of r))).


(** The results of one service that satisfy [p]; the skipped results with
    one reason. *)
Definition for_service (sv : string) (p : QuotaResult -> bool) (r : QuotaResult) : bool :=
  String.eqb (service r) sv && p r.

Definition skipped_for (rsn : string) (r : QuotaResult) : bool :=
  is_skipped r && bool_decide (reason r = Some rsn).


End Collector.

(** ** The remote world and the threaded state *)

(** A credentials dictionary; [None] for the dictionary stands for both
    Python's [None] and an empty dict, which the code treats alike. *)
Record credentials := mk_credentials {
  access_key : option string;
  secret_key : option string
}.

(** Truth value of a string: non-empty. *)
Definition str_truthy (s : string) : bool :=
  match s with EmptyString => false | _ => true end.

(** provider/aws/service_quotas.py: the client object. It uses the given
    keys when both are truthy and the default credential chain otherwise.
    Creating a client is local and is taken never to fail. *)
Record ServiceQuotasClient := mk_client {
  client_region : string;
  client_keys : option (string * string)
}.

Definition new_client (region : string) (ak sk : option string)
  : ServiceQuotasClient :=
  mk_client region
    match ak, sk with
    | Some a, Some k => if str_truthy a && str_truthy k then Some (a, k) else None
    | _, _ => None
    end.

(** The orchestrator's two ways of building a client. *)
Definition client_for (region : string) (creds : option credentials)
  : ServiceQuotasClient :=
  match creds with
  | Some c => new_client region (access_key c) (secret_key c)
  | None => new_client region None None
  end.

(** The [Quota] object of a remote response; every key may be missing. *)
Record api_quota := mk_api_quota {
  QuotaCode : option string;
  QuotaName : option string;
  Value : option float;
  Unit : option string;
  Adjustable : option bool;
  GlobalQuota : option bool
}.

(** One entry of the catalog returned by [list_service_quotas]. *)
Record catalog_entry := mk_entry {
  entry_quota_code : string;
  entry_quota_name : string;
  entry_value : float;
  entry_unit : string
}.

(** Remote behaviour. [remote_get_service_quota n] answers the call made
    when [n] calls of [GetServiceQuota] have been made before, so that a
    quota may be throttled first and served later. *)
Record World := mk_world {
  remote_get_service_quota :
    nat -> ServiceQuotasClient -> string -> string -> outcome (option api_quota);
  remote_list_service_quotas :
    ServiceQuotasClient -> string -> outcome (list api_quota);
  remote_collect_usage :
    string -> string -> string -> option (option string * option string) ->
    outcome (gmap string float);
  get_regions : string -> outcome (list string);
  get_credentials : option (string -> outcome (option credentials))
}.

(** Which line slept. *)
Inductive sleep_site :=
| PreDelay        (* time.sleep(0.1) before a fetch *)
| ClientThrottle  (* time.sleep(2) inside get_service_quota *)
| RetryBackoff.   (* time.sleep(wait_time) in the retry loop *)

Inductive event :=
| EvSleep (site : sleep_site) (seconds : Q)
| EvGetServiceQuota (region service_code quota_code : string)
| EvListServiceQuotas (region service_code : string)
| EvCollectUsage (service account_id region : string).

(** The state threaded through a collection: the number of
    [GetServiceQuota] calls made, the trace of remote calls and sleeps, the
    clock (advanced by sleeping) and the files of the limit cache. *)
Record state := mk_state {
  api_calls : nat;
  trace : list event;
  clock : Q;
  cache_files : gmap (string * string * string) QuotaLimitCache.file
}.

Definition M (A : Type) : Type := state -> A * state.

Definition ret {A} (a : A) : M A := fun s => (a, s).

Definition bind {A B} (m : M A) (k : A -> M B) : M B :=
  fun s => let (a, s') := m s in k a s'.

Declare Scope m_scope.
Delimit Scope m_scope with m.
Notation "x <- c ;; k" := (bind c (fun x => k))
  (at level 100, c at next level, right associativity) : m_scope.
Notation "c ;;; k" := (bind c (fun _ => k))
  (at level 100, right associativity) : m_scope.
Open Scope m_scope.

(** [time.sleep(seconds)]. *)
Definition sleep (site : sleep_site) (seconds : Q) : M unit :=
  fun s => (tt, mk_state (api_calls s) (trace s ++ [EvSleep site seconds])
                  (clock s + seconds)%Q (cache_files s)).

Definition emit (e : event) : M unit :=
  fun s => (tt, mk_state (api_calls s) (trace s ++ [e]) (clock s) (cache_files s)).

(** [for x in xs: body], collecting the lists the bodies produce. *)
Fixpoint for_each {A B} (xs : list A) (body : A -> M (list B)) : M (list B) :=
  match xs with
  | [] => ret []
  | x :: xs' =>
      r <- body x ;;
      rs <- for_each xs' body ;;
      ret (r ++ rs)
  end.

(** ** provider/aws/service_quotas.py: the two calls *)

Module Client.

(** [get_service_quota(service_code, quota_code)]: the result dictionary on
    success; every exception is re-raised, a [ClientError] with code
    [TooManyRequestsException] after sleeping two seconds. *)
Definition get_service_quota (w : World) (client : ServiceQuotasClient)
  (service_code quota_code : string) : M (outcome quota_info) :=
  fun s =>
    let s1 := mk_state (S (api_calls s))
                (trace s ++ [EvGetServiceQuota (client_region client) service_code quota_code])
                (clock s) (cache_files s) in
    match remote_get_service_quota w (api_calls s) client service_code quota_code with
    | Returns response =>
        let quota := default (mk_api_quota None None None None None None) response in
        (Returns (mk_quota_info
                    (Some (default quota_code (QuotaCode quota)))
                    (Some (default "" (QuotaName quota)))
                    (Some (default 0%float (Value quota)))
                    (Some (default "" (Unit quota)))
                    (Some (default false (Adjustable quota)))
                    (Some (default false (GlobalQuota quota)))
                    None None), s1)
    | Raises e =>
        match exn_cls e with
        | ClientError =>
            if String.eqb (error_code e) "TooManyRequestsException"
            then (Raises e, snd (sleep ClientThrottle 2%Q s1))
            else (Raises e, s1)
        | _ => (Raises e, s1)
        end
    end.

(** [list_service_quotas(service_code)]. *)
Definition list_service_quotas (w : World) (client : ServiceQuotasClient)
  (service_code : string) : M (outcome (list catalog_entry)) :=
  fun s =>
    let s1 := snd (emit (EvListServiceQuotas (client_region client) service_code) s) in
    match remote_list_service_quotas w client service_code with
    | Returns quotas =>
        (Returns (map (fun quota =>
                         mk_entry (default "" (QuotaCode quota))
                                  (default "" (QuotaName quota))
                                  (default 0%float (Value quota))
                                  (default "" (Unit quota))) quotas), s1)
    | Raises e => (Raises e, s1)
    end.

End Client.

(** ** provider/aws/sagemaker_discovery.py *)

Module SageMakerDiscovery.

(** [all(keyword.lower() in quota_name_lower for keyword in keywords)]. *)
Definition all_keywords_in (keywords : list string) (quota_name_lower : string) : bool :=
  forallb (fun keyword => Py.str_in (Py.lower keyword) quota_name_lower) keywords.

(** The loop of [_matches_rules] over the rules that remain. *)
Fixpoint matches_rules_loop (rules : list match_rule) (quota_name_lower : string)
  : bool :=
  match rules with
  | [] => false
  | rule :: rest =>
      match name_contains rule with
      | Some keywords =>
          if all_keywords_in keywords quota_name_lower then true
          else matches_rules_loop rest quota_name_lower
      | None => matches_rules_loop rest quota_name_lower
      end
  end.

Definition _matches_rules (config : DiscoveryConfig) (quota_name : string) : bool :=
  let quota_name_lower := Py.lower quota_name in
  matches_rules_loop (match_rules config) quota_name_lower.

(** The item built for a matching catalog entry. *)
Definition item_of (config : DiscoveryConfig) (quota : catalog_entry) : QuotaItem :=
  mk_QuotaItem (entry_quota_code quota) (entry_quota_name quota)
    ("Discovered SageMaker quota: " +:+ entry_quota_name quota)
    (default_priority config) 86400 3600.

(** The matching loop of [discover_quotas] over a catalog. *)
Fixpoint match_catalog (config : DiscoveryConfig) (all_quotas : list catalog_entry)
  : list QuotaItem :=
  match all_quotas with
  | [] => []
  | quota :: rest =>
      if _matches_rules config (entry_quota_name quota)
      then item_of config quota :: match_catalog config rest
      else match_catalog config rest
  end.

(** [discover_quotas(region)]: the catalog is always listed for the service
    code [sagemaker]; a failed listing yields the empty list. *)
Definition discover_quotas (w : World) (client : ServiceQuotasClient)
  (config : DiscoveryConfig) (region : string) : M (list QuotaItem) :=
  r <- Client.list_service_quotas w client "sagemaker" ;;
  match r with
  | Returns all_quotas => ret (match_catalog config all_quotas)
  | Raises _ => ret []
  end.

End SageMakerDiscovery.

(** ** main.py: the collection orchestrator *)

Module Orchestrator.

(** A value of [quota_config.aws]: a list of quota items, or a dict holding
    a discovery configuration. *)
Inductive service_config :=
| Static (quotas : list QuotaItem)
| Discovery (discovery : DiscoveryConfig).

(** What [_collect_account_region_quotas] appends to its result list: a
    [usage_data] dict or a [QuotaResult]. *)
Inductive item :=
| UsageItem (account_id region service : string) (usage_data : gmap string float)
| ResultItem (r : QuotaResult).

Definition global_services : list string := ["route53"; "cloudfront"].

Definition regional_services : list string :=
  ["ec2"; "ebs"; "elasticloadbalancing"; "eks"; "elasticache"; "sagemaker"].

(** The services whose usage is collected, in the order of the loop. *)
Definition usage_services : list string :=
  ["ec2"; "ebs"; "elasticloadbalancing"; "eks"; "elasticache"; "route53";
   "cloudfront"; "sagemaker"].

Definition in_list (x : string) (l : list string) : bool :=
  existsb (String.eqb x) l.

(** [service in quota_config.aws]. *)
Definition in_config (sv : string) (aws : list (string * service_config)) : bool :=
  existsb (fun kv => String.eqb sv (fst kv)) aws.

(** *** The retry loop around [get_service_quota] *)

Definition max_retries : nat := 3.

(** [wait_time = (2 ** retry_count) * 2]. *)
Definition wait_time (retry_count : nat) : Z := (2 ^ Z.of_nat retry_count) * 2.

(** [while retry_count < max_retries: ...], the loop that stands around
    every call of [get_service_quota] (for discovered and for configured
    quotas in [_collect_account_region_quotas], and again in the sequential
    path of [collect_quotas]). The result is the value of [quota_info] when
    the loop is left ([None] if it was never assigned), or the exception
    that the loop re-raises. [fuel] bounds the iterations;
    [max_retries - retry_count] of it is enough. *)
Fixpoint retry_loop (fuel : nat) (w : World) (sq_client : ServiceQuotasClient)
  (sv code : string) (retry_count : nat) : M (outcome (option quota_info)) :=
  match fuel with
  | O => ret (Returns None)
  | S fuel' =>
      if (retry_count <? max_retries)%nat then
        r <- Client.get_service_quota w sq_client sv code ;;
        match r with
        | Returns quota_info => ret (Returns (Some quota_info))
        | Raises api_error =>
            let error_msg := exn_str api_error in
            if Py.str_in "TooManyRequestsException" error_msg
               && (retry_count <? max_retries - 1)%nat
            then
              sleep RetryBackoff (inject_Z (wait_time retry_count)) ;;;
              retry_loop fuel' w sq_client sv code (S retry_count)
            else ret (Raises api_error)
        end
      else ret (Returns None)
  end.

Definition fetch_with_retry (w : World) (sq_client : ServiceQuotasClient)
  (sv code : string) : M (outcome (option quota_info)) :=
  retry_loop max_retries w sq_client sv code 0.

(** *** Results *)

(** The reason code of a failed fetch, from the exception text. *)
Definition failure_reason (error_msg : string) : string :=
  if Py.str_in "NoSuchResourceException" error_msg then "quota_not_found"
  else if Py.str_in "AccessDeniedException" error_msg then "permission_denied"
  else "api_error".

Definition success_result (sv code name : string) (qi : quota_info)
  (account_id service_region : string) : QuotaResult :=
  mk_QuotaResult sv code name SUCCESS account_id service_region None
    (Some (with_context qi account_id service_region)) None.

Definition failed_result (sv code name reason error : string)
  (account_id service_region : string) : QuotaResult :=
  mk_QuotaResult sv code name FAILED account_id service_region (Some reason)
    None (Some error).

(** The tail of a quota's [try] block and its [except] handler: the result
    recorded for what the fetch produced. *)
Definition result_of_fetch (sv : string) (quota : QuotaItem)
  (account_id service_region : string) (r : outcome (option quota_info))
  : QuotaResult :=
  let code := item_quota_code quota in
  let name := item_quota_name quota in
  match r with
  | Returns (Some qi) =>
      if dict_truthy qi
      then success_result sv code name qi account_id service_region
      else failed_result sv code name "empty_response" "API returned empty response"
             account_id service_region
  | Returns None =>
      failed_result sv code name "empty_response" "API returned empty response"
        account_id service_region
  | Raises e =>
      failed_result sv code name (failure_reason (exn_str e)) (exn_str e)
        account_id service_region
  end.

(** One quota found by discovery: delay, fetch with retry, record. *)
Definition collect_discovered_quota (w : World) (sq_client : ServiceQuotasClient)
  (account_id sv service_region : string) (quota_item : QuotaItem)
  : M (list QuotaResult) :=
  sleep PreDelay (1 # 10) ;;;
  r <- fetch_with_retry w sq_client sv (item_quota_code quota_item) ;;
  ret [result_of_fetch sv quota_item account_id service_region r].

Definition cache_lookup (cache : option QuotaLimitCache.t)
  (account_id service_region sv code : string) : M (option quota_info) :=
  match cache with
  | Some c =>
      if negb (QuotaLimitCache.is_force_refresh c) then
        fun s =>
          let (cached_data, fs) :=
            QuotaLimitCache.get c (clock s) account_id service_region sv code
              (cache_files s) in
          (cached_data, mk_state (api_calls s) (trace s) (clock s) fs)
      else ret None
  | None => ret None
  end.

Definition cache_store (c : QuotaLimitCache.t)
  (account_id service_region sv code : string) (qi : quota_info) : M unit :=
  fun s =>
    (tt, mk_state (api_calls s) (trace s) (clock s)
           (QuotaLimitCache.set c (clock s) account_id service_region sv code qi
              (cache_files s))).

(** One statically configured quota: cache first; on a miss delay, fetch
    with retry and write through; record. *)
Definition collect_static_quota (w : World) (cache : option QuotaLimitCache.t)
  (sq_client : ServiceQuotasClient) (account_id sv service_region : string)
  (quota : QuotaItem) : M (list QuotaResult) :=
  let code := item_quota_code quota in
  cached_data <- cache_lookup cache account_id service_region sv code ;;
  r <- match cached_data with
       | Some qi => ret (Returns (Some qi))
       | None =>
           sleep PreDelay (1 # 10) ;;;
           r <- fetch_with_retry w sq_client sv code ;;
           match r, cache with
           | Returns (Some qi), Some c =>
               (if dict_truthy qi
                then cache_store c account_id service_region sv code qi
                else ret tt) ;;;
               ret r
           | _, _ => ret r
           end
       end ;;
  ret [result_of_fetch sv quota account_id service_region r].

(** The built-in CloudFront limits, keyed by quota code. *)
Definition cloudfront_default_limits : gmap string float :=
  <["L-24B04930" := 200%float]>
  (<["L-7D134442" := 20%float]>
   (<["L-CF0D4FC5" := 20%float]>
    (<["L-08884E5C" := 100%float]> ∅))).

(** The CloudFront loop: a result for each quota that has a built-in limit,
    nothing for the others. *)
Fixpoint cloudfront_results (account_id service_region : string)
  (quotas : list QuotaItem) : list QuotaResult :=
  match quotas with
  | [] => []
  | quota :: rest =>
      let code := item_quota_code quota in
      let name := item_quota_name quota in
      match cloudfront_default_limits !! code with
      | Some default_limit =>
          mk_QuotaResult "cloudfront" code name SUCCESS account_id service_region None
            (Some (mk_quota_info (Some code) (Some name) (Some default_limit)
                     None None None (Some account_id) (Some service_region)))
            None
          :: cloudfront_results account_id service_region rest
      | None => cloudfront_results account_id service_region rest
      end
  end.

(** *** The limit phase *)

(** One iteration of [for service, service_config in quota_config.aws.items()];
    [sq_client] is the loop-carried client variable. *)
Definition limit_service_step (w : World) (cache : option QuotaLimitCache.t)
  (creds : option credentials) (account_id region : string)
  (sq_client : ServiceQuotasClient) (entry : string * service_config)
  : M (ServiceQuotasClient * list QuotaResult) :=
  let (sv, config) := entry in
  let service_region :=
    if in_list sv global_services then "us-east-1" else region in
  let sq_client :=
    if in_list sv global_services && negb (String.eqb region "us-east-1")
    then client_for "us-east-1" creds else sq_client in
  match config with
  | Discovery discovery_config =>
      if enabled discovery_config then
        let sq_client :=
          if in_list sv regional_services
             && negb (String.eqb service_region (client_region sq_client))
          then client_for service_region creds else sq_client in
        discovered_quotas <-
          SageMakerDiscovery.discover_quotas w sq_client discovery_config
            service_region ;;
        rs <- for_each discovered_quotas
                (collect_discovered_quota w sq_client account_id sv service_region) ;;
        ret (sq_client, rs)
      else ret (sq_client, [])
  | Static quotas =>
      if String.eqb sv "cloudfront"
      then ret (sq_client, cloudfront_results account_id service_region quotas)
      else
        rs <- for_each quotas
                (collect_static_quota w cache sq_client account_id sv service_region) ;;
        ret (sq_client, rs)
  end.

Fixpoint limit_loop (w : World) (cache : option QuotaLimitCache.t)
  (creds : option credentials) (account_id region : string)
  (sq_client : ServiceQuotasClient) (aws : list (string * service_config))
  : M (list QuotaResult) :=
  match aws with
  | [] => ret []
  | entry :: rest =>
      step <- limit_service_step w cache creds account_id region sq_client entry ;;
      rs' <- limit_loop w cache creds account_id region (fst step) rest ;;
      ret (snd step ++ rs')
  end.

(** *** The usage phase *)

(** One iteration of the usage loop. *)
Definition usage_step (w : World) (usage_collectors : gset string)
  (aws : list (string * service_config)) (creds : option credentials)
  (account_id region : string) (sv : string) : M (list item) :=
  if in_config sv aws && bool_decide (sv ∈ usage_collectors) then
    let usage_region :=
      if in_list sv global_services then "us-east-1" else region in
    let metrics_region := usage_region in
    emit (EvCollectUsage sv account_id usage_region) ;;;
    match remote_collect_usage w sv account_id usage_region
            (option_map (fun c => (access_key c, secret_key c)) creds) with
    | Returns usage_data =>
        if (0 <? size usage_data)%nat
        then ret [UsageItem account_id metrics_region sv usage_data]
        else ret []
    | Raises _ => ret []
    end
  else ret [].

(** *** One region, one account *)

Definition _collect_account_region_quotas (w : World)
  (cache : option QuotaLimitCache.t) (usage_collectors : gset string)
  (aws : list (string * service_config)) (account_id region : string)
  (creds : option credentials) (collect_limit collect_usage : bool)
  : M (list item) :=
  usage_items <-
    (if collect_usage
     then for_each usage_services
            (usage_step w usage_collectors aws creds account_id region)
     else ret []) ;;
  limit_results <-
    (if collect_limit
     then limit_loop w cache creds account_id region (client_for region creds) aws
     else ret []) ;;
  ret (usage_items ++ map ResultItem limit_results).

Definition _collect_account_quotas (w : World)
  (cache : option QuotaLimitCache.t) (usage_collectors : gset string)
  (aws : list (string * service_config)) (collect_limit collect_usage : bool)
  (account_id : string) : M (list item) :=
  match get_regions w account_id with
  | Raises _ => ret []
  | Returns regions =>
      let regions :=
        match regions with [] => ["us-east-1"] | _ => regions end in
      let creds :=
        match get_credentials w with
        | Some provider =>
            match provider account_id with
            | Returns c => c
            | Raises _ => None
            end
        | None => None
        end in
      for_each regions
        (fun region =>
           _collect_account_region_quotas w cache usage_collectors aws
             account_id region creds collect_limit collect_usage)
  end.

(** *** A whole cycle (the thread-pool branch of [collect_quotas])

    The workers are taken to run one after the other, in the order
    [completion_order] in which [as_completed] hands their results over.
    This is the branch taken with concurrency on and more than one account;
    the sequential branch and the choice between the two are in module
    [Sequential]. *)

Definition usage_items_of (items : list item)
  : list (string * string * string * gmap string float) :=
  flat_map (fun it => match it with
                      | UsageItem a r sv u => [(a, r, sv, u)]
                      | ResultItem _ => []
                      end) items.

Definition limit_results_of (items : list item) : list QuotaResult :=
  flat_map (fun it => match it with
                      | UsageItem _ _ _ _ => []
                      | ResultItem r => [r]
                      end) items.

(** The CloudFront re-application pass over the stored usage dictionaries. *)
Definition reapply_cloudfront (accounts : list string) (qc : Collector.t) : Collector.t :=
  fold_left
    (fun qc account_id =>
       match Collector.usage_data qc !! (account_id, "us-east-1", "cloudfront") with
       | Some usage_data =>
           if (0 <? size usage_data)%nat
           then Collector.set_usage_data account_id "us-east-1" "cloudfront" usage_data qc
           else qc
       | None => qc
       end) accounts qc.

Definition collect_quotas (w : World) (cache : option QuotaLimitCache.t)
  (usage_collectors : gset string) (aws : list (string * service_config))
  (accounts completion_order : list string) (collect_limit collect_usage : bool)
  (quota_collector : Collector.t) : M Collector.t :=
  items <- for_each completion_order
             (_collect_account_quotas w cache usage_collectors aws
                collect_limit collect_usage) ;;
  let usage_data_list := usage_items_of items in
  let all_results := limit_results_of items in
  let qc :=
    if collect_usage then
      fold_left (fun qc u =>
                   match u with
                   | (a, r, sv, d) => Collector.set_usage_data a r sv d qc
                   end) usage_data_list quota_collector
    else quota_collector in
  fun s =>
    let qc :=
      match all_results with
      | [] => qc
      | _ => Collector.collect_all (clock s) (clock s) all_results qc
      end in
    let qc :=
      if collect_usage && in_config "cloudfront" aws
         && bool_decide ("cloudfront" ∈ usage_collectors)
      then reapply_cloudfront accounts qc else qc in
    (qc, s).

(** *** Reading a trace *)

(** The events a run added to the trace of the state it started from. *)
Definition new_events (before after : state) : list event :=
  drop (length (trace before)) (trace after).

(** The waits slept by the retry loop, in order. *)
Definition backoff_waits (evs : list event) : list Q :=
  flat_map (fun e => match e with
                     | EvSleep RetryBackoff d => [d]
                     | _ => []
                     end) evs.

(** The waits slept inside [get_service_quota], in order. *)
Definition client_waits (evs : list event) : list Q :=
  flat_map (fun e => match e with
                     | EvSleep ClientThrottle d => [d]
                     | _ => []
                     end) evs.

(** Every wait of the trace, in order. *)
Definition all_waits (evs : list event) : list Q :=
  flat_map (fun e => match e with
                     | EvSleep _ d => [d]
                     | _ => []
                     end) evs.

Definition total (ds : list Q) : Q := fold_right Qplus 0%Q ds.

(** The retry loop's test of an exception: its text names the throttling
    error. *)
Definition throttling_text (e : exn) : bool :=
  Py.str_in "TooManyRequestsException" (exn_str e).

Definition is_throttled {A} (o : outcome A) : bool :=
  match o with
  | Raises e => throttling_text e
  | Returns _ => false
  end.

(** The client's test of an exception: a [ClientError] whose code is the
    throttling code. *)
Definition client_throttled {A} (o : outcome A) : bool :=
  match o with
  | Raises e =>
      match exn_cls e with
      | ClientError => String.eqb (error_code e) "TooManyRequestsException"
      | _ => false
      end
  | Returns _ => false
  end.

(** What one call of [get_service_quota] answered [o] adds to the trace,
    returns, and leaves on the clock. *)
Definition client_events (client : ServiceQuotasClient) (sv code : string)
  (o : outcome (option api_quota)) : list event :=
  EvGetServiceQuota (client_region client) sv code ::
  (if client_throttled o then [EvSleep ClientThrottle 2%Q] else []).

Definition client_result (code : string) (o : outcome (option api_quota))
  : outcome quota_info :=
  match o with
  | Returns response =>
      let quota := default (mk_api_quota None None None None None None) response in
      Returns (mk_quota_info
                 (Some (default code (QuotaCode quota)))
                 (Some (default "" (QuotaName quota)))
                 (Some (default 0%float (Value quota)))
                 (Some (default "" (Unit quota)))
                 (Some (default false (Adjustable quota)))
                 (Some (default false (GlobalQuota quota)))
                 None None)
  | Raises e => Raises e
  end.

Definition client_clock (o : outcome (option api_quota)) (clk : Q) : Q :=
  if client_throttled o then (clk + 2)%Q else clk.

(** The result the retry loop hands on for the answer of its last call. *)
Definition loop_result (code : string) (o : outcome (option api_quota))
  : outcome (option quota_info) :=
  match client_result code o with
  | Returns q => Returns (Some q)
  | Raises e => Raises e
  end.

(** What every recorded result satisfies: it carries the service it was
    collected for and is a success or a failure. *)
Definition recorded_for (sv : string) (r : QuotaResult) : Prop :=
  service r = sv /\ (status r = SUCCESS \/ status r = FAILED).

End Orchestrator.

(** ** Runs of the orchestrator

    Relations between the state before and after a computation, and what
    the recorded items carry. *)

Module Run.

(** Every run of [m] is related by [R]. *)
Definition runs (R : state -> state -> Prop) {A : Type} (m : M A) : Prop :=
  forall s, R s (snd (m s)).

(** A run from [s] to [s']: calls and clock only grow, the trace is
    extended by events that all satisfy [P]. *)
Definition extends (P : event -> Prop) (s s' : state) : Prop :=
  (api_calls s <= api_calls s')%nat /\ (clock s <= clock s')%Q /\
  exists evs, trace s' = trace s ++ evs /\ Forall P evs.

(** Events of the limit phase that address one of the regions [allowed]. *)
Definition limit_event (allowed : list string) (e : event) : Prop :=
  match e with
  | EvSleep _ _ => True
  | EvGetServiceQuota rg _ _ => In rg allowed
  | EvListServiceQuotas rg _ => In rg allowed
  | EvCollectUsage _ _ _ => False
  end.

(** A usage collection for one account. *)
Definition usage_event (account_id : string) (e : event) : Prop :=
  match e with
  | EvCollectUsage _ a _ => a = account_id
  | _ => False
  end.

(** A run of the usage phase for one account: nothing but usage
    collections happens. *)
Definition usage_run (account_id : string) (s s' : state) : Prop :=
  api_calls s' = api_calls s /\ clock s' = clock s /\
  cache_files s' = cache_files s /\
  exists evs, trace s' = trace s ++ evs /\ Forall (usage_event account_id) evs.


(** What a fetch hands to [result_of_fetch]: a non-empty dictionary or an
    exception. *)
Definition good_fetch (o : outcome (option quota_info)) : Prop :=
  match o with
  | Returns (Some qi) => dict_truthy qi = true
  | Returns None => False
  | Raises _ => True
  end.

(** The region a service is collected and labelled in. *)
Definition service_region_of (sv region : string) : string :=
  if Orchestrator.in_list sv Orchestrator.global_services then "us-east-1" else region.

(** What a recorded result carries. *)
Definition well_formed (account_id0 region0 : string) (r : QuotaResult) : Prop :=
  account_id r = account_id0 /\
  region r = service_region_of (service r) region0 /\
  match status r with
  | SUCCESS =>
      exists qi, quota_info_of r = Some qi /\ dict_truthy qi = true /\
                 qi_account_id qi = Some account_id0 /\ qi_region qi = Some (region r)
  | FAILED =>
      exists err, error r = Some err /\
                  reason r = Some (Orchestrator.failure_reason err)
  | SKIPPED => False
  end.

Definition well_formed_item (aws : list (string * Orchestrator.service_config))
  (account_id0 region0 : string) (it : Orchestrator.item) : Prop :=
  match it with
  | Orchestrator.ResultItem r =>
      well_formed account_id0 region0 r /\ Orchestrator.in_config (service r) aws = true
  | Orchestrator.UsageItem a rg sv u =>
      a = account_id0 /\ rg = service_region_of sv region0 /\
      Orchestrator.in_config sv aws = true /\ (0 < size u)%nat
  end.

(** The client a step of the limit loop works with and hands on. *)
Definition step_client (creds : option credentials) (region : string)
  (sq_client : ServiceQuotasClient) (entry : string * Orchestrator.service_config)
  : ServiceQuotasClient :=
  let (sv, config) := entry in
  let service_region := service_region_of sv region in
  let sq_client :=
    if Orchestrator.in_list sv Orchestrator.global_services
       && negb (String.eqb region "us-east-1")
    then client_for "us-east-1" creds else sq_client in
  match config with
  | Orchestrator.Discovery discovery_config =>
      if enabled discovery_config then
        if Orchestrator.in_list sv Orchestrator.regional_services
           && negb (String.eqb service_region (client_region sq_client))
        then client_for service_region creds else sq_client
      else sq_client
  | Orchestrator.Static _ => sq_client
  end.

(** The regions an account is collected in. *)
Definition account_regions (w : World) (account_id : string) : list string :=
  match get_regions w account_id with
  | Returns [] => ["us-east-1"]
  | Returns regions => regions
  | Raises _ => []
  end.

End Run.

(** ** main.py: the sequential branch of [collect_quotas], and the choice
    between the two branches

    The branch taken when [USE_CONCURRENT_COLLECTION] is not [true] or
    there is at most one account. It works on the collector directly: usage
    is set as soon as it is collected, and the limit cache is not used. *)

Module Sequential.
Import Orchestrator.

(** [for x in xs: body], where the body updates the variables [acc]. *)
Fixpoint for_fold {A B} (xs : list A) (body : B -> A -> M B) (acc : B) : M B :=
  match xs with
  | [] => ret acc
  | x :: xs' =>
      acc' <- body acc x ;;
      for_fold xs' body acc'
  end.

(** The result recorded for a configured quota: a success carries
    [service_region], a failure the [region] of the loop. *)
Definition result_of_fetch_sequential (sv : string) (quota : QuotaItem)
  (account_id region service_region : string) (r : outcome (option quota_info))
  : QuotaResult :=
  let code := item_quota_code quota in
  let name := item_quota_name quota in
  match r with
  | Returns (Some qi) =>
      if dict_truthy qi
      then success_result sv code name qi account_id service_region
      else failed_result sv code name "empty_response" "API returned empty response"
             account_id region
  | Returns None =>
      failed_result sv code name "empty_response" "API returned empty response"
        account_id region
  | Raises e =>
      failed_result sv code name (failure_reason (exn_str e)) (exn_str e)
        account_id region
  end.

(** One statically configured quota: delay, fetch with retry, record. *)
Definition collect_static_quota_sequential (w : World)
  (sq_client : ServiceQuotasClient) (account_id sv region service_region : string)
  (quota : QuotaItem) : M (list QuotaResult) :=
  sleep PreDelay (1 # 10) ;;;
  r <- fetch_with_retry w sq_client sv (item_quota_code quota) ;;
  ret [result_of_fetch_sequential sv quota account_id region service_region r].

(** One iteration of [for service, service_config in quota_config.aws.items()];
    [sq_client] is the loop-carried client variable. *)
Definition limit_service_step_sequential (w : World)
  (creds : option credentials) (account_id region : string)
  (sq_client : ServiceQuotasClient) (entry : string * service_config)
  : M (ServiceQuotasClient * list QuotaResult) :=
  let (sv, config) := entry in
  let service_region :=
    if in_list sv global_services then "us-east-1" else region in
  let sq_client :=
    if in_list sv global_services && negb (String.eqb region "us-east-1")
    then client_for "us-east-1" creds else sq_client in
  match config with
  | Discovery discovery_config =>
      if enabled discovery_config then
        let sq_client :=
          if in_list sv regional_services
             && negb (String.eqb service_region (client_region sq_client))
          then client_for service_region creds else sq_client in
        discovered_quotas <-
          SageMakerDiscovery.discover_quotas w sq_client discovery_config
            service_region ;;
        rs <- for_each discovered_quotas
                (collect_discovered_quota w sq_client account_id sv service_region) ;;
        ret (sq_client, rs)
      else ret (sq_client, [])
  | Static quotas =>
      if String.eqb sv "cloudfront"
      then ret (sq_client, cloudfront_results account_id service_region quotas)
      else
        rs <- for_each quotas
                (collect_static_quota_sequential w sq_client account_id sv region
                   service_region) ;;
        ret (sq_client, rs)
  end.

Fixpoint limit_loop_sequential (w : World)
  (creds : option credentials) (account_id region : string)
  (sq_client : ServiceQuotasClient) (aws : list (string * service_config))
  : M (list QuotaResult) :=
  match aws with
  | [] => ret []
  | entry :: rest =>
      step <- limit_service_step_sequential w creds account_id region sq_client entry ;;
      rs' <- limit_loop_sequential w creds account_id region (fst step) rest ;;
      ret (snd step ++ rs')
  end.

(** One iteration of the usage loop: the collected usage is set on the
    collector at once. *)
Definition usage_step_sequential (w : World) (usage_collectors : gset string)
  (aws : list (string * service_config)) (creds : option credentials)
  (account_id region : string) (quota_collector : Collector.t) (sv : string)
  : M Collector.t :=
  if in_config sv aws && bool_decide (sv ∈ usage_collectors) then
    let usage_region :=
      if in_list sv global_services then "us-east-1" else region in
    let metrics_region := usage_region in
    emit (EvCollectUsage sv account_id usage_region) ;;;
    match remote_collect_usage w sv account_id usage_region
            (option_map (fun c => (access_key c, secret_key c)) creds) with
    | Returns usage_data =>
        if (0 <? size usage_data)%nat
        then ret (Collector.set_usage_data account_id metrics_region sv usage_data
                    quota_collector)
        else ret quota_collector
    | Raises _ => ret quota_collector
    end
  else ret quota_collector.

(** The body of [for region in regions]; [acc] holds the collector and
    [all_results]. *)
Definition collect_region_sequential (w : World) (usage_collectors : gset string)
  (aws : list (string * service_config)) (account_id : string)
  (creds : option credentials) (collect_limit collect_usage : bool)
  (acc : Collector.t * list QuotaResult) (region : string)
  : M (Collector.t * list QuotaResult) :=
  let (quota_collector, all_results) := acc in
  quota_collector <-
    (if collect_usage
     then for_fold usage_services
            (usage_step_sequential w usage_collectors aws creds account_id region)
            quota_collector
     else ret quota_collector) ;;
  limit_results <-
    (if collect_limit
     then limit_loop_sequential w creds account_id region (client_for region creds) aws
     else ret []) ;;
  ret (quota_collector, all_results ++ limit_results).

(** [for account_id in accounts: regions = region_provider.get_regions(account_id)]:
    the loop has no other statement. It leaves the last account and its
    regions in the two variables ([bound] is what they hold so far, [None]
    while they are unassigned), or ends with the exception of the
    provider. *)
Fixpoint regions_loop (w : World) (accounts : list string)
  (bound : option (string * list string))
  : outcome (option (string * list string)) :=
  match accounts with
  | [] => Returns bound
  | account_id :: rest =>
      match get_regions w account_id with
      | Returns regions => regions_loop w rest (Some (account_id, regions))
      | Raises e => Raises e
      end
  end.

(** How a call of [collect_quotas] ends: it returns, the region provider
    raised in the sequential branch, or [regions] was read while unassigned
    (an [UnboundLocalError], with no account). *)
Inductive cycle_outcome :=
| Completed (quota_collector : Collector.t)
| ProviderRaised (e : exn)
| RegionsUnbound.

Definition collect_quotas_sequential (w : World) (usage_collectors : gset string)
  (aws : list (string * service_config)) (accounts : list string)
  (collect_limit collect_usage : bool) (quota_collector : Collector.t)
  : M cycle_outcome :=
  match regions_loop w accounts None with
  | Raises e => ret (ProviderRaised e)
  | Returns None => ret RegionsUnbound
  | Returns (Some (account_id, regions)) =>
      let regions :=
        match regions with [] => ["us-east-1"] | _ => regions end in
      let creds :=
        match get_credentials w with
        | Some provider =>
            match provider account_id with
            | Returns c => c
            | Raises _ => None
            end
        | None => None
        end in
      acc <- for_fold regions
               (collect_region_sequential w usage_collectors aws account_id creds
                  collect_limit collect_usage)
               (quota_collector, []) ;;
      fun s =>
        let qc :=
          match snd acc with
          | [] => fst acc
          | _ => Collector.collect_all (clock s) (clock s) (snd acc) (fst acc)
          end in
        let qc :=
          if collect_usage && in_config "cloudfront" aws
             && bool_decide ("cloudfront" ∈ usage_collectors)
          then reapply_cloudfront accounts qc else qc in
        (Completed qc, s)
  end.

(** [os.getenv('USE_CONCURRENT_COLLECTION', 'true').lower() == 'true']. *)
Definition use_concurrent (USE_CONCURRENT_COLLECTION : option string) : bool :=
  String.eqb (Py.lower (default "true" USE_CONCURRENT_COLLECTION)) "true".

(** [collect_quotas] with both its branches: the thread pool when
    concurrency is on and there is more than one account, the sequential
    loop otherwise. *)
Definition collect_quotas_whole (w : World) (cache : option QuotaLimitCache.t)
  (usage_collectors : gset string) (aws : list (string * service_config))
  (USE_CONCURRENT_COLLECTION : option string)
  (accounts completion_order : list string) (collect_limit collect_usage : bool)
  (quota_collector : Collector.t) : M cycle_outcome :=
  if use_concurrent USE_CONCURRENT_COLLECTION && (1 <? length accounts)%nat
  then
    qc <- collect_quotas w cache usage_collectors aws accounts completion_order
            collect_limit collect_usage quota_collector ;;
    ret (Completed qc)
  else
    collect_quotas_sequential w usage_collectors aws accounts collect_limit
      collect_usage quota_collector.

End Sequential.

(** ** scheduler/scheduler.py *)

Module Scheduler.

(** *** Names and annotations

    The module binds [threading], [time], [logging] and [Callable] by its
    imports, then [logger] and the class. An annotated assignment
    [target: annotation = value] evaluates its annotation only when it
    stands in a module or class body; inside a function body the annotation
    is not evaluated (Python language reference, annotated assignment
    statements). *)

Inductive scope := ModuleScope | ClassScope | FunctionScope.

Inductive py_error := NameError (name : string).

Inductive result (A : Type) :=
| Ok (a : A)
| Error (e : py_error).
Arguments Ok {A} a.
Arguments Error {A} e.

Definition module_globals : list string :=
  ["threading"; "time"; "logging"; "Callable"; "logger"; "QuotaScheduler"].

(** Looking up the free names of an expression, left to right. *)
Fixpoint resolve_names (names : list string) : result unit :=
  match names with
  | [] => Ok tt
  | n :: rest =>
      if existsb (String.eqb n) module_globals then resolve_names rest
      else Error (NameError n)
  end.

(** What evaluating the annotation of an annotated assignment does in a
    given scope; [names] are the free names of the annotation. *)
Definition annotation (sc : scope) (names : list string) : result unit :=
  match sc with
  | FunctionScope => Ok tt
  | ModuleScope | ClassScope => resolve_names names
  end.

(** *** The scheduler object *)

(** An exception object raised by a callback: whether it is an instance of
    [Exception] (what [except Exception] catches) and its text. *)
Record py_exception := mk_py_exception {
  is_Exception : bool;
  exception_text : string
}.

Inductive cb_outcome :=
| CbReturns
| CbRaises (e : py_exception).

(** A bound callback: what its [n]-th invocation does. *)
Definition Callable : Type := nat -> cb_outcome.

(** A thread handle: the name given to [threading.Thread]. *)
Record Thread := mk_Thread { thread_name : string }.

Record QuotaScheduler := mk_QuotaScheduler {
  collect_limit_func : Callable;
  collect_usage_func : Callable;
  limit_interval : Z;
  usage_interval : Z;
  _running : bool;
  _limit_thread : option Thread;
  _usage_thread : option Thread
}.

(** [QuotaScheduler.__init__]: seven assignments in a function body, the
    last two annotated [Optional[threading.Thread]]. *)
Definition __init__ (collect_limit_func collect_usage_func : Callable)
  (limit_interval usage_interval : Z) : result QuotaScheduler :=
  match annotation FunctionScope ["Optional"; "threading"] with
  | Error e => Error e
  | Ok _ =>
      match annotation FunctionScope ["Optional"; "threading"] with
      | Error e => Error e
      | Ok _ =>
          Ok (mk_QuotaScheduler collect_limit_func collect_usage_func
                limit_interval usage_interval false None None)
      end
  end.

(** [start()]: nothing when already running; otherwise the flag is set and
    the two threads are created and started. *)
Definition start (self : QuotaScheduler) : QuotaScheduler :=
  if _running self then self
  else mk_QuotaScheduler (collect_limit_func self) (collect_usage_func self)
         (limit_interval self) (usage_interval self) true
         (Some (mk_Thread "LimitRefreshThread"))
         (Some (mk_Thread "UsageRefreshThread")).

(** [stop()]: clears the flag; the joins change nothing of the object. *)
Definition stop (self : QuotaScheduler) : QuotaScheduler :=
  if negb (_running self) then self
  else mk_QuotaScheduler (collect_limit_func self) (collect_usage_func self)
         (limit_interval self) (usage_interval self) false
         (_limit_thread self) (_usage_thread self).

Record status := mk_status {
  st_running : bool;
  st_limit_interval : Z;
  st_usage_interval : Z;
  st_limit_thread_alive : bool;
  st_usage_thread_alive : bool
}.

(** [get_status()]; [is_alive] answers [Thread.is_alive()]. *)
Definition get_status (is_alive : Thread -> bool) (self : QuotaScheduler) : status :=
  mk_status (_running self) (limit_interval self) (usage_interval self)
    (match _limit_thread self with Some t => is_alive t | None => false end)
    (match _usage_thread self with Some t => is_alive t | None => false end).

(** *** The timer loops

    [_running] is written by another thread, so each read of it is answered
    by the environment: once by the [while] test and once after the sleep. *)

Record iteration_env := mk_iteration_env {
  running_at_test : bool;
  running_after_sleep : bool
}.

Inductive loop_event :=
| Slept (seconds : Z)
| Invoked (invocation : nat)
| LoggedError (e : py_exception)
| LoopExited
| Escaped (e : py_exception).

(** The events of [n0] further invocations on, for the iterations whose
    environment is listed; the loop is still running when the list is used
    up and no exit or escape happened. *)
Fixpoint refresh_loop (interval : Z) (callback : Callable) (invocation : nat)
  (envs : list iteration_env) : list loop_event :=
  match envs with
  | [] => []
  | env :: rest =>
      if negb (running_at_test env) then [LoopExited]
      else
        Slept interval ::
        if negb (running_after_sleep env) then [LoopExited]
        else
          Invoked invocation ::
          match callback invocation with
          | CbReturns => refresh_loop interval callback (S invocation) rest
          | CbRaises e =>
              if is_Exception e
              then LoggedError e :: refresh_loop interval callback (S invocation) rest
              else [Escaped e]
          end
  end.

Definition _limit_refresh_loop (self : QuotaScheduler) (envs : list iteration_env)
  : list loop_event :=
  refresh_loop (limit_interval self) (collect_limit_func self) 0 envs.

Definition _usage_refresh_loop (self : QuotaScheduler) (envs : list iteration_env)
  : list loop_event :=
  refresh_loop (usage_interval self) (collect_usage_func self) 0 envs.

(** *** Reading a loop *)

(** The events of the cycle that makes invocation [i]. *)
Definition cycle_events (interval : Z) (callback : Callable) (i : nat)
  : list loop_event :=
  Slept interval :: Invoked i ::
  match callback i with
  | CbReturns => []
  | CbRaises e => [LoggedError e]
  end.

(** The events of [k] cycles in a row, the first making invocation [n]. *)
Definition cycles (interval : Z) (callback : Callable) (n k : nat) : list loop_event :=
  flat_map (cycle_events interval callback) (seq n k).

(** The scheduler is running at both reads of the flag. *)
Definition stays_running (env : iteration_env) : Prop :=
  running_at_test env = true /\ running_after_sleep env = true.

(** The invocation numbers and the sleeps of a loop's events, in order. *)
Definition invocations (t : list loop_event) : list nat :=
  flat_map (fun e => match e with Invoked i => [i] | _ => [] end) t.

Definition sleeps (t : list loop_event) : list Z :=
  flat_map (fun e => match e with Slept d => [d] | _ => [] end) t.

End Scheduler.

(** ** provider/discovery/active_region_discoverer.py *)

Module ActiveRegionDiscoverer.

(** The JSON object of one account's cache file. *)
Record cache_data := mk_cache_data {
  cd_timestamp : option Q;
  cd_account_id : option string;
  cd_regions : option (list string)
}.

Inductive file :=
| Unreadable
| Json (d : cache_data).

(** The discoverer object: only its TTL matters here. *)
Record t := mk { cache_ttl : Z }.

(** What lies outside: the rows of the CMDB region query (or its failure),
    the answer of [describe_instances] per region and key pair (the number
    of instances of each reservation), the provider's account credentials in
    dict order, and the successive readings of the clock. *)
Record Env := mk_Env {
  db_region_rows : outcome (list (option string));
  describe_instances : string -> string -> string -> outcome (list nat);
  account_credentials : list (string * credentials);
  time_at : nat -> Q
}.

Inductive event := EvProbe (account_id region : string).

(** The cache directory (one file per account id), the probes made, and the
    number of clock readings consumed. *)
Record state := mk_state {
  files : gmap string file;
  probes : list event;
  clock_reads : nat
}.

Definition M (A : Type) : Type := state -> A * state.

(** [time.time()]. *)
Definition time_time (env : Env) : M Q :=
  fun s => (time_at env (clock_reads s),
            mk_state (files s) (probes s) (S (clock_reads s))).

(** [get_region_candidates()]: the non-empty regions of the rows, or the
    empty list when the query fails. *)
Definition get_region_candidates (env : Env) : list string :=
  match db_region_rows env with
  | Returns rows =>
      flat_map (fun row => match row with
                           | Some r => if str_truthy r then [r] else []
                           | None => []
                           end) rows
  | Raises _ => []
  end.

(** The counting loop of [probe_ec2_usage], with its early [break]. *)
Fixpoint count_instances (reservations : list nat) (instance_count : nat) : nat :=
  match reservations with
  | [] => instance_count
  | instances :: rest =>
      let instance_count := (instance_count + instances)%nat in
      if (0 <? instance_count)%nat then instance_count
      else count_instances rest instance_count
  end.

(** [probe_ec2_usage(region, access_key, secret_key)]: every exception is
    answered by [False]. *)
Definition probe_ec2_usage (env : Env) (region ak sk : string) : bool :=
  match describe_instances env region ak sk with
  | Returns reservations => (0 <? count_instances reservations 0)%nat
  | Raises _ => false
  end.

(** [_load_account_cache(account_id)]. *)
Definition _load_account_cache (self : t) (env : Env) (account_id : string)
  : M (option (list string)) :=
  fun s =>
    match files s !! account_id with
    | None => (None, s)
    | Some Unreadable => (None, s)
    | Some (Json d) =>
        let cache_time := default 0%Q (cd_timestamp d) in
        let (now, s') := time_time env s in
        if Qgtb (now - cache_time)%Q (inject_Z (cache_ttl self)) then (None, s')
        else (Some (default [] (cd_regions d)), s')
    end.

(** [_save_account_cache(account_id, regions)]. *)
Definition _save_account_cache (env : Env) (account_id : string)
  (regions : list string) : M unit :=
  fun s =>
    let (now, s') := time_time env s in
    (tt, mk_state
           (<[account_id := Json (mk_cache_data (Some now) (Some account_id)
                                    (Some regions))]> (files s'))
           (probes s') (clock_reads s')).

(** The probing loop over the candidate regions for one account. *)
Fixpoint probe_regions (env : Env) (account_id ak sk : string)
  (region_candidates : list string) : M (list string) :=
  match region_candidates with
  | [] => fun s => ([], s)
  | region :: rest =>
      fun s =>
        let s1 := mk_state (files s) (probes s ++ [EvProbe account_id region])
                    (clock_reads s) in
        let used := probe_ec2_usage env region ak sk in
        let (used_rest, s2) := probe_regions env account_id ak sk rest s1 in
        (if used then region :: used_rest else used_rest, s2)
  end.

(** One iteration of the loop over the accounts; [result] is the dict built
    so far. *)
Definition discover_account (self : t) (env : Env) (use_cache force_refresh : bool)
  (region_candidates : list string) (result : gmap string (list string))
  (entry : string * credentials) : M (gmap string (list string)) :=
  let (account_id, creds) := entry in
  match access_key creds, secret_key creds with
  | Some ak, Some sk =>
      if str_truthy ak && str_truthy sk then
        fun s =>
          let (cached_regions, s1) :=
            if use_cache && negb force_refresh
            then _load_account_cache self env account_id s
            else (None, s) in
          match cached_regions with
          | Some regions => (<[account_id := regions]> result, s1)
          | None =>
              let (used_regions, s2) :=
                probe_regions env account_id ak sk region_candidates s1 in
              let result := <[account_id := used_regions]> result in
              if use_cache
              then (result, snd (_save_account_cache env account_id used_regions s2))
              else (result, s2)
          end
      else fun s => (result, s)
  | _, _ => fun s => (result, s)
  end.

Fixpoint discover_accounts (self : t) (env : Env) (use_cache force_refresh : bool)
  (region_candidates : list string) (result : gmap string (list string))
  (entries : list (string * credentials)) : M (gmap string (list string)) :=
  match entries with
  | [] => fun s => (result, s)
  | entry :: rest =>
      fun s =>
        let (result', s') :=
          discover_account self env use_cache force_refresh region_candidates
            result entry s in
        discover_accounts self env use_cache force_refresh region_candidates
          result' rest s'
  end.

(** [discover_ec2_used_regions_from_provider(account_provider, use_cache,
    force_refresh)]. *)
Definition discover_ec2_used_regions_from_provider (self : t) (env : Env)
  (use_cache force_refresh : bool) : M (gmap string (list string)) :=
  let region_candidates := get_region_candidates env in
  match region_candidates with
  | [] => fun s => (∅, s)
  | _ =>
      match account_credentials env with
      | [] => fun s => (∅, s)
      | entries =>
          discover_accounts self env use_cache force_refresh region_candidates
            ∅ entries
      end
  end.

(** [discover_ec2_used_regions(account_credentials)]: the variant without a
    cache; one iteration of its loop over the accounts. *)
Definition probe_account (env : Env) (region_candidates : list string)
  (result : gmap string (list string)) (entry : string * credentials)
  : M (gmap string (list string)) :=
  let (account_id, creds) := entry in
  match access_key creds, secret_key creds with
  | Some ak, Some sk =>
      if str_truthy ak && str_truthy sk then
        fun s =>
          let (used_regions, s1) :=
            probe_regions env account_id ak sk region_candidates s in
          (<[account_id := used_regions]> result, s1)
      else fun s => (result, s)
  | _, _ => fun s => (result, s)
  end.

Fixpoint probe_accounts (env : Env) (region_candidates : list string)
  (result : gmap string (list string)) (entries : list (string * credentials))
  : M (gmap string (list string)) :=
  match entries with
  | [] => fun s => (result, s)
  | entry :: rest =>
      fun s =>
        let (result', s') := probe_account env region_candidates result entry s in
        probe_accounts env region_candidates result' rest s'
  end.

Definition discover_ec2_used_regions (env : Env)
  (account_credentials0 : list (string * credentials))
  : M (gmap string (list string)) :=
  let region_candidates := get_region_candidates env in
  match region_candidates with
  | [] => fun s => (∅, s)
  | _ => probe_accounts env region_candidates ∅ account_credentials0
  end.

(** force_refresh_all_regions.py: the refresh script calls the discovery
    with [use_cache=False, force_refresh=True]. *)
Definition force_refresh_all_regions (self : t) (env : Env)
  : M (gmap string (list string)) :=
  discover_ec2_used_regions_from_provider self env false true.

(** *** Reading a run *)

(** The probes of a trace made for one account. *)
Definition probes_for (account_id : string) (evs : list event) : list event :=
  List.filter (fun e => match e with EvProbe a _ => String.eqb a account_id end) evs.

(** Credentials with both keys present and non-empty. *)
Definition complete (creds : credentials) : Prop :=
  exists ak sk, access_key creds = Some ak /\ secret_key creds = Some sk /\
                str_truthy ak = true /\ str_truthy sk = true.

(** The cache file of account [a] was written with [regions] at one of the
    clock readings made since reading number [n0]. *)
Definition written_since (env : Env) (a : string) (n0 : nat) (s : state)
  (regions : list string) : Prop :=
  exists m : nat, (n0 <= m < clock_reads s)%nat /\
    files s !! a = Some (Json (mk_cache_data (Some (time_at env m)) (Some a)
                                 (Some regions))).


(** The key pair of credentials that are complete. *)
Definition keys_of (creds : credentials) : option (string * string) :=
  match access_key creds, secret_key creds with
  | Some ak, Some sk => if str_truthy ak && str_truthy sk then Some (ak, sk) else None
  | _, _ => None
  end.

(** The candidate regions in which the probe with a key pair finds
    instances. *)
Definition probed_regions (env : Env) (cands : list string)
  (keys : string * string) : list string :=
  List.filter (fun r => probe_ec2_usage env r (fst keys) (snd keys)) cands.

(** What probing one account adds to the result and to the probes. *)
Definition fresh_result (env : Env) (cands : list string)
  (result : gmap string (list string)) (entry : string * credentials)
  : gmap string (list string) :=
  match keys_of (snd entry) with
  | Some keys => <[fst entry := probed_regions env cands keys]> result
  | None => result
  end.

Definition fresh_probes (cands : list string) (entry : string * credentials)
  : list event :=
  match keys_of (snd entry) with
  | Some _ => map (EvProbe (fst entry)) cands
  | None => []
  end.

(** The cache file of an account gives nothing from reading [n0] on: it is
    missing, unreadable, or older than the TTL at every later reading. *)
Definition stale_from (self : t) (env : Env) (n0 : nat) (f : option file) : Prop :=
  match f with
  | None => True
  | Some Unreadable => True
  | Some (Json d) =>
      forall n, (n0 <= n)%nat ->
        (inject_Z (cache_ttl self)
         < time_at env n - default 0%Q (cd_timestamp d))%Q
  end.

End ActiveRegionDiscoverer.

(** ** provider/discovery/credential_provider.py: CMDBCredentialProvider *)

Module CMDBCredentialProvider.

(** What lies outside: the answer of the [n]-th call of
    [get_account_credentials] (a dict from account id to credentials dict,
    or an exception), and the successive readings of the clock. *)
Record Env := mk_Env {
  account_credentials_at : nat -> outcome (gmap string credentials);
  time_at : nat -> Q
}.

(** The provider: its cache from account id to credentials and expiry; with
    it the number of database calls made and of clock readings consumed. *)
Record t := mk {
  _cache : gmap string (credentials * Q);
  db_calls : nat;
  clock_reads : nat
}.

Definition cache_ttl : Z := 3600.

(** [CMDBCredentialProvider(cmdb_account_provider)]. *)
Definition init : t := mk ∅ 0 0.

(** Truth value of a credentials dict: it has a key. *)
Definition dict_nonempty (c : credentials) : bool :=
  match access_key c, secret_key c with
  | None, None => false
  | _, _ => true
  end.

(** The second half of [get_credentials]: read from the database, cache
    what was found. *)
Definition fetch_credentials (env : Env) (account_id : string) (self : t)
  : option credentials * t :=
  let self1 := mk (_cache self) (S (db_calls self)) (clock_reads self) in
  match account_credentials_at env (db_calls self) with
  | Returns all_credentials =>
      match all_credentials !! account_id with
      | Some creds =>
          if dict_nonempty creds then
            let expiration_time :=
              (time_at env (clock_reads self1) + inject_Z cache_ttl)%Q in
            (Some creds,
             mk (<[account_id := (creds, expiration_time)]> (_cache self1))
                (db_calls self1) (S (clock_reads self1)))
          else (None, self1)
      | None => (None, self1)
      end
  | Raises _ => (None, self1)
  end.

(** [get_credentials(account_id)]. *)
Definition get_credentials (env : Env) (account_id : string) (self : t)
  : option credentials * t :=
  match _cache self !! account_id with
  | Some (creds, expiration_time) =>
      let now := time_at env (clock_reads self) in
      let self1 := mk (_cache self) (db_calls self) (S (clock_reads self)) in
      if Qgtb expiration_time now
      then (Some creds, self1)
      else fetch_credentials env account_id
             (mk (delete account_id (_cache self1)) (db_calls self1)
                 (clock_reads self1))
  | None => fetch_credentials env account_id self
  end.

(** [clear_cache(account_id)]. *)
Definition clear_cache (account_id : option string) (self : t) : t :=
  match account_id with
  | Some (String c rest) =>
      mk (delete (String c rest) (_cache self)) (db_calls self) (clock_reads self)
  | _ => mk ∅ (db_calls self) (clock_reads self)
  end.

(** *** Reading the database *)

(** What the database call number [n] holds for an account: its
    credentials, when the call returns and the entry is a non-empty dict. *)
Definition db_answer (env : Env) (n : nat) (account_id : string)
  : option credentials :=
  match account_credentials_at env n with
  | Returns all_credentials =>
      match all_credentials !! account_id with
      | Some creds => if dict_nonempty creds then Some creds else None
      | None => None
      end
  | Raises _ => None
  end.

End CMDBCredentialProvider.

(** ** provider/discovery/cmdb_provider.py: CMDBRegionProvider *)

Module CMDBRegionProvider.

(** The provider: the discoverer it was given together with an account
    provider (unless one of them is missing), and its dict from account id
    to regions. *)
Record t := mk {
  region_discoverer : option ActiveRegionDiscoverer.t;
  _ec2_regions_cache : gmap string (list string)
}.

(** [CMDBRegionProvider(account_provider, region_discoverer,
    active_regions_map)]. *)
Definition init (region_discoverer0 : option ActiveRegionDiscoverer.t)
  (active_regions_map : option (gmap string (list string))) : t :=
  mk region_discoverer0
     match active_regions_map with
     | Some m => m
     | None => ∅
     end.

(** [_load_ec2_regions(account_id)]; the discoverer's state is threaded. *)
Definition _load_ec2_regions (self : t) (env : ActiveRegionDiscoverer.Env)
  (account_id : string) (s : ActiveRegionDiscoverer.state)
  : list string * t * ActiveRegionDiscoverer.state :=
  match _ec2_regions_cache self !! account_id with
  | Some regions => (regions, self, s)
  | None =>
      match region_discoverer self with
      | None => ([], self, s)
      | Some discoverer =>
          let (ec2_regions_map, s') :=
            ActiveRegionDiscoverer.discover_ec2_used_regions_from_provider
              discoverer env true false s in
          let regions := default [] (ec2_regions_map !! account_id) in
          (regions,
           mk (region_discoverer self)
              (<[account_id := regions]> (_ec2_regions_cache self)),
           s')
      end
  end.

(** [get_regions(account_id)]. *)
Definition get_regions (self : t) (env : ActiveRegionDiscoverer.Env)
  (account_id : option string) (s : ActiveRegionDiscoverer.state)
  : list string * t * ActiveRegionDiscoverer.state :=
  match account_id with
  | Some (String c rest) => _load_ec2_regions self env (String c rest) s
  | _ => ([], self, s)
  end.

End CMDBRegionProvider.

(** ** Concrete inputs *)

Module Examples.

(** A throttling error as botocore raises it. *)
Definition throttle : exn :=
  mk_exn ClientError "TooManyRequestsException"
    "An error occurred (TooManyRequestsException) when calling the GetServiceQuota operation: Rate exceeded".

Definition quota_5 : api_quota :=
  mk_api_quota (Some "L-1216C47A") (Some "Running On-Demand Standard instances")
    (Some 5%float) (Some "None") (Some true) (Some false).

(** A world in which every limit fetch is throttled. *)
Definition w_throttle : World :=
  mk_world (fun _ _ _ _ => Raises throttle) (fun _ _ => Returns [])
    (fun _ _ _ _ => Returns ∅) (fun _ => Returns []) None.

(** A world in which every limit fetch succeeds, CloudFront reports fifty
    distributions in use, and no account has an active region. *)
Definition w_ok : World :=
  mk_world (fun _ _ _ _ => Returns (Some quota_5)) (fun _ _ => Returns [])
    (fun sv _ _ _ =>
       if String.eqb sv "cloudfront" then Returns {["L-24B04930" := 50%float]}
       else Returns ∅)
    (fun _ => Returns []) None.

Definition s0 : state := mk_state 0 [] 0%Q ∅.

Definition default_client : ServiceQuotasClient := client_for "us-east-1" None.

Definition ec2_quota : QuotaItem :=
  mk_QuotaItem "L-1216C47A" "Running On-Demand Standard instances"
    "On-Demand instances" "high" 86400 3600.

Definition route53_quota : QuotaItem :=
  mk_QuotaItem "L-4EA4796A" "Hosted zones" "Hosted zones per account" "high"
    86400 3600.

Definition cloudfront_quota : QuotaItem :=
  mk_QuotaItem "L-24B04930" "Web distributions per AWS account"
    "Distributions" "high" 86400 3600.

Definition aws_cloudfront : list (string * Orchestrator.service_config) :=
  [("cloudfront", Orchestrator.Static [cloudfront_quota])].

Definition aws_route53_ec2 : list (string * Orchestrator.service_config) :=
  [("route53", Orchestrator.Static [route53_quota]);
   ("ec2", Orchestrator.Static [ec2_quota])].

(** Cache inputs. *)
Definition limit_cache : QuotaLimitCache.t := QuotaLimitCache.mk_cache 86400 false.

Definition quota_data : quota_info :=
  mk_quota_info (Some "L-1216C47A") (Some "Running On-Demand Standard instances")
    (Some 5%float) (Some "None") (Some true) (Some false) None None.

(** Discovery inputs. *)
Definition notebook_rule : match_rule := mk_rule (Some ["notebook"; "usage"]).

Definition notebook_config : DiscoveryConfig :=
  mk_DiscoveryConfig true [notebook_rule] "high".

(** A success result with limit 200 and a stored usage of 50. *)
Definition result_200 : QuotaResult :=
  mk_QuotaResult "cloudfront" "L-24B04930" "Web distributions per AWS account"
    SUCCESS "111" "us-east-1" None
    (Some (mk_quota_info (Some "L-24B04930")
             (Some "Web distributions per AWS account") (Some 200%float)
             None None None (Some "111") (Some "us-east-1")))
    None.

Definition skipped_result : QuotaResult :=
  mk_QuotaResult "cloudfront" "L-24B04930" "Web distributions per AWS account"
    SKIPPED "111" "us-east-1" (Some "not_in_service_quotas") None None.

Definition usage_50 : gmap string float := {["L-24B04930" := 50%float]}.

(** Scheduler inputs: a limit callback whose first invocation raises. *)
Definition failing_once : Scheduler.Callable :=
  fun i => match i with
           | O => Scheduler.CbRaises (Scheduler.mk_py_exception true "boom")
           | S _ => Scheduler.CbReturns
           end.

Definition always_ok : Scheduler.Callable := fun _ => Scheduler.CbReturns.

Definition scheduler : Scheduler.QuotaScheduler :=
  Scheduler.mk_QuotaScheduler failing_once always_ok 86400 3600 true
    (Some (Scheduler.mk_Thread "LimitRefreshThread"))
    (Some (Scheduler.mk_Thread "UsageRefreshThread")).

Definition running : Scheduler.iteration_env := Scheduler.mk_iteration_env true true.

(** Region discovery inputs: one account with instances in one of two
    candidate regions, and a clock that gains a second per reading, an hour
    at most. *)
Definition keys : credentials := mk_credentials (Some "AKIAEXAMPLE") (Some "secret").

Definition region_env : ActiveRegionDiscoverer.Env :=
  ActiveRegionDiscoverer.mk_Env
    (Returns [Some "eu-west-1"; Some "us-east-1"])
    (fun region _ _ => if String.eqb region "us-east-1" then Returns [2%nat] else Returns [])
    [("111", keys)]
    (fun n => inject_Z (1700000000 + Z.min (Z.of_nat n) 3600)).

Definition discoverer : ActiveRegionDiscoverer.t := ActiveRegionDiscoverer.mk 86400.

Definition region_s0 : ActiveRegionDiscoverer.state :=
  ActiveRegionDiscoverer.mk_state ∅ [] 0.




(** Credential provider inputs: a database that knows account 111, one
    that knows no account, and a clock that gains ten seconds per reading. *)
Definition credential_env : CMDBCredentialProvider.Env :=
  CMDBCredentialProvider.mk_Env (fun _ => Returns {["111" := keys]})
    (fun n => inject_Z (10 * Z.of_nat n)).

Definition empty_credential_env : CMDBCredentialProvider.Env :=
  CMDBCredentialProvider.mk_Env (fun _ => Returns ∅)
    (fun n => inject_Z (10 * Z.of_nat n)).

(** A region provider with a discoverer and nothing remembered. *)
Definition region_provider : CMDBRegionProvider.t :=
  CMDBRegionProvider.init (Some discoverer) None.

End Examples.

(** * Properties *)

Lemma string_app_cons (a : ascii) (p q : string) :
  String a p +:+ q = String a (p +:+ q).
Proof. reflexivity. Qed.

Lemma string_app_nil (q : string) : "" +:+ q = q.
Proof. reflexivity. Qed.

Lemma startswith_spec (p s : string) :
  Py.startswith p s = true <-> exists post, s = p +:+ post.
Proof.
  revert s. induction p as [|a p IH]; intros s; simpl.
  - split; [intros _; exists s; reflexivity | reflexivity].
  - destruct s as [|b s].
    + split; [discriminate | intros [post H]; discriminate].
    + destruct (Ascii.eqb_spec a b) as [->|Hne].
      * rewrite IH. split; intros [post H]; exists post.
        -- rewrite string_app_cons. now rewrite H.
        -- rewrite string_app_cons in H. now inversion H.
      * split; [discriminate | intros [post H]].
        rewrite string_app_cons in H. congruence.
Qed.

Lemma str_in_spec (sub s : string) :
  Py.str_in sub s = true <-> Py.is_substring sub s.
Proof.
  unfold Py.is_substring. induction s as [|c s IH]; simpl.
  - destruct (Py.startswith sub "") eqn:E.
    + split; [intros _|reflexivity].
      apply startswith_spec in E as [post H]. exists "", post. exact H.
    + split; [discriminate|]. intros (pre & post & H).
      destruct pre as [|c' pre]; [|rewrite string_app_cons in H; discriminate].
      rewrite string_app_nil in H.
      assert (Py.startswith sub "" = true) as E'
        by (apply startswith_spec; exists post; exact H).
      congruence.
  - destruct (Py.startswith sub (String c s)) eqn:E.
    + split; [intros _|reflexivity].
      apply startswith_spec in E as [post H]. exists "", post. exact H.
    + rewrite IH. split.
      * intros (pre & post & H). exists (String c pre), post.
        rewrite string_app_cons. now rewrite H.
      * intros (pre & post & H). destruct pre as [|c' pre].
        -- rewrite string_app_nil in H.
           assert (Py.startswith sub (String c s) = true) as E'
             by (apply startswith_spec; exists post; exact H).
           congruence.
        -- rewrite string_app_cons in H. inversion H; subst.
           exists pre, post. reflexivity.
Qed.

(** ** Clock comparisons *)

Lemma Qgtb_true (x y : Q) : Qgtb x y = true <-> (y < x)%Q.
Proof.
  unfold Qgtb. rewrite negb_true_iff. split.
  - intros H. apply Qnot_le_lt. intros Hle. apply Qle_bool_iff in Hle. congruence.
  - intros H. destruct (Qle_bool x y) eqn:E; [|reflexivity].
    apply Qle_bool_iff in E. exfalso. exact (Qlt_not_le _ _ H E).
Qed.

Lemma Qgtb_false (x y : Q) : Qgtb x y = false <-> (x <= y)%Q.
Proof.
  unfold Qgtb. rewrite negb_false_iff. apply Qle_bool_iff.
Qed.


(** ** The caches *)

Lemma memory_get_live {V : Type} (c : gmap string (V * Q)) (k : string) (v : V)
  (ttl : Z) (set_time now : Q) :
  (now <= set_time + inject_Z ttl)%Q ->
  MemoryCache.get now k (MemoryCache.set set_time k v ttl c)
  = (Some v, MemoryCache.set set_time k v ttl c).
Proof.
  intros H. unfold MemoryCache.get, MemoryCache.set. rewrite lookup_insert_eq.
  apply Qgtb_false in H. now rewrite H.
Qed.

Lemma memory_get_expired {V : Type} (c : gmap string (V * Q)) (k : string) (v : V)
  (ttl : Z) (set_time now : Q) :
  (set_time + inject_Z ttl < now)%Q ->
  MemoryCache.get now k (MemoryCache.set set_time k v ttl c)
  = (None, delete k (MemoryCache.set set_time k v ttl c)).
Proof.
  intros H. unfold MemoryCache.get, MemoryCache.set. rewrite lookup_insert_eq.
  apply Qgtb_true in H. now rewrite H.
Qed.

Lemma limit_get_live (qc : QuotaLimitCache.t)
  (fs : gmap (string * string * string) QuotaLimitCache.file)
  (account_id region service quota_code : string) (quota_data : quota_info)
  (set_time now : Q) :
  dict_truthy quota_data = true ->
  (now <= set_time + inject_Z (QuotaLimitCache.cache_ttl qc))%Q ->
  QuotaLimitCache.get qc now account_id region service quota_code
    (QuotaLimitCache.set qc set_time account_id region service quota_code quota_data fs)
  = (Some quota_data,
     QuotaLimitCache.set qc set_time account_id region service quota_code quota_data fs).
Proof.
  intros Ht H. unfold QuotaLimitCache.get, QuotaLimitCache.set.
  rewrite lookup_insert_eq.
  cbn [QuotaLimitCache.cd_timestamp QuotaLimitCache.cd_quotas default from_option id].
  assert (Qgtb (now - set_time) (inject_Z (QuotaLimitCache.cache_ttl qc)) = false) as ->
    by (apply Qgtb_false; lra).
  rewrite lookup_insert_eq. now rewrite Ht.
Qed.

Lemma limit_get_expired (qc : QuotaLimitCache.t)
  (fs : gmap (string * string * string) QuotaLimitCache.file)
  (account_id region service quota_code : string) (quota_data : quota_info)
  (set_time now : Q) :
  (set_time + inject_Z (QuotaLimitCache.cache_ttl qc) < now)%Q ->
  QuotaLimitCache.get qc now account_id region service quota_code
    (QuotaLimitCache.set qc set_time account_id region service quota_code quota_data fs)
  = (None,
     QuotaLimitCache.set qc set_time account_id region service quota_code quota_data fs).
Proof.
  intros H. unfold QuotaLimitCache.get, QuotaLimitCache.set.
  rewrite lookup_insert_eq.
  cbn [QuotaLimitCache.cd_timestamp QuotaLimitCache.cd_quotas default from_option id].
  assert (Qgtb (now - set_time) (inject_Z (QuotaLimitCache.cache_ttl qc)) = true) as ->
    by (apply Qgtb_true; lra).
  reflexivity.
Qed.

Lemma limit_set_keeps_file (qc : QuotaLimitCache.t)
  (fs : gmap (string * string * string) QuotaLimitCache.file)
  (account_id region service quota_code : string) (quota_data : quota_info)
  (set_time : Q) :
  is_Some (QuotaLimitCache.set qc set_time account_id region service quota_code
             quota_data fs !! (account_id, region, service)).
Proof. unfold QuotaLimitCache.set. rewrite lookup_insert_eq. eauto. Qed.

(** C5 (as amended). In both caches a [get] that follows a [set] returns
    the value while [now <= set_time + ttl] and nothing once
    [set_time + ttl < now], without any delete; for the file cache the TTL
    is the cache's own and the value is a non-empty dict. [MemoryCache.get]
    removes the expired entry; [QuotaLimitCache.get] leaves the expired
    file in place. *)
Theorem cache_ttl_semantics {V : Type} (c : gmap string (V * Q)) (k : string) (v : V)
  (ttl : Z) (set_time now : Q)
  (qc : QuotaLimitCache.t) (fs : gmap (string * string * string) QuotaLimitCache.file)
  (account_id region service quota_code : string) (quota_data : quota_info) :
  ((now <= set_time + inject_Z ttl)%Q ->
   MemoryCache.get now k (MemoryCache.set set_time k v ttl c)
   = (Some v, MemoryCache.set set_time k v ttl c)) /\
  ((set_time + inject_Z ttl < now)%Q ->
   MemoryCache.get now k (MemoryCache.set set_time k v ttl c)
   = (None, delete k (MemoryCache.set set_time k v ttl c)) /\
   delete k (MemoryCache.set set_time k v ttl c) !! k = None) /\
  (dict_truthy quota_data = true ->
   (now <= set_time + inject_Z (QuotaLimitCache.cache_ttl qc))%Q ->
   QuotaLimitCache.get qc now account_id region service quota_code
     (QuotaLimitCache.set qc set_time account_id region service quota_code quota_data fs)
   = (Some quota_data,
      QuotaLimitCache.set qc set_time account_id region service quota_code quota_data fs)) /\
  ((set_time + inject_Z (QuotaLimitCache.cache_ttl qc) < now)%Q ->
   QuotaLimitCache.get qc now account_id region service quota_code
     (QuotaLimitCache.set qc set_time account_id region service quota_code quota_data fs)
   = (None,
      QuotaLimitCache.set qc set_time account_id region service quota_code quota_data fs) /\
   is_Some (QuotaLimitCache.set qc set_time account_id region service quota_code
              quota_data fs !! (account_id, region, service))).
Proof.
  split; [|split; [|split]].
  - apply memory_get_live.
  - intros H. split; [now apply memory_get_expired|apply lookup_delete_eq].
  - apply limit_get_live.
  - intros H. split; [now apply limit_get_expired|apply limit_set_keeps_file].
Qed.

(** At the instant [set_time + ttl] the entry is still returned, and an
    expired file of the limit cache is not removed by the read. *)
Lemma cache_boundary_counterexample :
  ((1060 >= 1000 + inject_Z 60)%Q /\
   fst (MemoryCache.get 1060%Q "k" (MemoryCache.set 1000%Q "k" 7%nat 60 ∅)) = Some 7%nat) /\
  ((90000 >= 0 + inject_Z (QuotaLimitCache.cache_ttl Examples.limit_cache))%Q /\
   fst (QuotaLimitCache.get Examples.limit_cache 90000%Q "111" "us-east-1" "ec2" "L-1216C47A"
          (QuotaLimitCache.set Examples.limit_cache 0%Q "111" "us-east-1" "ec2" "L-1216C47A"
             Examples.quota_data ∅)) = None /\
   is_Some (snd (QuotaLimitCache.get Examples.limit_cache 90000%Q "111" "us-east-1" "ec2"
                   "L-1216C47A"
                   (QuotaLimitCache.set Examples.limit_cache 0%Q "111" "us-east-1" "ec2"
                      "L-1216C47A" Examples.quota_data ∅))
            !! ("111", "us-east-1", "ec2"))).
Proof.
  split; split.
  - vm_compute. discriminate.
  - rewrite memory_get_live; [reflexivity|]. vm_compute. discriminate.
  - vm_compute. discriminate.
  - rewrite limit_get_expired by (vm_compute; reflexivity).
    split; [reflexivity|apply limit_set_keeps_file].
Qed.


(** ** Quota discovery *)

Section Discovery.
Import SageMakerDiscovery.

Lemma all_keywords_in_spec (keywords : list string) (name_lower : string) :
  all_keywords_in keywords name_lower = true <->
  forall kw, In kw keywords -> Py.is_substring (Py.lower kw) name_lower.
Proof.
  unfold all_keywords_in. rewrite forallb_forall.
  split; intros H kw Hin; apply str_in_spec; auto.
Qed.

Lemma matches_rules_loop_spec (rules : list match_rule) (name_lower : string) :
  matches_rules_loop rules name_lower = true <->
  exists rule keywords,
    In rule rules /\ name_contains rule = Some keywords /\
    forall kw, In kw keywords -> Py.is_substring (Py.lower kw) name_lower.
Proof.
  induction rules as [|rule rest IH]; simpl.
  - split; [discriminate|]. intros (r & k & [] & _).
  - destruct (name_contains rule) as [keywords|] eqn:E.
    + destruct (all_keywords_in keywords name_lower) eqn:A.
      * split; [intros _|reflexivity]. exists rule, keywords.
        split; [now left|]. split; [exact E|]. now apply all_keywords_in_spec.
      * rewrite IH. split.
        -- intros (r & k & Hin & Hk & Hall). exists r, k. auto.
        -- intros (r & k & [->|Hin] & Hk & Hall).
           ++ rewrite E in Hk. inversion Hk; subst.
              apply all_keywords_in_spec in Hall. congruence.
           ++ exists r, k. auto.
    + rewrite IH. split.
      * intros (r & k & Hin & Hk & Hall). exists r, k. auto.
      * intros (r & k & [->|Hin] & Hk & Hall); [congruence|]. exists r, k. auto.
Qed.

(** C9. Discovery keeps a catalog entry exactly when some rule has all the
    keywords of its [name_contains] list occurring, case-insensitively, in
    the quota name; entries matching no rule are left out. The rule
    [notebook, usage] matches "Notebook instance usage" and not "Notebook
    instance count". [discover_quotas] returns the kept entries of the
    listed catalog, and nothing when the listing fails. *)
Theorem discovery_matching (config : DiscoveryConfig) (catalog : list catalog_entry)
  (item : QuotaItem) :
  (In item (match_catalog config catalog) <->
   exists quota : catalog_entry,
     In quota catalog /\ item = item_of config quota /\
     exists (rule : match_rule) (keywords : list string),
       In rule (match_rules config) /\ name_contains rule = Some keywords /\
       forall kw : string, In kw keywords ->
         Py.is_substring (Py.lower kw) (Py.lower (entry_quota_name quota))) /\
  _matches_rules Examples.notebook_config "Notebook instance usage" = true /\
  _matches_rules Examples.notebook_config "Notebook instance count" = false /\
  (forall (w : World) (client : ServiceQuotasClient) (region : string) (s : state),
     fst (discover_quotas w client config region s)
     = match fst (Client.list_service_quotas w client "sagemaker" s) with
       | Returns all_quotas => match_catalog config all_quotas
       | Raises _ => []
       end).
Proof.
  split; [|split; [reflexivity|split; [reflexivity|]]].
  - induction catalog as [|quota rest IH]; simpl.
    + split; [intros []|intros (q & [] & _)].
    + destruct (_matches_rules config (entry_quota_name quota)) eqn:M.
      * simpl. rewrite IH. split.
        -- intros [<-|(q & Hin & Hq)].
           ++ exists quota. split; [now left|]. split; [reflexivity|].
              now apply matches_rules_loop_spec.
           ++ exists q. split; [now right|exact Hq].
        -- intros (q & [->|Hin] & -> & Hq); [now left|right].
           exists q. auto.
      * rewrite IH. split.
        -- intros (q & Hin & Hq). exists q. split; [now right|exact Hq].
        -- intros (q & [->|Hin] & -> & Hq).
           ++ apply matches_rules_loop_spec in Hq. unfold _matches_rules in M. congruence.
           ++ exists q. auto.
  - intros w client region s. unfold discover_quotas, bind, ret.
    destruct (Client.list_service_quotas w client "sagemaker" s) as [[r|e] s']; reflexivity.
Qed.

End Discovery.

(** ** The aggregator *)

Section Aggregation.
Import Collector.

(** Folding a step that keeps, or sets up, a property. *)

Lemma fold_left_preserves {A B : Type} (P : A -> Prop) (f : A -> B -> A)
  (l : list B) (a : A) :
  (forall a b, P a -> P (f a b)) -> P a -> P (fold_left f l a).
Proof.
  intros Hstep. revert a. induction l as [|b l IH]; intros a Ha; simpl; auto.
Qed.

Lemma fold_left_establishes {A B : Type} (P : A -> Prop) (f : A -> B -> A)
  (l : list B) (a : A) (b : B) :
  (forall a b, P a -> P (f a b)) -> (forall a, P (f a b)) -> In b l ->
  P (fold_left f l a).
Proof.
  intros Hstep Hb. revert a. induction l as [|x l IH]; intros a Hin; simpl.
  - destruct Hin.
  - destruct Hin as [->|Hin].
    + apply fold_left_preserves; auto.
    + apply IH; auto.
Qed.

Lemma fold_left_invariant_in {A B : Type} (P : A -> Prop) (f : A -> B -> A)
  (l : list B) (a : A) :
  (forall a b, In b l -> P a -> P (f a b)) -> P a -> P (fold_left f l a).
Proof.
  revert a. induction l as [|b l IH]; intros a Hstep Ha; simpl; auto.
  apply IH.
  - intros a' b' Hin. apply Hstep. now right.
  - apply Hstep; [now left|assumption].
Qed.


Lemma update_skipped_percent (a rg sv : string) (ud : gmap string float)
  (c : t) (r : QuotaResult) (L : labels) :
  quota_usage_percent (update_skipped a rg sv ud c r) !! L
    = quota_usage_percent c !! L \/
  quota_usage_percent (update_skipped a rg sv ud c r) !! L = Some NaN.
Proof.
  unfold update_skipped.
  destruct (is_skipped r && _ && _ && _); [|now left].
  destruct (ud !! quota_code r) as [u|]; [|now left].
  cbn [quota_usage_percent set_percent set_usage].
  destruct (decide (labels_of a rg sv (quota_name r) (quota_code r) = L)) as [<-|Hne].
  - right. apply lookup_insert_eq.
  - left. now rewrite lookup_insert_ne.
Qed.



Lemma update_skipped_limit (a rg sv : string) (ud : gmap string float)
  (c : t) (r : QuotaResult) :
  quota_limit (update_skipped a rg sv ud c r) = quota_limit c.
Proof.
  unfold update_skipped.
  destruct (is_skipped r && _ && _ && _); [|reflexivity].
  now destruct (ud !! quota_code r).
Qed.

Lemma update_success_limit (a rg sv : string) (ud : gmap string float)
  (c : t) (r : QuotaResult) :
  quota_limit (update_success a rg sv ud c r) = quota_limit c.
Proof.
  unfold update_success.
  destruct (quota_info_of r) as [qi|]; [|reflexivity].
  destruct (is_success r && _ && _ && _ && _); [|reflexivity].
  now destruct (ud !! quota_code r).
Qed.

Lemma set_usage_data_limit (a rg sv : string) (ud : gmap string float) (c : t) :
  quota_limit (set_usage_data a rg sv ud c) = quota_limit c.
Proof.
  unfold set_usage_data.
  apply (fold_left_preserves (fun c' => quota_limit c' = quota_limit c)).
  - intros c' r H. now rewrite update_skipped_limit.
  - apply (fold_left_preserves (fun c' => quota_limit c' = quota_limit c)).
    + intros c' r H. now rewrite update_success_limit.
    + reflexivity.
Qed.


Lemma add_result_success (c : t) (r : QuotaResult) :
  is_success r = true ->
  quota_limit (add_result r c) !! labels_of_result r = Some (limit_of_result r) /\
  quota_usage (add_result r c) !! labels_of_result r
    = Some (default NaN (_get_usage_value c (account_id r) (region r) (service r)
                           (quota_code r))) /\
  quota_usage_percent (add_result r c) !! labels_of_result r
    = Some (match _get_usage_value c (account_id r) (region r) (service r)
                    (quota_code r) with
            | Some u => percent_of u (limit_of_result r)
            | None => NaN
            end).
Proof.
  intros Hs. unfold add_result. rewrite Hs.
  fold (limit_of_result r). fold (labels_of_result r).
  change (_get_usage_value (set_limit (labels_of_result r) (limit_of_result r)
                              (append_result r c)))
    with (_get_usage_value c).
  destruct (_get_usage_value c _ _ _ _); cbn; rewrite !lookup_insert_eq; auto.
Qed.

Lemma update_skipped_keeps (a rg sv : string) (ud : gmap string float) (c : t)
  (x : QuotaResult) (L : labels) :
  (is_skipped x = true -> account_id x = a -> region x = rg -> service x = sv ->
   L <> labels_of_result x) ->
  quota_usage (update_skipped a rg sv ud c x) !! L = quota_usage c !! L /\
  quota_usage_percent (update_skipped a rg sv ud c x) !! L = quota_usage_percent c !! L.
Proof.
  intros H. unfold update_skipped.
  destruct (is_skipped x); [| auto]. cbn [andb].
  repeat case_bool_decide; cbn [andb]; auto.
  destruct (ud !! quota_code x); [| auto].
  assert (L <> labels_of a rg sv (quota_name x) (quota_code x)).
  { subst a rg sv. now apply H. }
  cbn. rewrite !lookup_insert_ne by congruence. auto.
Qed.




(** C8. Adding a Skipped result creates no limit entry; a usage value
    that arrives later for its account, region, service and quota code sets
    the usage series to that value and the percent series to not-a-number,
    and leaves the limit series as it was. *)
Theorem usage_without_limit (c0 c : t) (r : QuotaResult)
  (usage : gmap string float) (usage_value : float) :
  is_skipped r = true ->
  In r (results c) ->
  usage !! quota_code r = Some usage_value ->
  (quota_limit (add_result r c0) = quota_limit c0 /\
   In r (results (add_result r c0))) /\
  quota_usage (set_usage_data (account_id r) (region r) (service r) usage c)
    !! labels_of_result r = Some usage_value /\
  quota_usage_percent (set_usage_data (account_id r) (region r) (service r) usage c)
    !! labels_of_result r = Some NaN /\
  quota_limit (set_usage_data (account_id r) (region r) (service r) usage c)
    = quota_limit c.
Proof.
  intros Hsk Hin Hu. split; [|split; [|split]].
  - unfold add_result.
    assert (is_success r = false) as -> by (unfold is_success, is_skipped in *; now destruct (status r)).
    rewrite Hsk. cbn. split; [reflexivity|]. apply in_or_app. right. now left.
  - unfold set_usage_data. cbn [results store_usage_data].
    apply (fold_left_establishes
             (fun c' => quota_usage c' !! labels_of_result r = Some usage_value)
             _ _ _ r); [| |exact Hin].
    + intros c' x H. unfold update_skipped.
      destruct (is_skipped x && _ && _ && _); [|exact H].
      destruct (usage !! quota_code x) as [u|] eqn:Hx; [|exact H].
      cbn [quota_usage set_percent set_usage].
      destruct (decide (labels_of (account_id r) (region r) (service r)
                          (quota_name x) (quota_code x) = labels_of_result r))
        as [E|Hne].
      * rewrite E. rewrite lookup_insert_eq.
        unfold labels_of_result, labels_of in E. simplify_eq. congruence.
      * now rewrite lookup_insert_ne.
    + intros c'. unfold update_skipped. rewrite Hsk, !bool_decide_eq_true_2 by reflexivity.
      cbn [andb]. rewrite Hu. cbn [quota_usage set_percent set_usage].
      apply lookup_insert_eq.
  - unfold set_usage_data. cbn [results store_usage_data].
    apply (fold_left_establishes
             (fun c' => quota_usage_percent c' !! labels_of_result r = Some NaN)
             _ _ _ r); [| |exact Hin].
    + intros c' x H.
      destruct (update_skipped_percent (account_id r) (region r) (service r) usage
                  c' x (labels_of_result r)) as [E|E]; congruence.
    + intros c'. unfold update_skipped. rewrite Hsk, !bool_decide_eq_true_2 by reflexivity.
      cbn [andb]. rewrite Hu. cbn [quota_usage_percent set_percent set_usage].
      apply lookup_insert_eq.
  - apply set_usage_data_limit.
Qed.

(** The first loop of [set_usage_data] on a collector that holds no skipped
    result: a stored success result that matches gets the usage attached. *)
Lemma set_usage_data_success (c : t) (r : QuotaResult) (qi : quota_info)
  (usage : gmap string float) (u : float) :
  In r (results c) ->
  is_success r = true ->
  quota_info_of r = Some qi -> dict_truthy qi = true ->
  qi_account_id qi = Some (account_id r) -> qi_region qi = Some (region r) ->
  usage !! quota_code r = Some u ->
  (forall x, In x (results c) -> is_skipped x = false) ->
  (forall x, In x (results c) -> quota_name x = quota_name r ->
             quota_code x = quota_code r -> limit_of_result x = limit_of_result r) ->
  quota_usage (set_usage_data (account_id r) (region r) (service r) usage c)
    !! labels_of_result r = Some u /\
  quota_usage_percent (set_usage_data (account_id r) (region r) (service r) usage c)
    !! labels_of_result r = Some (percent_of u (limit_of_result r)).
Proof.
  intros Hin Hs Hqi Ht Ha Hr Hu Hnoskip Hlim.
  unfold set_usage_data. cbn [results store_usage_data].
  set (P := fun c' : t =>
    quota_usage c' !! labels_of_result r = Some u /\
    quota_usage_percent c' !! labels_of_result r = Some (percent_of u (limit_of_result r))).
  change (P (fold_left (update_skipped (account_id r) (region r) (service r) usage)
               (results c)
               (fold_left (update_success (account_id r) (region r) (service r) usage)
                  (results c)
                  (store_usage_data (account_id r, region r, service r) usage c)))).
  apply fold_left_invariant_in.
  { intros c' x Hx HP. unfold update_skipped. now rewrite (Hnoskip x Hx). }
  assert (forall l (c0 : t), (forall x, In x l -> In x (results c)) -> In r l ->
            P (fold_left (update_success (account_id r) (region r) (service r) usage) l c0))
    as Hfold.
  { induction l as [|x l IH]; intros c0 Hsub Hrl; [destruct Hrl|].
    cbn [fold_left].
    assert (forall c1, P c1 ->
              P (fold_left (update_success (account_id r) (region r) (service r) usage) l
                   c1)) as Hkeep.
    { intros c1 HP1. apply fold_left_invariant_in; [|exact HP1].
      intros c' y Hy HP. unfold P in *. unfold update_success.
      destruct (quota_info_of y) as [qy|] eqn:Hqy; [|exact HP].
      destruct (is_success y && dict_truthy qy && _ && _ && _); [|exact HP].
      destruct (usage !! quota_code y) as [uy|] eqn:Huy; [|exact HP].
      cbn [quota_usage quota_usage_percent set_percent set_usage].
      destruct (decide (labels_of (account_id r) (region r) (service r)
                          (quota_name y) (quota_code y) = labels_of_result r))
        as [E|Hne].
      - rewrite E, !lookup_insert_eq.
        unfold labels_of_result, labels_of in E.
        assert (quota_name y = quota_name r /\ quota_code y = quota_code r) as [En Ec]
          by (split; congruence).
        assert (uy = u) as -> by congruence.
        split; [reflexivity|]. f_equal. f_equal.
        rewrite <- (Hlim y); [|apply Hsub; now right|exact En|exact Ec].
        unfold limit_of_result. now rewrite Hqy.
      - now rewrite !lookup_insert_ne. }
    destruct Hrl as [->|Hrl].
    - apply Hkeep. unfold P. unfold update_success. rewrite Hqi, Hs, Ht, Ha, Hr.
      rewrite !bool_decide_eq_true_2 by reflexivity. cbn [andb]. rewrite Hu.
      cbn [quota_usage quota_usage_percent set_percent set_usage].
      fold (labels_of_result r). rewrite !lookup_insert_eq.
      split; [reflexivity|]. unfold limit_of_result. now rewrite Hqi.
    - apply IH; [intros y Hy; apply Hsub; now right|exact Hrl]. }
  apply Hfold; auto.
Qed.
End Aggregation.

(** ** The retry loop *)

Section Retry.
Import Orchestrator.

Lemma get_service_quota_run (w : World) (client : ServiceQuotasClient)
  (sv code : string) (s : state) :
  Client.get_service_quota w client sv code s =
  (client_result code (remote_get_service_quota w (api_calls s) client sv code),
   mk_state (S (api_calls s))
     (trace s ++ client_events client sv code
                   (remote_get_service_quota w (api_calls s) client sv code))
     (client_clock (remote_get_service_quota w (api_calls s) client sv code) (clock s))
     (cache_files s)).
Proof.
  unfold Client.get_service_quota, client_events, client_clock, client_result,
    client_throttled, sleep.
  destruct (remote_get_service_quota w (api_calls s) client sv code) as [r|e];
    [reflexivity|].
  destruct (exn_cls e); try reflexivity.
  destruct (String.eqb (error_code e) "TooManyRequestsException"); [|reflexivity].
  cbn [snd api_calls trace clock cache_files]. now rewrite <- app_assoc.
Qed.

Lemma backoff_waits_app (a b : list event) :
  backoff_waits (a ++ b) = backoff_waits a ++ backoff_waits b.
Proof. apply flat_map_app. Qed.

Lemma client_waits_app (a b : list event) :
  client_waits (a ++ b) = client_waits a ++ client_waits b.
Proof. apply flat_map_app. Qed.

Lemma all_waits_app (a b : list event) :
  all_waits (a ++ b) = all_waits a ++ all_waits b.
Proof. apply flat_map_app. Qed.

Lemma backoff_waits_client (client : ServiceQuotasClient) (sv code : string)
  (o : outcome (option api_quota)) :
  backoff_waits (client_events client sv code o) = [].
Proof. unfold client_events. now destruct (client_throttled o). Qed.

Lemma client_waits_client (client : ServiceQuotasClient) (sv code : string)
  (o : outcome (option api_quota)) :
  client_waits (client_events client sv code o)
  = if client_throttled o then [2%Q] else [].
Proof. unfold client_events. now destruct (client_throttled o). Qed.

Lemma all_waits_client (client : ServiceQuotasClient) (sv code : string)
  (o : outcome (option api_quota)) :
  all_waits (client_events client sv code o)
  = if client_throttled o then [2%Q] else [].
Proof. unfold client_events. now destruct (client_throttled o). Qed.

Lemma new_events_app (s : state) (n : nat) (evs : list event) (clk : Q)
  (fs : gmap (string * string * string) QuotaLimitCache.file) :
  new_events s (mk_state n (trace s ++ evs) clk fs) = evs.
Proof. unfold new_events. cbn [trace]. apply drop_app_length. Qed.

(** The fuel of [fetch_with_retry] is enough: more fuel changes nothing. *)
Lemma retry_loop_enough (w : World) (client : ServiceQuotasClient) (sv code : string)
  (fuel : nat) :
  forall (retry_count : nat) (s : state),
  (max_retries - retry_count <= fuel)%nat ->
  retry_loop fuel w client sv code retry_count s
  = retry_loop (max_retries - retry_count) w client sv code retry_count s.
Proof.
  induction fuel as [|fuel IH]; intros rc s Hle.
  - replace (max_retries - rc)%nat with 0%nat by lia. reflexivity.
  - destruct (max_retries - rc)%nat as [|m] eqn:Em.
    + cbn [retry_loop].
      assert ((rc <? max_retries)%nat = false) as -> by (apply Nat.ltb_ge; lia).
      reflexivity.
    + cbn [retry_loop]. destruct (rc <? max_retries)%nat; [|reflexivity].
      unfold bind. destruct (Client.get_service_quota w client sv code s) as [[q|e] s1];
        [reflexivity|].
      destruct (Py.str_in _ _ && _); [|reflexivity].
      destruct (sleep RetryBackoff (inject_Z (wait_time rc)) s1) as [u s2].
      rewrite IH by lia. replace m with (max_retries - S rc)%nat by lia. reflexivity.
Qed.

(** The loop stops at the first answer that is not a throttling error, or
    at the third answer: [k] retries were made, after the waits of attempts
    [0] to [k - 1]. *)
Lemma retry_runs (w : World) (client : ServiceQuotasClient) (sv code : string)
  (s : state) (k : nat) :
  (k <= 2)%nat ->
  (forall i, (i < k)%nat ->
     is_throttled (remote_get_service_quota w (api_calls s + i) client sv code) = true) ->
  k = 2%nat \/
  is_throttled (remote_get_service_quota w (api_calls s + k) client sv code) = false ->
  fst (fetch_with_retry w client sv code s)
    = loop_result code (remote_get_service_quota w (api_calls s + k) client sv code) /\
  api_calls (snd (fetch_with_retry w client sv code s)) = (api_calls s + k + 1)%nat /\
  backoff_waits (new_events s (snd (fetch_with_retry w client sv code s)))
    = map (fun i => inject_Z (wait_time i)) (seq 0 k).
Proof.
  intros Hk Hthr Hlast.
  unfold fetch_with_retry, max_retries.
  cbn [retry_loop]. unfold bind, ret, max_retries, sleep.
  cbn [Nat.ltb Nat.leb Nat.sub]. unfold loop_result.
  rewrite get_service_quota_run.
  assert (forall o : outcome (option api_quota),
            is_throttled o = true -> exists e,
              o = Raises e /\ Py.str_in "TooManyRequestsException" (exn_str e) = true)
    as Hraise.
  { intros [r|e] H; [discriminate|]. exists e. auto. }
  assert (forall o : outcome (option api_quota),
            is_throttled o = false ->
            match client_result code o with
            | Returns q => True
            | Raises e => Py.str_in "TooManyRequestsException" (exn_str e) = false
            end) as Hstop.
  { intros [r|e] H; cbn; auto. }
  destruct k as [|[|[|k]]]; [| | |lia].
  - destruct Hlast as [Hlast|Hlast]; [discriminate|].
    rewrite Nat.add_0_r in *. apply Hstop in Hlast.
    destruct (client_result code _) as [q|e] eqn:E;
      cbn [fst snd api_calls trace].
    + rewrite new_events_app, backoff_waits_client. repeat split; try lia; reflexivity.
    + rewrite Hlast. cbn [andb fst snd api_calls trace].
      rewrite new_events_app, backoff_waits_client. repeat split; try lia; reflexivity.
  - destruct Hlast as [Hlast|Hlast]; [discriminate|].
    destruct (Hraise _ (Hthr 0%nat ltac:(lia))) as (e0 & E0 & T0).
    rewrite Nat.add_0_r in E0. rewrite E0. cbn [client_result]. rewrite T0.
    cbn [andb]. rewrite get_service_quota_run. cbn [api_calls trace clock cache_files].
    rewrite Nat.add_1_r in *. apply Hstop in Hlast.
    destruct (client_result code _) as [q|e] eqn:E;
      cbn [fst snd api_calls trace].
    + rewrite <- !app_assoc, new_events_app, !backoff_waits_app, !backoff_waits_client.
      repeat split; try lia; reflexivity.
    + rewrite Hlast. cbn [andb fst snd api_calls trace].
      rewrite <- !app_assoc, new_events_app, !backoff_waits_app, !backoff_waits_client.
      repeat split; try lia; reflexivity.
  - destruct (Hraise _ (Hthr 0%nat ltac:(lia))) as (e0 & E0 & T0).
    destruct (Hraise _ (Hthr 1%nat ltac:(lia))) as (e1 & E1 & T1).
    rewrite Nat.add_0_r in E0. rewrite Nat.add_1_r in E1.
    rewrite E0. cbn [client_result]. rewrite T0. cbn [andb].
    rewrite get_service_quota_run. cbn [api_calls trace clock cache_files].
    rewrite E1. cbn [client_result]. rewrite T1. cbn [andb].
    rewrite get_service_quota_run. cbn [api_calls trace clock cache_files].
    replace (api_calls s + 2)%nat with (S (S (api_calls s))) by lia.
    destruct (client_result code _) as [q|e] eqn:E;
      cbn [fst snd api_calls trace].
    + rewrite <- !app_assoc, new_events_app, !backoff_waits_app, !backoff_waits_client.
      repeat split; try lia; reflexivity.
    + rewrite andb_false_r. cbn [fst snd api_calls trace].
      rewrite <- !app_assoc, new_events_app, !backoff_waits_app, !backoff_waits_client.
      repeat split; try lia; reflexivity.
Qed.

(** C1 (as amended). Around a limit fetch the retry loop makes at most
    three calls; before retry number [attempt] it waits
    [2 ^ attempt * 2] seconds, so it waits 2 s and then 4 s (the 8 s of
    attempt 2 are never slept, the third failure being re-raised). On three
    consecutive throttling errors the third is re-raised after loop waits
    of 2 + 4 = 6 seconds; when they are [ClientError]s with the throttling
    code the client has slept 2 s more in each call, 12 seconds in all. An
    error whose text does not name the throttling code is not retried: it
    is re-raised after one call and recorded as a Failed result whose
    reason is [quota_not_found], [permission_denied] or [api_error]. *)
Theorem retry_backoff_policy (w : World) (client : ServiceQuotasClient)
  (sv code : string) (s : state) :
    (forall fuel : nat, (max_retries <= fuel)%nat ->
       retry_loop fuel w client sv code 0 s = fetch_with_retry w client sv code s) /\
    (forall k : nat, (k <= 2)%nat ->
       (forall i, (i < k)%nat ->
          is_throttled (remote_get_service_quota w (api_calls s + i) client sv code)
          = true) ->
       k = 2%nat \/
       is_throttled (remote_get_service_quota w (api_calls s + k) client sv code)
       = false ->
       fst (fetch_with_retry w client sv code s)
       = loop_result code
           (remote_get_service_quota w (api_calls s + k) client sv code) /\
       api_calls (snd (fetch_with_retry w client sv code s)) = (api_calls s + k + 1)%nat /\
       backoff_waits (new_events s (snd (fetch_with_retry w client sv code s)))
       = map (fun i => inject_Z (wait_time i)) (seq 0 k)) /\
    (api_calls s < api_calls (snd (fetch_with_retry w client sv code s))
       <= api_calls s + 3)%nat /\
    (exists k : nat, (k <= 2)%nat /\
       backoff_waits (new_events s (snd (fetch_with_retry w client sv code s)))
       = map (fun i => inject_Z (wait_time i)) (seq 0 k)) /\
    (forall e0 e1 e2 : exn,
       remote_get_service_quota w (api_calls s) client sv code = Raises e0 ->
       remote_get_service_quota w (S (api_calls s)) client sv code = Raises e1 ->
       remote_get_service_quota w (S (S (api_calls s))) client sv code = Raises e2 ->
       throttling_text e0 = true -> throttling_text e1 = true ->
       throttling_text e2 = true ->
       fst (fetch_with_retry w client sv code s) = Raises e2 /\
       api_calls (snd (fetch_with_retry w client sv code s)) = (api_calls s + 3)%nat /\
       backoff_waits (new_events s (snd (fetch_with_retry w client sv code s)))
         = [2%Q; 4%Q] /\
       (total (backoff_waits (new_events s (snd (fetch_with_retry w client sv code s))))
          == 6)%Q /\
       (client_throttled (@Raises unit e0) = true ->
        client_throttled (@Raises unit e1) = true ->
        client_throttled (@Raises unit e2) = true ->
        client_waits (new_events s (snd (fetch_with_retry w client sv code s)))
          = [2%Q; 2%Q; 2%Q] /\
        (total (all_waits (new_events s (snd (fetch_with_retry w client sv code s))))
           == 12)%Q)) /\
    (forall e : exn,
       remote_get_service_quota w (api_calls s) client sv code = Raises e ->
       throttling_text e = false ->
       fst (fetch_with_retry w client sv code s) = Raises e /\
       api_calls (snd (fetch_with_retry w client sv code s)) = S (api_calls s) /\
       backoff_waits (new_events s (snd (fetch_with_retry w client sv code s))) = [] /\
       forall (quota : QuotaItem) (account_id service_region : string),
         result_of_fetch sv quota account_id service_region
           (fst (fetch_with_retry w client sv code s))
         = failed_result sv (item_quota_code quota) (item_quota_name quota)
             (failure_reason (exn_str e)) (exn_str e) account_id service_region).
Proof.
  split.
  { intros fuel Hfuel. unfold fetch_with_retry.
    rewrite (retry_loop_enough w client sv code fuel 0 s) by lia. reflexivity. }
  split; [intros k; apply retry_runs|].
  unfold fetch_with_retry, max_retries.
  cbn [retry_loop]. unfold bind, ret, max_retries, sleep.
  cbn [Nat.ltb Nat.leb Nat.sub].
  rewrite get_service_quota_run.
  destruct (remote_get_service_quota w (api_calls s) client sv code) as [r0|e0] eqn:E0;
    cbn [client_result fst snd api_calls trace clock cache_files].
  { rewrite new_events_app, backoff_waits_client.
    split; [lia|]. split; [exists 0%nat; split; [lia|reflexivity]|].
    split; intros; discriminate. }
  unfold throttling_text.
  destruct (Py.str_in "TooManyRequestsException" (exn_str e0)) eqn:P0; cbn [andb].
  2:{ cbn [fst snd api_calls trace]. rewrite new_events_app, backoff_waits_client.
      split; [lia|]. split; [exists 0%nat; split; [lia|reflexivity]|].
      split; intros; simplify_eq; [congruence|]. repeat split; reflexivity. }
  rewrite get_service_quota_run. cbn [api_calls trace clock cache_files].
  destruct (remote_get_service_quota w (S (api_calls s)) client sv code) as [r1|e1] eqn:E1;
    cbn [client_result fst snd api_calls trace clock cache_files].
  { rewrite <- !app_assoc, new_events_app, !backoff_waits_app, !backoff_waits_client.
    split; [lia|]. split; [exists 1%nat; split; [lia|reflexivity]|].
    split; intros; simplify_eq; congruence. }
  destruct (Py.str_in "TooManyRequestsException" (exn_str e1)) eqn:P1; cbn [andb].
  2:{ cbn [fst snd api_calls trace].
      rewrite <- !app_assoc, new_events_app, !backoff_waits_app, !backoff_waits_client.
      split; [lia|]. split; [exists 1%nat; split; [lia|reflexivity]|].
      split; intros; simplify_eq; congruence. }
  rewrite get_service_quota_run. cbn [api_calls trace clock cache_files].
  destruct (remote_get_service_quota w (S (S (api_calls s))) client sv code) as [r2|e2] eqn:E2;
    cbn [client_result fst snd api_calls trace clock cache_files].
  { rewrite <- !app_assoc, new_events_app, !backoff_waits_app, !backoff_waits_client.
    split; [lia|]. split; [exists 2%nat; split; [lia|reflexivity]|].
    split; intros; simplify_eq; congruence. }
  replace (Py.str_in "TooManyRequestsException" (exn_str e2) && false) with false
    by (now rewrite andb_false_r).
  cbn [fst snd api_calls trace].
  rewrite <- !app_assoc, new_events_app.
  rewrite !backoff_waits_app, !client_waits_app, !all_waits_app,
    !backoff_waits_client, !client_waits_client, !all_waits_client.
  split; [lia|]. split; [exists 2%nat; split; [lia|reflexivity]|].
  split; intros; simplify_eq; [|congruence].
  split; [reflexivity|]. split; [lia|]. split; [reflexivity|].
  split; [reflexivity|]. intros T0 T1 T2. cbn in T0, T1, T2.
  unfold client_throttled. rewrite T0, T1, T2. split; reflexivity.
Qed.

End Retry.

(** ** The orchestrator *)

Section Orchestration.
Import Orchestrator.

Lemma for_each_in {A B : Type} (P : B -> Prop) (xs : list A) (body : A -> M (list B)) :
  (forall x s b, In b (fst (body x s)) -> P b) ->
  forall s b, In b (fst (for_each xs body s)) -> P b.
Proof.
  intros Hbody. induction xs as [|x xs IH]; intros s b; cbn [for_each].
  - intros [].
  - unfold bind, ret. specialize (Hbody x s).
    destruct (body x s) as [r s1]. specialize (IH s1).
    destruct (for_each xs body s1) as [rs s2]. cbn [fst] in *.
    intros Hin. apply in_app_or in Hin as [H|H]; auto.
Qed.

Lemma result_of_fetch_recorded (sv : string) (quota : QuotaItem) (a rg : string)
  (r : outcome (option quota_info)) :
  recorded_for sv (result_of_fetch sv quota a rg r).
Proof.
  unfold result_of_fetch, recorded_for.
  destruct r as [[qi|]|e]; [destruct (dict_truthy qi)| |]; cbn; auto.
Qed.

Lemma collect_discovered_quota_recorded (w : World) (cl : ServiceQuotasClient)
  (a sv rg : string) (q : QuotaItem) (s : state) (r : QuotaResult) :
  In r (fst (collect_discovered_quota w cl a sv rg q s)) -> recorded_for sv r.
Proof.
  unfold collect_discovered_quota, bind, ret.
  destruct (sleep _ _ s) as [u s1].
  destruct (fetch_with_retry w cl sv (item_quota_code q) s1) as [o s2].
  cbn. intros [<-|[]]. apply result_of_fetch_recorded.
Qed.

Lemma collect_static_quota_recorded (w : World) (cache : option QuotaLimitCache.t)
  (cl : ServiceQuotasClient) (a sv rg : string) (q : QuotaItem) (s : state)
  (r : QuotaResult) :
  In r (fst (collect_static_quota w cache cl a sv rg q s)) -> recorded_for sv r.
Proof.
  unfold collect_static_quota, bind, ret.
  destruct (cache_lookup cache a rg sv (item_quota_code q) s) as [cached s1].
  match goal with
  | |- In r (fst (let (a0, s') := ?m s1 in _)) -> _ => destruct (m s1) as [o s2]
  end.
  cbn. intros [<-|[]]. apply result_of_fetch_recorded.
Qed.

Lemma cloudfront_results_in (a rg : string) (quotas : list QuotaItem) (r : QuotaResult) :
  In r (cloudfront_results a rg quotas) <->
  exists (quota : QuotaItem) (default_limit : float),
    In quota quotas /\
    cloudfront_default_limits !! item_quota_code quota = Some default_limit /\
    r = mk_QuotaResult "cloudfront" (item_quota_code quota) (item_quota_name quota)
          SUCCESS a rg None
          (Some (mk_quota_info (Some (item_quota_code quota))
                   (Some (item_quota_name quota)) (Some default_limit)
                   None None None (Some a) (Some rg)))
          None.
Proof.
  induction quotas as [|q rest IH]; cbn [cloudfront_results].
  - split; [intros []|intros (? & ? & [] & _)].
  - destruct (cloudfront_default_limits !! item_quota_code q) as [l|] eqn:E.
    + cbn [In]. rewrite IH. split.
      * intros [<-|(q' & l' & Hin & Hl & ->)].
        -- exists q, l. auto.
        -- exists q', l'. auto.
      * intros (q' & l' & [->|Hin] & Hl & ->).
        -- left. congruence.
        -- right. exists q', l'. auto.
    + rewrite IH. split.
      * intros (q' & l' & Hin & Hl & ->). exists q', l'. cbn. auto.
      * intros (q' & l' & [->|Hin] & Hl & ->); [congruence|]. exists q', l'. auto.
Qed.

Lemma limit_service_step_recorded (w : World) (cache : option QuotaLimitCache.t)
  (creds : option credentials) (a rg : string) (cl : ServiceQuotasClient)
  (sv : string) (config : service_config) (s : state) (r : QuotaResult) :
  In r (snd (fst (limit_service_step w cache creds a rg cl (sv, config) s))) ->
  recorded_for sv r.
Proof.
  unfold limit_service_step.
  set (service_region := if in_list sv global_services then "us-east-1" else rg).
  set (cl1 := if in_list sv global_services && negb (String.eqb rg "us-east-1")
              then client_for "us-east-1" creds else cl).
  destruct config as [quotas|dc].
  - destruct (String.eqb_spec sv "cloudfront") as [->|Hne].
    + cbn. intros H. apply cloudfront_results_in in H as (q & l & _ & _ & ->).
      split; cbn; auto.
    + unfold bind, ret.
      pose proof (for_each_in (recorded_for sv) quotas
                    (collect_static_quota w cache cl1 a sv service_region)
                    (fun x s b => collect_static_quota_recorded w cache cl1 a sv
                                    service_region x s b) s) as H.
      destruct (for_each quotas _ s) as [rs s1]. cbn in *. apply H.
  - destruct (enabled dc); [|cbn; intros []].
    set (cl2 := if in_list sv regional_services
                   && negb (String.eqb service_region (client_region cl1))
                then client_for service_region creds else cl1).
    unfold bind, ret.
    destruct (SageMakerDiscovery.discover_quotas w cl2 dc service_region s) as [dq s1].
    pose proof (for_each_in (recorded_for sv) dq
                  (collect_discovered_quota w cl2 a sv service_region)
                  (fun x s b => collect_discovered_quota_recorded w cl2 a sv
                                  service_region x s b) s1) as H.
    destruct (for_each dq _ s1) as [rs s2]. cbn in *. apply H.
Qed.

Lemma limit_loop_in (w : World) (cache : option QuotaLimitCache.t)
  (creds : option credentials) (a rg : string)
  (aws : list (string * service_config)) :
  forall (cl : ServiceQuotasClient) (s : state) (r : QuotaResult),
  In r (fst (limit_loop w cache creds a rg cl aws s)) ->
  exists sv config cl' s',
    In (sv, config) aws /\
    In r (snd (fst (limit_service_step w cache creds a rg cl' (sv, config) s'))).
Proof.
  induction aws as [|[sv config] rest IH]; intros cl s r; cbn [limit_loop].
  - intros [].
  - unfold bind, ret.
    destruct (limit_service_step w cache creds a rg cl (sv, config) s)
      as [[cl1 rs] s1] eqn:E.
    specialize (IH cl1 s1 r). cbn [fst snd] in *.
    destruct (limit_loop w cache creds a rg cl1 rest s1) as [rs' s2]. cbn [fst] in *.
    intros Hin. apply in_app_or in Hin as [H|H].
    + exists sv, config, cl, s. rewrite E. cbn. auto.
    + destruct (IH H) as (sv' & c' & cl' & s' & Hin & Hr).
      exists sv', c', cl', s'. cbn. auto.
Qed.

Lemma limit_loop_has (w : World) (cache : option QuotaLimitCache.t)
  (creds : option credentials) (a rg : string)
  (aws : list (string * service_config)) (sv : string) (config : service_config) :
  forall (cl : ServiceQuotasClient) (s : state),
  In (sv, config) aws ->
  exists cl' s',
    forall r,
      In r (snd (fst (limit_service_step w cache creds a rg cl' (sv, config) s'))) ->
      In r (fst (limit_loop w cache creds a rg cl aws s)).
Proof.
  induction aws as [|entry rest IH]; intros cl s; cbn [limit_loop].
  - intros [].
  - unfold bind, ret.
    destruct (limit_service_step w cache creds a rg cl entry s) as [[cl1 rs] s1] eqn:E.
    cbn [fst snd].
    destruct (limit_loop w cache creds a rg cl1 rest s1) as [rs' s2] eqn:E2.
    cbn [fst]. intros [->|Hin].
    + exists cl, s. rewrite E. cbn. intros r H. apply in_or_app. now left.
    + destruct (IH cl1 s1 Hin) as (cl' & s' & H). exists cl', s'.
      intros r Hr. apply in_or_app. right. specialize (H r Hr).
      now rewrite E2 in H.
Qed.

Lemma cloudfront_step (w : World) (cache : option QuotaLimitCache.t)
  (creds : option credentials) (a rg : string) (cl : ServiceQuotasClient)
  (quotas : list QuotaItem) (s : state) :
  snd (fst (limit_service_step w cache creds a rg cl ("cloudfront", Static quotas) s))
  = cloudfront_results a "us-east-1" quotas.
Proof. reflexivity. Qed.

Lemma usage_step_items (w : World) (uc : gset string)
  (aws : list (string * service_config)) (creds : option credentials)
  (a rg sv : string) (s : state) (it : item) :
  In it (fst (usage_step w uc aws creds a rg sv s)) ->
  exists a' r' sv' u, it = UsageItem a' r' sv' u.
Proof.
  unfold usage_step.
  destruct (in_config sv aws && bool_decide (sv ∈ uc)); [|intros []].
  unfold bind, ret, emit.
  destruct (remote_collect_usage w sv a _ _) as [u|e]; [|intros []].
  destruct (0 <? size u)%nat; [|intros []].
  cbn. intros [<-|[]]. eauto.
Qed.

Lemma region_results_in (w : World) (cache : option QuotaLimitCache.t)
  (uc : gset string) (aws : list (string * service_config)) (a rg : string)
  (creds : option credentials) (collect_limit collect_usage : bool) (s : state)
  (r : QuotaResult) :
  In (ResultItem r)
     (fst (_collect_account_region_quotas w cache uc aws a rg creds collect_limit
             collect_usage s)) ->
  collect_limit = true /\
  exists s1, In r (fst (limit_loop w cache creds a rg (client_for rg creds) aws s1)).
Proof.
  unfold _collect_account_region_quotas, bind, ret.
  match goal with
  | |- In _ (fst (let (a0, s') := ?m s in _)) -> _ =>
      pose proof (fun it => for_each_in
                    (fun it => exists a' r' sv' u, it = UsageItem a' r' sv' u)
                    usage_services (usage_step w uc aws creds a rg)
                    (fun x s b => usage_step_items w uc aws creds a rg x s b) s it) as Hu;
      destruct (m s) as [usage_items s1] eqn:E
  end.
  assert (forall it, In it usage_items -> exists a' r' sv' u, it = UsageItem a' r' sv' u)
    as Hitems.
  { destruct collect_usage.
    - intros it Hit. apply Hu. now rewrite E.
    - inversion E; subst. intros it []. }
  destruct collect_limit.
  - destruct (limit_loop w cache creds a rg (client_for rg creds) aws s1) as [rs s2] eqn:E2.
    cbn [fst]. intros Hin. split; [reflexivity|]. exists s1. rewrite E2. cbn [fst].
    apply in_app_or in Hin as [H|H].
    + apply Hitems in H as (? & ? & ? & ? & H). discriminate.
    + apply in_map_iff in H as (r' & [= ->] & H). exact H.
  - cbn. rewrite app_nil_r. intros H.
    apply Hitems in H as (? & ? & ? & ? & H). discriminate.
Qed.

Lemma cloudfront_limit_positive (code : string) (l : float) :
  cloudfront_default_limits !! code = Some l -> PrimFloat.ltb 0 l = true.
Proof.
  unfold cloudfront_default_limits. rewrite !lookup_insert.
  repeat case_decide; rewrite ?lookup_empty; intros [= <-]; reflexivity.
Qed.

End Orchestration.

(** ** Active-region discovery *)

Section RegionDiscovery.
Import ActiveRegionDiscoverer.

Lemma probes_for_app (a : string) (l1 l2 : list event) :
  probes_for a (l1 ++ l2) = probes_for a l1 ++ probes_for a l2.
Proof. apply List.filter_app. Qed.

Lemma probe_regions_run (env : Env) (a ak sk : string) (cands : list string) (s : state) :
  files (snd (probe_regions env a ak sk cands s)) = files s /\
  clock_reads (snd (probe_regions env a ak sk cands s)) = clock_reads s /\
  probes (snd (probe_regions env a ak sk cands s)) = probes s ++ map (EvProbe a) cands.
Proof.
  revert s. induction cands as [|r rest IH]; intros s; simpl.
  - now rewrite app_nil_r.
  - destruct (probe_regions env a ak sk rest _) as [u s2] eqn:E.
    specialize (IH (mk_state (files s) (probes s ++ [EvProbe a r]) (clock_reads s))).
    rewrite E in IH. cbn [snd files probes clock_reads] in *.
    destruct IH as (-> & -> & ->). now rewrite <- app_assoc.
Qed.

Lemma probes_for_other (a x : string) (cands : list string) :
  x <> a -> probes_for a (map (EvProbe x) cands) = [].
Proof.
  intros Hne. induction cands as [|r rest IH]; simpl; [reflexivity|].
  destruct (String.eqb_spec x a); [contradiction|exact IH].
Qed.

Section OneAccount.
Variables (self : t) (env : Env) (a : string).

(** An iteration for another account leaves everything about [a] alone. *)
Lemma discover_account_frame (use_cache force_refresh : bool) (cands : list string)
  (result : gmap string (list string)) (x : string) (creds : credentials) (s : state) :
  x <> a ->
  files (snd (discover_account self env use_cache force_refresh cands result (x, creds) s)) !! a
    = files s !! a /\
  probes_for a (probes (snd (discover_account self env use_cache force_refresh cands result (x, creds) s)))
    = probes_for a (probes s) /\
  (clock_reads s <= clock_reads (snd (discover_account self env use_cache force_refresh cands result (x, creds) s)))%nat /\
  fst (discover_account self env use_cache force_refresh cands result (x, creds) s) !! a
    = result !! a.
Proof.
  intros Hne. unfold discover_account.
  destruct (access_key creds) as [ak|]; [|cbn; auto].
  destruct (secret_key creds) as [sk|]; [|cbn; auto].
  destruct (str_truthy ak && str_truthy sk); [|cbn; auto].
  assert (forall s1 : state,
    files s1 !! a = files s !! a -> probes_for a (probes s1) = probes_for a (probes s) ->
    (clock_reads s <= clock_reads s1)%nat ->
    let out := (let (used_regions, s2) := probe_regions env x ak sk cands s1 in
                if use_cache
                then (<[x:=used_regions]> result,
                      snd (_save_account_cache env x used_regions s2))
                else (<[x:=used_regions]> result, s2)) in
    files (snd out) !! a = files s !! a /\
    probes_for a (probes (snd out)) = probes_for a (probes s) /\
    (clock_reads s <= clock_reads (snd out))%nat /\
    fst out !! a = result !! a) as Hmiss.
  { intros s1 Hf Hp Hc.
    pose proof (probe_regions_run env x ak sk cands s1) as (Rf & Rc & Rp).
    destruct (probe_regions env x ak sk cands s1) as [used s2].
    cbn [snd] in Rf, Rc, Rp.
    destruct use_cache; cbn [fst snd _save_account_cache time_time files probes clock_reads].
    - rewrite lookup_insert_ne by exact Hne. rewrite Rf, Rp, Rc, Hf.
      rewrite probes_for_app, probes_for_other, app_nil_r by exact Hne.
      rewrite lookup_insert_ne by exact Hne. repeat split; auto.
    - rewrite Rf, Rp, Rc, Hf.
      rewrite probes_for_app, probes_for_other, app_nil_r by exact Hne.
      rewrite lookup_insert_ne by exact Hne. repeat split; auto. }
  destruct (use_cache && negb force_refresh) eqn:Hu.
  - unfold _load_account_cache.
    destruct (files s !! x) as [[|d]|] eqn:Hx; try (apply Hmiss; auto).
    cbn [time_time].
    destruct (Qgtb _ _).
    + apply Hmiss; cbn; auto.
    + cbn. rewrite lookup_insert_ne by exact Hne. repeat split; auto.
  - apply Hmiss; auto.
Qed.


(** An iteration for [a] itself, while its cache file is within its TTL. *)
Lemma discover_account_hit (cands : list string)
  (result : gmap string (list string)) (creds : credentials) (s : state)
  (d : cache_data) :
  files s !! a = Some (Json d) ->
  (time_at env (clock_reads s) - default 0%Q (cd_timestamp d)
     <= inject_Z (cache_ttl self))%Q ->
  files (snd (discover_account self env true false cands result (a, creds) s)) = files s /\
  probes (snd (discover_account self env true false cands result (a, creds) s)) = probes s /\
  (clock_reads s <= clock_reads (snd (discover_account self env true false cands result (a, creds) s)))%nat /\
  (complete creds ->
   fst (discover_account self env true false cands result (a, creds) s) !! a
     = Some (default [] (cd_regions d))) /\
  (fst (discover_account self env true false cands result (a, creds) s) !! a
     = Some (default [] (cd_regions d)) \/
   fst (discover_account self env true false cands result (a, creds) s) !! a
     = result !! a).
Proof.
  intros Hf Ht. unfold discover_account, complete.
  destruct (access_key creds) as [ak|];
    [|cbn; repeat split; auto; intros (? & ? & ? & _); discriminate].
  destruct (secret_key creds) as [sk|];
    [|cbn; repeat split; auto; intros (? & ? & _ & ? & _); discriminate].
  destruct (str_truthy ak && str_truthy sk) eqn:Hk.
  2:{ cbn; repeat split; auto. intros (ak' & sk' & E1 & E2 & T1 & T2).
      simplify_eq. rewrite T1, T2 in Hk. discriminate. }
  cbn [andb negb]. unfold _load_account_cache. rewrite Hf. cbn [time_time].
  apply Qgtb_false in Ht. rewrite Ht. cbn.
  rewrite lookup_insert_eq. repeat split; auto.
Qed.

Lemma discover_accounts_hit (cands : list string) (d : cache_data)
  (entries : list (string * credentials)) :
  forall (result : gmap string (list string)) (s : state),
  files s !! a = Some (Json d) ->
  (forall n, (clock_reads s <= n)%nat ->
     (time_at env n - default 0%Q (cd_timestamp d) <= inject_Z (cache_ttl self))%Q) ->
  files (snd (discover_accounts self env true false cands result entries s)) !! a
    = Some (Json d) /\
  probes_for a (probes (snd (discover_accounts self env true false cands result entries s)))
    = probes_for a (probes s) /\
  (result !! a = Some (default [] (cd_regions d)) \/
   (exists creds, In (a, creds) entries /\ complete creds) ->
   fst (discover_accounts self env true false cands result entries s) !! a
     = Some (default [] (cd_regions d))).
Proof.
  induction entries as [|[x creds] rest IH]; intros result s Hf Ht.
  - cbn. repeat split; auto. intros [H|(c & [] & _)]. exact H.
  - cbn [discover_accounts].
    destruct (discover_account self env true false cands result (x, creds) s)
      as [result' s'] eqn:E.
    destruct (decide (x = a)) as [->|Hne].
    + pose proof (discover_account_hit cands result creds s d Hf (Ht _ (le_n _)))
        as (Rf & Rp & Rc & Rhit & Rkeep).
      rewrite E in Rf, Rp, Rc, Rhit, Rkeep. cbn [fst snd] in *.
      destruct (IH result' s') as (If & Ip & Ir).
      { now rewrite Rf. }
      { intros n Hn. apply Ht. lia. }
      split; [exact If|]. split; [now rewrite Ip, Rp|].
      intros [Hres|(c & [Hc|Hin] & Hcomp)]; apply Ir.
      * left. destruct Rkeep as [K|K]; [exact K|now rewrite K].
      * left. inversion Hc; subst. now apply Rhit.
      * right. exists c. auto.
    + pose proof (discover_account_frame true false cands result x creds s Hne)
        as (Rf & Rp & Rc & Rr).
      rewrite E in Rf, Rp, Rc, Rr. cbn [fst snd] in *.
      destruct (IH result' s') as (If & Ip & Ir).
      { now rewrite Rf. }
      { intros n Hn. apply Ht. lia. }
      split; [exact If|]. split; [now rewrite Ip, Rp|].
      intros [Hres|(c & [Hc|Hin] & Hcomp)]; apply Ir.
      * left. now rewrite Rr.
      * inversion Hc; subst. contradiction.
      * right. exists c. auto.
Qed.

Lemma written_since_mono (n0 : nat) (s s' : state) (rs : list string) :
  files s' !! a = files s !! a -> (clock_reads s <= clock_reads s')%nat ->
  written_since env a n0 s rs -> written_since env a n0 s' rs.
Proof.
  intros Hf Hc (m & Hm & Hfile). exists m. split; [lia|]. now rewrite Hf.
Qed.









End OneAccount.

Lemma probe_regions_result (env : Env) (a ak sk : string) (cands : list string) (s : state) :
  fst (probe_regions env a ak sk cands s)
  = List.filter (fun r => probe_ec2_usage env r ak sk) cands.
Proof.
  revert s. induction cands as [|r rest IH]; intros s; simpl; [reflexivity|].
  specialize (IH (mk_state (files s) (probes s ++ [EvProbe a r]) (clock_reads s))).
  destruct (probe_regions env a ak sk rest _) as [u s2]. cbn [fst] in *.
  now rewrite IH.
Qed.








End RegionDiscovery.

(** ** The scheduler *)

Section Scheduling.
Import Scheduler.

Lemma cycles_S (interval : Z) (callback : Callable) (n k : nat) :
  cycles interval callback n (S k)
  = cycle_events interval callback n ++ cycles interval callback (S n) k.
Proof. reflexivity. Qed.

(** A run of cycles during which the flag stays set and the callback
    returns or raises an [Exception]: the loop makes them all and goes on. *)
Lemma refresh_loop_cycles (interval : Z) (callback : Callable)
  (pre : list iteration_env) :
  forall (n : nat) (rest : list iteration_env),
  Forall stays_running pre ->
  (forall i e, (n <= i < n + length pre)%nat -> callback i = CbRaises e ->
               is_Exception e = true) ->
  refresh_loop interval callback n (pre ++ rest)
  = cycles interval callback n (length pre)
    ++ refresh_loop interval callback (n + length pre) rest.
Proof.
  induction pre as [|env pre IH]; intros n rest Hrun Hexn.
  - cbn. now rewrite Nat.add_0_r.
  - inversion Hrun as [|? ? [Ht Ha] Hrun']; subst.
    cbn [app refresh_loop length]. rewrite Ht, Ha. cbn [negb].
    rewrite cycles_S. unfold cycle_events. cbn [app].
    rewrite (IH (S n) rest Hrun')
      by (intros i e Hi; apply Hexn; cbn [length]; lia).
    replace (n + S (length pre))%nat with (S n + length pre)%nat by lia.
    destruct (callback n) as [|e] eqn:Ecb; [reflexivity|].
    rewrite (Hexn n e) by (cbn [length]; lia || exact Ecb). reflexivity.
Qed.

(** C6. Each of the two timer loops, in every iteration in which the
    scheduler is running, first sleeps its own interval and then invokes its
    own callback; when the invocation raises an exception (an instance of
    [Exception], what the handler names) the loop logs it and goes on with
    the next iteration. So after any number of such cycles, failed or not,
    the loop is at the head of the next one. *)
Theorem timer_loops_survive_failures (self : QuotaScheduler)
  (pre rest : list iteration_env) :
  Forall stays_running pre ->
  (forall i e, (i < length pre)%nat ->
     collect_limit_func self i = CbRaises e \/ collect_usage_func self i = CbRaises e ->
     is_Exception e = true) ->
  (_limit_refresh_loop self (pre ++ rest)
   = cycles (limit_interval self) (collect_limit_func self) 0 (length pre)
     ++ refresh_loop (limit_interval self) (collect_limit_func self) (length pre) rest) /\
  (_usage_refresh_loop self (pre ++ rest)
   = cycles (usage_interval self) (collect_usage_func self) 0 (length pre)
     ++ refresh_loop (usage_interval self) (collect_usage_func self) (length pre) rest) /\
  (forall (interval : Z) (callback : Callable) (i : nat),
     exists log : list loop_event,
       cycle_events interval callback i = Slept interval :: Invoked i :: log /\
       (forall e, callback i = CbRaises e -> log = [LoggedError e]) /\
       (callback i = CbReturns -> log = [])).
Proof.
  intros Hrun Hexn. split; [|split].
  - unfold _limit_refresh_loop.
    rewrite (refresh_loop_cycles _ _ pre 0 rest Hrun); [reflexivity|].
    intros i e Hi Hcb. apply (Hexn i e); [lia|now left].
  - unfold _usage_refresh_loop.
    rewrite (refresh_loop_cycles _ _ pre 0 rest Hrun); [reflexivity|].
    intros i e Hi Hcb. apply (Hexn i e); [lia|now right].
  - intros interval callback i. unfold cycle_events.
    destruct (callback i) as [|e]; eexists; (split; [reflexivity|]);
      split; congruence.
Qed.

(** A limit callback that fails in its first cycle: the loop logs the
    failure and makes the second cycle. *)
Lemma timer_loops_survive_failures_witness :
  _limit_refresh_loop Examples.scheduler [Examples.running; Examples.running]
  = [Slept 86400; Invoked 0; LoggedError (mk_py_exception true "boom");
     Slept 86400; Invoked 1].
Proof.
  pose proof (timer_loops_survive_failures Examples.scheduler
                [Examples.running; Examples.running] []) as H.
  destruct H as [H _].
  - repeat constructor.
  - intros i e Hi [Hcb|Hcb]; [|discriminate].
    destruct i as [|[|i]]; cbn in Hcb; [now inversion Hcb|discriminate|cbn in Hi; lia].
  - rewrite app_nil_r in H. rewrite H. reflexivity.
Defined.

(** C4 (as amended). Constructing a scheduler does not raise: the two
    annotated assignments stand in a function body, where annotations are
    not evaluated, so the unbound name [Optional] is never looked up. The
    constructor returns an object that is not running and has no threads,
    on which [start], [stop] and [get_status] work. The same annotation in
    a class or module body would raise [NameError]. *)
Theorem scheduler_construction_succeeds (collect_limit collect_usage : Callable)
  (limit_interval0 usage_interval0 : Z) (is_alive : Thread -> bool) :
  __init__ collect_limit collect_usage limit_interval0 usage_interval0
  = Ok (mk_QuotaScheduler collect_limit collect_usage limit_interval0
          usage_interval0 false None None) /\
  annotation ClassScope ["Optional"; "threading"] = Error (NameError "Optional") /\
  annotation ModuleScope ["Optional"; "threading"] = Error (NameError "Optional") /\
  (forall self : QuotaScheduler,
     __init__ collect_limit collect_usage limit_interval0 usage_interval0 = Ok self ->
     _running (start self) = true /\
     _limit_thread (start self) = Some (mk_Thread "LimitRefreshThread") /\
     _usage_thread (start self) = Some (mk_Thread "UsageRefreshThread") /\
     _running (stop (start self)) = false /\
     get_status is_alive self
     = mk_status false limit_interval0 usage_interval0 false false).
Proof.
  split; [reflexivity|]. split; [reflexivity|]. split; [reflexivity|].
  intros self [= <-]. repeat split; reflexivity.
Qed.

(** With the default intervals the constructor returns an object, and its
    status can be queried. *)
Lemma scheduler_construction_counterexample :
  exists self : QuotaScheduler,
    __init__ Examples.always_ok Examples.always_ok 86400 3600 = Ok self /\
    get_status (fun _ => false) self = mk_status false 86400 3600 false false /\
    _running (start self) = true.
Proof.
  eexists. split; [reflexivity|]. split; reflexivity.
Qed.

End Scheduling.

(** ** CloudFront limits and the region fallback *)

Section CloudFront.
Import Orchestrator Collector.

Lemma region_results_has (w : World) (cache : option QuotaLimitCache.t)
  (uc : gset string) (aws : list (string * service_config)) (a rg : string)
  (creds : option credentials) (collect_usage : bool) (s : state)
  (sv : string) (config : service_config) :
  In (sv, config) aws ->
  exists cl' s',
    forall r,
      In r (snd (fst (limit_service_step w cache creds a rg cl' (sv, config) s'))) ->
      In (ResultItem r)
         (fst (_collect_account_region_quotas w cache uc aws a rg creds true
                 collect_usage s)).
Proof.
  intros Hin. unfold _collect_account_region_quotas, bind, ret.
  match goal with
  | |- context [let (a0, s') := ?m s in _] => destruct (m s) as [usage_items s1]
  end.
  destruct (limit_loop_has w cache creds a rg aws sv config (client_for rg creds) s1 Hin)
    as (cl' & s' & H).
  exists cl', s'. intros r Hr. specialize (H r Hr).
  destruct (limit_loop w cache creds a rg (client_for rg creds) aws s1) as [rs s2].
  cbn [fst] in *. apply in_or_app. right. now apply in_map.
Qed.

(** C2 (as amended). For CloudFront, whose limits come from the built-in
    table, the limit phase records every configured quota whose code is in
    the table as a Success result carrying the table's limit (a code absent
    from the table yields no result, and no result of any service is ever
    Skipped); the usage collected for CloudFront is attached by the
    aggregator to those Success results, with the percent derived from the
    table's limit, both when the result is added after the usage was stored
    and when [set_usage_data] runs over stored results. *)
Theorem cloudfront_limits_are_success_results (w : World)
  (cache : option QuotaLimitCache.t) (uc : gset string)
  (aws : list (string * service_config)) (a rg : string)
  (creds : option credentials) (collect_limit collect_usage : bool) (s : state)
  (quotas : list QuotaItem) :
  (forall config, In ("cloudfront", config) aws -> config = Static quotas) ->
  (forall r : QuotaResult,
     In (ResultItem r)
        (fst (_collect_account_region_quotas w cache uc aws a rg creds collect_limit
                collect_usage s)) ->
     (status r = SUCCESS \/ status r = FAILED) /\
     (service r = "cloudfront" -> In r (cloudfront_results a "us-east-1" quotas))) /\
  (collect_limit = true -> In ("cloudfront", Static quotas) aws ->
   forall r : QuotaResult,
     In r (cloudfront_results a "us-east-1" quotas) ->
     In (ResultItem r)
        (fst (_collect_account_region_quotas w cache uc aws a rg creds collect_limit
                collect_usage s))) /\
  (forall r : QuotaResult,
     In r (cloudfront_results a "us-east-1" quotas) ->
     status r = SUCCESS /\ service r = "cloudfront" /\
     account_id r = a /\ region r = "us-east-1" /\
     exists (quota : QuotaItem) (limit : float),
       In quota quotas /\ quota_code r = item_quota_code quota /\
       cloudfront_default_limits !! quota_code r = Some limit /\
       limit_of_result r = limit /\ PrimFloat.ltb 0 limit = true /\
       (forall (c : Collector.t) (u : float),
          _get_usage_value c a "us-east-1" "cloudfront" (quota_code r) = Some u ->
          quota_limit (add_result r c) !! labels_of_result r = Some limit /\
          quota_usage (add_result r c) !! labels_of_result r = Some u /\
          quota_usage_percent (add_result r c) !! labels_of_result r
          = Some (PrimFloat.mul (PrimFloat.div u limit) 100)) /\
       (forall (c : Collector.t) (usage : gmap string float) (u : float),
          In r (results c) ->
          usage !! quota_code r = Some u ->
          (forall x, In x (results c) -> is_skipped x = false) ->
          (forall x, In x (results c) -> quota_name x = quota_name r ->
             quota_code x = quota_code r -> limit_of_result x = limit) ->
          quota_usage (set_usage_data a "us-east-1" "cloudfront" usage c)
            !! labels_of_result r = Some u /\
          quota_usage_percent (set_usage_data a "us-east-1" "cloudfront" usage c)
            !! labels_of_result r
          = Some (PrimFloat.mul (PrimFloat.div u limit) 100))).
Proof.
  intros Hcf. split; [|split].
  - intros r Hin.
    apply region_results_in in Hin as (_ & s1 & Hin).
    apply limit_loop_in in Hin as (sv & config & cl' & s' & Hcfg & Hr).
    pose proof (limit_service_step_recorded _ _ _ _ _ _ _ _ _ _ Hr) as [Hsv Hst].
    split; [exact Hst|]. intros Hcloud. rewrite Hcloud in Hsv. subst sv.
    rewrite (Hcf config Hcfg) in Hr. now rewrite cloudfront_step in Hr.
  - intros -> Hin r Hr.
    destruct (region_results_has w cache uc aws a rg creds collect_usage s _ _ Hin)
      as (cl' & s' & H).
    apply H. now rewrite cloudfront_step.
  - intros r Hr. apply cloudfront_results_in in Hr as (q & l & Hq & Hl & ->).
    cbn [status service account_id region quota_code].
    repeat (split; [reflexivity|]).
    exists q, l. split; [exact Hq|]. split; [reflexivity|]. split; [exact Hl|].
    split; [reflexivity|].
    pose proof (cloudfront_limit_positive _ _ Hl) as Hpos.
    split; [exact Hpos|]. split.
    + intros c u Hu.
      match goal with |- context [add_result ?r0 c] => set (r := r0) end.
      destruct (add_result_success c r eq_refl) as (A & B & C).
      change (_get_usage_value c (account_id r) (region r) (service r) (quota_code r))
        with (_get_usage_value c a "us-east-1" "cloudfront" (item_quota_code q)) in B, C.
      rewrite Hu in B, C. split; [exact A|]. split; [exact B|].
      rewrite C. unfold percent_of.
      change (limit_of_result r) with l. now rewrite Hpos.
    + intros c usage u Hin Hu Hnoskip Hlim.
      match goal with |- context [labels_of_result ?r0] => set (r := r0) in * end.
      destruct (set_usage_data_success c r _ usage u Hin eq_refl eq_refl eq_refl
                  eq_refl eq_refl Hu Hnoskip Hlim) as (A & B).
      unfold r in A, B. cbn [account_id region service] in A, B. fold r in A, B.
      split; [exact A|]. rewrite B. unfold percent_of.
      change (limit_of_result r) with l. now rewrite Hpos.
Qed.

End CloudFront.

Section RegionFallback.
Import Orchestrator.

Lemma for_each_has {A B : Type} (xs : list A) (body : A -> M (list B)) (x : A) :
  forall s, In x xs ->
  exists s', forall b, In b (fst (body x s')) -> In b (fst (for_each xs body s)).
Proof.
  induction xs as [|y xs IH]; intros s; [intros []|].
  cbn [for_each]. unfold bind, ret.
  destruct (body y s) as [r s1] eqn:E.
  destruct (for_each xs body s1) as [rs s2] eqn:E2. cbn [fst].
  intros [->|Hin].
  - exists s. rewrite E. cbn [fst]. intros b Hb. apply in_or_app. now left.
  - destruct (IH s1 Hin) as (s' & H). exists s'. intros b Hb.
    apply in_or_app. right. specialize (H b Hb). now rewrite E2 in H.
Qed.

Lemma result_of_fetch_fields (sv : string) (quota : QuotaItem) (a rg : string)
  (r : outcome (option quota_info)) :
  service (result_of_fetch sv quota a rg r) = sv /\
  quota_code (result_of_fetch sv quota a rg r) = item_quota_code quota /\
  account_id (result_of_fetch sv quota a rg r) = a /\
  region (result_of_fetch sv quota a rg r) = rg.
Proof.
  unfold result_of_fetch.
  destruct r as [[qi|]|e]; [destruct (dict_truthy qi)| |]; cbn; auto.
Qed.

Lemma collect_static_quota_yields (w : World) (cache : option QuotaLimitCache.t)
  (cl : ServiceQuotasClient) (a sv rg : string) (q : QuotaItem) (s : state) :
  exists r, In r (fst (collect_static_quota w cache cl a sv rg q s)) /\
    service r = sv /\ quota_code r = item_quota_code q /\
    account_id r = a /\ region r = rg.
Proof.
  unfold collect_static_quota, bind, ret.
  destruct (cache_lookup cache a rg sv (item_quota_code q) s) as [cached s1].
  match goal with
  | |- context [let (a0, s') := ?m s1 in _] => destruct (m s1) as [o s2]
  end.
  exists (result_of_fetch sv q a rg o).
  split; [simpl; auto|apply result_of_fetch_fields].
Qed.

(** The fallback of [_collect_account_quotas]: with no active region the one
    region visited is [us-east-1], and every configured service is collected
    there. *)
Lemma fallback_region (w : World) (cache : option QuotaLimitCache.t)
  (uc : gset string) (aws : list (string * service_config))
  (collect_limit collect_usage : bool) (a : string) (s : state) :
  get_regions w a = Returns [] ->
  exists creds,
    fst (_collect_account_quotas w cache uc aws collect_limit collect_usage a s)
    = fst (_collect_account_region_quotas w cache uc aws a "us-east-1" creds
             collect_limit collect_usage s).
Proof.
  intros Hr. unfold _collect_account_quotas. rewrite Hr.
  match goal with
  | |- context [_collect_account_region_quotas w cache uc aws a _ ?c _ _] => exists c
  end.
  cbn [for_each]. unfold bind, ret.
  match goal with
  | |- context [let (a0, s') := ?m s in _] => destruct (m s) as [items s1]
  end.
  cbn [fst]. apply app_nil_r.
Qed.

(** C3, what the code does. For an account with no active region, the
    collection falls back to [us-east-1] and there records a result for every
    statically configured quota of every service that is not global (and not
    CloudFront), labelled with region [us-east-1]: regional services are
    collected, not left out. *)
Theorem region_fallback_collects_regional_services (w : World)
  (cache : option QuotaLimitCache.t) (uc : gset string)
  (aws : list (string * service_config)) (collect_usage : bool) (a : string)
  (s : state) (sv : string) (quotas : list QuotaItem) (q : QuotaItem) :
  get_regions w a = Returns [] ->
  In (sv, Static quotas) aws ->
  in_list sv global_services = false ->
  In q quotas ->
  exists r : QuotaResult,
    In (ResultItem r)
       (fst (_collect_account_quotas w cache uc aws true collect_usage a s)) /\
    service r = sv /\ quota_code r = item_quota_code q /\
    account_id r = a /\ region r = "us-east-1".
Proof.
  intros Hregions Hcfg Hglobal Hq.
  destruct (fallback_region w cache uc aws true collect_usage a s Hregions)
    as (creds & ->).
  destruct (region_results_has w cache uc aws a "us-east-1" creds collect_usage s
              sv (Static quotas) Hcfg) as (cl' & s' & Hstep).
  assert (String.eqb sv "cloudfront" = false) as Hncf.
  { destruct (String.eqb_spec sv "cloudfront") as [->|]; [discriminate|reflexivity]. }
  unfold limit_service_step in Hstep. rewrite Hglobal, Hncf in Hstep.
  cbn [andb] in Hstep. unfold bind, ret in Hstep.
  destruct (for_each_has quotas
              (collect_static_quota w cache cl' a sv "us-east-1") q s' Hq)
    as (s'' & Hfor).
  destruct (collect_static_quota_yields w cache cl' a sv "us-east-1" q s'')
    as (r & Hr & Hfields).
  exists r. split; [|exact Hfields].
  apply Hstep. specialize (Hfor r Hr).
  destruct (for_each quotas _ s') as [rs s2]. exact Hfor.
Qed.

(** The account has no active region and the configuration names the
    regional service [ec2]: its quota is fetched and recorded in
    [us-east-1]. *)
Lemma region_fallback_collects_regional_services_witness :
  exists r : QuotaResult,
    In (ResultItem r)
       (fst (_collect_account_quotas Examples.w_ok None ∅ Examples.aws_route53_ec2
               true false "111" Examples.s0)) /\
    service r = "ec2" /\ quota_code r = "L-1216C47A" /\
    account_id r = "111" /\ region r = "us-east-1".
Proof.
  apply (region_fallback_collects_regional_services Examples.w_ok None ∅
           Examples.aws_route53_ec2 false "111" Examples.s0 "ec2"
           [Examples.ec2_quota] Examples.ec2_quota).
  - reflexivity.
  - right. left. reflexivity.
  - reflexivity.
  - left. reflexivity.
Defined.

(** The same input, evaluated: one result for the global service and one
    for the regional service, both successes in [us-east-1]. *)
Lemma region_fallback_evaluated :
  map (fun r => (service r, region r, status r))
    (limit_results_of
       (fst (_collect_account_quotas Examples.w_ok None ∅ Examples.aws_route53_ec2
               true false "111" Examples.s0)))
  = [("route53", "us-east-1", SUCCESS); ("ec2", "us-east-1", SUCCESS)].
Proof. vm_compute. reflexivity. Qed.

End RegionFallback.

(** ** Witnesses and counterexamples on the concrete inputs *)

Section Concrete.
Import Orchestrator Collector.

(** Three throttled fetches in a row: the loop waits 2 s and 4 s, the client
    another 2 s in each call, and the third error is re-raised. *)
Lemma retry_backoff_policy_witness :
  fst (fetch_with_retry Examples.w_throttle Examples.default_client "ec2"
         "L-1216C47A" Examples.s0) = Raises Examples.throttle /\
  backoff_waits
    (new_events Examples.s0
       (snd (fetch_with_retry Examples.w_throttle Examples.default_client "ec2"
               "L-1216C47A" Examples.s0))) = [2%Q; 4%Q] /\
  client_waits
    (new_events Examples.s0
       (snd (fetch_with_retry Examples.w_throttle Examples.default_client "ec2"
               "L-1216C47A" Examples.s0))) = [2%Q; 2%Q; 2%Q].
Proof.
  destruct (retry_backoff_policy Examples.w_throttle Examples.default_client "ec2"
              "L-1216C47A" Examples.s0) as (_ & _ & _ & _ & H & _).
  destruct (H Examples.throttle Examples.throttle Examples.throttle)
    as (A & _ & B & _ & C); try reflexivity.
  destruct C as [C _]; try reflexivity.
  split; [exact A|]. split; [exact B|exact C].
Defined.

(** On three consecutive throttling errors the time slept before the fetch
    is abandoned is twelve seconds, not six. *)
Lemma retry_total_wait_counterexample :
  is_throttled (remote_get_service_quota Examples.w_throttle 0
                  Examples.default_client "ec2" "L-1216C47A") = true /\
  is_throttled (remote_get_service_quota Examples.w_throttle 1
                  Examples.default_client "ec2" "L-1216C47A") = true /\
  is_throttled (remote_get_service_quota Examples.w_throttle 2
                  Examples.default_client "ec2" "L-1216C47A") = true /\
  all_waits
    (new_events Examples.s0
       (snd (fetch_with_retry Examples.w_throttle Examples.default_client "ec2"
               "L-1216C47A" Examples.s0))) = [2%Q; 2%Q; 2%Q; 4%Q; 2%Q] /\
  (total (all_waits
            (new_events Examples.s0
               (snd (fetch_with_retry Examples.w_throttle Examples.default_client
                       "ec2" "L-1216C47A" Examples.s0)))) == 12)%Q /\
  ~ (total (all_waits
              (new_events Examples.s0
                 (snd (fetch_with_retry Examples.w_throttle Examples.default_client
                         "ec2" "L-1216C47A" Examples.s0)))) == 6)%Q.
Proof.
  repeat (split; [vm_compute; reflexivity|]).
  intros H. vm_compute in H. discriminate.
Qed.

(** An entry set at 1000 s with a TTL of 60 s, read at 1030 s and at
    1100 s, in both caches. *)
Lemma cache_ttl_semantics_witness :
  fst (MemoryCache.get 1030%Q "k" (MemoryCache.set 1000%Q "k" 7%nat 60 ∅)) = Some 7%nat /\
  fst (QuotaLimitCache.get Examples.limit_cache 1030%Q "111" "us-east-1" "ec2"
         "L-1216C47A"
         (QuotaLimitCache.set Examples.limit_cache 1000%Q "111" "us-east-1" "ec2"
            "L-1216C47A" Examples.quota_data ∅)) = Some Examples.quota_data.
Proof.
  destruct (@cache_ttl_semantics nat ∅ "k" 7%nat 60 1000%Q 1030%Q
              Examples.limit_cache ∅ "111" "us-east-1" "ec2" "L-1216C47A"
              Examples.quota_data) as (A & _ & B & _).
  rewrite A by (vm_compute; discriminate).
  rewrite B; [|reflexivity|vm_compute; discriminate].
  split; reflexivity.
Defined.


(** A skipped CloudFront result followed by a usage of 50. *)
Lemma usage_without_limit_witness :
  quota_usage
    (set_usage_data "111" "us-east-1" "cloudfront" Examples.usage_50
       (add_result Examples.skipped_result init))
    !! labels_of_result Examples.skipped_result = Some 50%float /\
  quota_usage_percent
    (set_usage_data "111" "us-east-1" "cloudfront" Examples.usage_50
       (add_result Examples.skipped_result init))
    !! labels_of_result Examples.skipped_result = Some NaN /\
  quota_limit
    (set_usage_data "111" "us-east-1" "cloudfront" Examples.usage_50
       (add_result Examples.skipped_result init))
    !! labels_of_result Examples.skipped_result = None.
Proof.
  destruct (usage_without_limit init (add_result Examples.skipped_result init)
              Examples.skipped_result Examples.usage_50 50%float)
    as ((L0 & _) & U & P & L).
  - reflexivity.
  - left. reflexivity.
  - vm_compute. reflexivity.
  - split; [exact U|]. split; [exact P|].
    change (account_id Examples.skipped_result) with "111" in L.
    change (region Examples.skipped_result) with "us-east-1" in L.
    change (service Examples.skipped_result) with "cloudfront" in L.
    rewrite L, L0. reflexivity.
Defined.

(** One account, CloudFront configured with a quota of the table. *)
Lemma cloudfront_limits_are_success_results_witness :
  In (ResultItem Examples.result_200)
     (fst (_collect_account_region_quotas Examples.w_ok None {["cloudfront"]}
             Examples.aws_cloudfront "111" "us-east-1" None true true Examples.s0)).
Proof.
  destruct (cloudfront_limits_are_success_results Examples.w_ok None {["cloudfront"]}
              Examples.aws_cloudfront "111" "us-east-1" None true true Examples.s0
              [Examples.cloudfront_quota]) as (_ & H & _).
  - intros config [[= <-]|[]]. reflexivity.
  - apply H; [reflexivity|now left|]. vm_compute. now left.
Defined.

(** The CloudFront quota is recorded as a success, and after a whole cycle
    over two accounts its limit series holds 200 and its percent 25. *)
Lemma cloudfront_skipped_counterexample :
  map (fun r => (service r, status r))
    (limit_results_of
       (fst (_collect_account_region_quotas Examples.w_ok None {["cloudfront"]}
               Examples.aws_cloudfront "111" "us-east-1" None true true Examples.s0)))
  = [("cloudfront", SUCCESS)] /\
  map status
    (results (fst (collect_quotas Examples.w_ok None {["cloudfront"]}
                     Examples.aws_cloudfront ["111"; "222"] ["222"; "111"] true true
                     init Examples.s0)))
  = [SUCCESS; SUCCESS] /\
  quota_limit
    (fst (collect_quotas Examples.w_ok None {["cloudfront"]} Examples.aws_cloudfront
            ["111"; "222"] ["222"; "111"] true true init Examples.s0))
    !! labels_of_result Examples.result_200 = Some 200%float /\
  quota_usage_percent
    (fst (collect_quotas Examples.w_ok None {["cloudfront"]} Examples.aws_cloudfront
            ["111"; "222"] ["222"; "111"] true true init Examples.s0))
    !! labels_of_result Examples.result_200 = Some 25%float.
Proof. repeat split; vm_compute; reflexivity. Qed.

End Concrete.

Section ConcreteRegions.
Import ActiveRegionDiscoverer.



End ConcreteRegions.

(** ** More on the caches *)

Section MemoryCacheMore.
Context {V : Type}.
Implicit Types c : gmap string (V * Q).

Lemma cleanup_expired_lookup c (t : Q) (k : string) (v : V) (e : Q) :
  MemoryCache.cleanup_expired t c !! k = Some (v, e) <->
  c !! k = Some (v, e) /\ (t <= e)%Q.
Proof.
  unfold MemoryCache.cleanup_expired.
  rewrite map_lookup_filter_Some. cbn [snd].
  rewrite Qgtb_false. tauto.
Qed.

Lemma cleanup_expired_lookup_None c (t : Q) (k : string) :
  MemoryCache.cleanup_expired t c !! k = None <->
  c !! k = None \/ exists v e, c !! k = Some (v, e) /\ (e < t)%Q.
Proof.
  unfold MemoryCache.cleanup_expired.
  rewrite map_lookup_filter_None. split.
  - intros [H | H]; [now left |].
    destruct (c !! k) as [[v e] |] eqn:E; [right | now left].
    exists v, e. split; [reflexivity |].
    specialize (H _ eq_refl). cbn [snd] in H.
    apply Qgtb_true. now destruct (Qgtb t e).
  - intros [H | (v & e & H & Hlt)]; [now left | right].
    intros x Hx. rewrite H in Hx. injection Hx as <-. cbn [snd].
    apply Qgtb_true in Hlt. rewrite Hlt. discriminate.
Qed.

(** X1. [MemoryCache.cleanup_expired] at instant [t] keeps exactly the
    entries whose expiry is not before [t]. A [get] at [t] answers the same
    with or without the cleanup, and after the cleanup a [get] at [t] or
    earlier finds nothing left to evict. *)
Theorem cleanup_expired_keeps_live_entries c (t : Q) (k : string) :
  (forall (v : V) (e : Q),
     MemoryCache.cleanup_expired t c !! k = Some (v, e) <->
     c !! k = Some (v, e) /\ (t <= e)%Q) /\
  fst (MemoryCache.get t k (MemoryCache.cleanup_expired t c))
    = fst (MemoryCache.get t k c) /\
  snd (MemoryCache.get t k (MemoryCache.cleanup_expired t c))
    = MemoryCache.cleanup_expired t c /\
  (forall now : Q, (now <= t)%Q ->
     fst (MemoryCache.get now k (MemoryCache.cleanup_expired t c)) = None ->
     fst (MemoryCache.get t k c) = None).
Proof.
  split; [intros; apply cleanup_expired_lookup |].
  assert (G : forall now, (now <= t)%Q ->
            MemoryCache.get now k (MemoryCache.cleanup_expired t c)
            = (match MemoryCache.cleanup_expired t c !! k with
               | Some (v, _) => Some v | None => None end,
               MemoryCache.cleanup_expired t c)).
  { intros now Hn. unfold MemoryCache.get.
    destruct (MemoryCache.cleanup_expired t c !! k) as [[v e] |] eqn:E; [| reflexivity].
    apply cleanup_expired_lookup in E as [_ Hle].
    assert (Qgtb now e = false) as -> by (apply Qgtb_false; lra).
    reflexivity. }
  assert (F : fst (MemoryCache.get t k c)
              = match MemoryCache.cleanup_expired t c !! k with
                | Some (v, _) => Some v | None => None end).
  { unfold MemoryCache.get.
    destruct (MemoryCache.cleanup_expired t c !! k) as [[v e] |] eqn:E.
    - apply cleanup_expired_lookup in E as [-> Hle].
      assert (Qgtb t e = false) as -> by (apply Qgtb_false; lra). reflexivity.
    - apply cleanup_expired_lookup_None in E as [-> | (v & e & -> & Hlt)]; [reflexivity |].
      apply Qgtb_true in Hlt. now rewrite Hlt. }
  repeat split.
  - rewrite G by lra. now rewrite F.
  - now rewrite G by lra.
  - intros now Hn. rewrite G by exact Hn. now rewrite F.
Qed.

Lemma memory_get_fst c (now : Q) (k : string) :
  fst (MemoryCache.get now k c)
  = match c !! k with
    | Some (v, e) => if Qgtb now e then None else Some v
    | None => None
    end.
Proof.
  unfold MemoryCache.get. destruct (c !! k) as [[v e] |]; [| reflexivity].
  now destruct (Qgtb now e).
Qed.

(** X2. The keys of a [MemoryCache] are independent: setting, deleting
    or reading (and thereby evicting) one key never changes what [get]
    answers for another key. A key that was deleted, or any key after
    [clear], is absent. *)
Theorem memory_cache_keys_are_independent c (k k' : string) (v : V) (ttl : Z)
  (t now : Q) :
  k <> k' ->
  fst (MemoryCache.get now k' (MemoryCache.set t k v ttl c))
    = fst (MemoryCache.get now k' c) /\
  fst (MemoryCache.get now k' (MemoryCache.delete k c))
    = fst (MemoryCache.get now k' c) /\
  fst (MemoryCache.get now k' (snd (MemoryCache.get t k c)))
    = fst (MemoryCache.get now k' c) /\
  fst (MemoryCache.get now k (MemoryCache.delete k c)) = None /\
  fst (MemoryCache.get now k (MemoryCache.clear c)) = None.
Proof.
  intros Hk. rewrite !memory_get_fst. repeat split.
  - unfold MemoryCache.set. cbv zeta. now rewrite lookup_insert_ne by exact Hk.
  - unfold MemoryCache.delete.
    destruct (c !! k); [now rewrite lookup_delete_ne by exact Hk | reflexivity].
  - unfold MemoryCache.get.
    destruct (c !! k) as [[v0 e0] |]; [| reflexivity].
    destruct (Qgtb t e0); [| reflexivity]. cbn [snd].
    now rewrite lookup_delete_ne by exact Hk.
  - unfold MemoryCache.delete.
    destruct (c !! k) eqn:E; [now rewrite lookup_delete_eq | now rewrite E].
Qed.

End MemoryCacheMore.

Lemma memory_cache_keys_are_independent_witness :
  "a" <> "b" /\
  fst (MemoryCache.get 5%Q "b" (MemoryCache.set 0%Q "a" 1%nat 60 ∅))
    = fst (MemoryCache.get 5%Q "b" (∅ : gmap string (nat * Q))).
Proof.
  split; [discriminate |].
  apply (memory_cache_keys_are_independent ∅ "a" "b" 1%nat 60 0%Q 5%Q). discriminate.
Defined.

Section LimitCacheMore.
Import QuotaLimitCache.
Implicit Types fs : gmap (string * string * string) file.

Lemma limit_get_fst (qc : t) (now : Q) (a r sv code : string) fs :
  fst (get qc now a r sv code fs)
  = match fs !! (a, r, sv) with
    | Some (Json d) =>
        if Qgtb (now - default 0%Q (cd_timestamp d))%Q (inject_Z (cache_ttl qc))
        then None
        else match default ∅ (cd_quotas d) !! code with
             | Some q => if dict_truthy q then Some q else None
             | None => None
             end
    | _ => None
    end.
Proof.
  unfold get. destruct (fs !! (a, r, sv)) as [[| d] |]; try reflexivity.
  cbv zeta. destruct (Qgtb _ _); [reflexivity |].
  destruct (default ∅ (cd_quotas d) !! code) as [q |]; [| reflexivity].
  now destruct (dict_truthy q).
Qed.

Lemma limit_get_snd (qc : t) (now : Q) (a r sv code : string) fs :
  snd (get qc now a r sv code fs) = fs.
Proof.
  unfold get. destruct (fs !! (a, r, sv)) as [[| d] |]; try reflexivity.
  cbv zeta. destruct (Qgtb _ _); [reflexivity |].
  destruct (default ∅ (cd_quotas d) !! code) as [q |]; [| reflexivity].
  now destruct (dict_truthy q).
Qed.

(** X3. The timestamp of a [QuotaLimitCache] file is shared by all the
    quotas of the service: writing one quota code renews every other code
    stored in the same file, so an entry written long ago is served again
    for a whole TTL after any later write to its file. *)
Theorem limit_cache_write_renews_whole_file (qc : t) (a r sv code1 code2 : string)
  (d1 d2 : quota_info) (t1 t2 now : Q) fs :
  code1 <> code2 ->
  dict_truthy d1 = true ->
  (now <= t2 + inject_Z (cache_ttl qc))%Q ->
  fst (get qc now a r sv code1
         (set qc t2 a r sv code2 d2 (set qc t1 a r sv code1 d1 fs)))
  = Some d1.
Proof.
  intros Hc Hd Hn. rewrite limit_get_fst. unfold set.
  rewrite !lookup_insert_eq. cbn [cd_timestamp cd_quotas default from_option id].
  assert (Qgtb (now - t2)%Q (inject_Z (cache_ttl qc)) = false) as ->
    by (apply Qgtb_false; lra).
  rewrite lookup_insert_ne by congruence.
  rewrite lookup_insert_eq. now rewrite Hd.
Qed.

(** X4. A cache file that cannot be parsed is a miss for every quota
    code at every instant, and the next [set] replaces it by a file that
    holds the written quota only: that code is then served within the TTL,
    every other code is absent. *)
Theorem limit_cache_unreadable_file_is_replaced (qc : t) (a r sv code : string)
  (d : quota_info) (t0 now : Q) fs :
  fs !! (a, r, sv) = Some Unreadable ->
  (forall (now' : Q) (code' : string), get qc now' a r sv code' fs = (None, fs)) /\
  set qc t0 a r sv code d fs !! (a, r, sv)
    = Some (Json (mk_cache_data (Some t0) (Some a) (Some r) (Some sv)
                    (Some (<[code := d]> ∅)))) /\
  (dict_truthy d = true -> (now <= t0 + inject_Z (cache_ttl qc))%Q ->
   fst (get qc now a r sv code (set qc t0 a r sv code d fs)) = Some d) /\
  (forall code', code' <> code ->
   fst (get qc now a r sv code' (set qc t0 a r sv code d fs)) = None).
Proof.
  intros Hf. repeat split.
  - intros now' code'. unfold get. now rewrite Hf.
  - unfold set. rewrite Hf. now rewrite lookup_insert_eq.
  - intros Hd Hn. now rewrite limit_get_live.
  - intros code' Hc. rewrite limit_get_fst. unfold set. rewrite Hf.
    rewrite lookup_insert_eq. cbn [cd_timestamp cd_quotas default from_option id].
    destruct (Qgtb _ _); [reflexivity |].
    rewrite lookup_insert_ne by congruence. now rewrite lookup_empty.
Qed.

(** X5. The files of the limit cache are independent: a [set] for one
    (account, region, service) never changes what [get] answers for another
    one; and [get] never changes the directory, not even for an expired or
    unreadable file. *)
Theorem limit_cache_files_are_independent (qc : t) (a r sv code : string)
  (a' r' sv' code' : string) (d : quota_info) (t0 now : Q) fs :
  (a', r', sv') <> (a, r, sv) ->
  fst (get qc now a' r' sv' code' (set qc t0 a r sv code d fs))
    = fst (get qc now a' r' sv' code' fs) /\
  snd (get qc now a r sv code fs) = fs.
Proof.
  intros Hk. split; [| apply limit_get_snd].
  rewrite !limit_get_fst. unfold set. now rewrite lookup_insert_ne by congruence.
Qed.

Lemma given_Some (x : option string) (s : string) :
  given x = Some s <-> x = Some s /\ s <> "".
Proof.
  destruct x as [[| c rest] |]; cbn; split; try (intros [? ?]); try congruence.
  - intros [= <-]. split; congruence.
Qed.

Lemma given_None (x : option string) :
  given x = None <-> x = None \/ x = Some "".
Proof.
  destruct x as [[| c rest] |]; cbn; split; try tauto; try congruence.
  intros [? | ?]; congruence.
Qed.

(** X6. What [QuotaLimitCache.clear] removes is decided by the first
    argument that is missing or empty. Without an account everything is
    removed, whatever region and service were given; with an account but no
    region every file of that account is removed, whatever service was
    given; with account and region but no service the files of that region;
    with all three that one file. Every other file is kept. *)
Theorem limit_cache_clear_scope (account_id region service : option string)
  (a r sv : string) fs :
  (given account_id = None -> clear account_id region service fs !! (a, r, sv) = None) /\
  (forall a0, given account_id = Some a0 -> given region = None ->
     clear account_id region service fs !! (a, r, sv)
     = if String.eqb a a0 then None else fs !! (a, r, sv)) /\
  (forall a0 r0, given account_id = Some a0 -> given region = Some r0 ->
     given service = None ->
     clear account_id region service fs !! (a, r, sv)
     = if String.eqb a a0 && String.eqb r r0 then None else fs !! (a, r, sv)) /\
  (forall a0 r0 sv0, given account_id = Some a0 -> given region = Some r0 ->
     given service = Some sv0 ->
     clear account_id region service fs !! (a, r, sv)
     = if String.eqb a a0 && String.eqb r r0 && String.eqb sv sv0 then None
       else fs !! (a, r, sv)).
Proof.
  unfold clear. repeat split.
  - intros ->. destruct (given region), (given service); apply lookup_empty.
  - intros a0 -> ->.
    assert (E : filter (fun kv : string * string * string * file =>
                          negb (String.eqb (fst (fst (fst kv))) a0) = true) fs !! (a, r, sv)
                = if String.eqb a a0 then None else fs !! (a, r, sv)).
    { destruct (String.eqb a a0) eqn:Ea.
      - apply map_lookup_filter_None. right. intros x _. cbn. rewrite Ea. discriminate.
      - destruct (fs !! (a, r, sv)) as [x |] eqn:Ef.
        + apply map_lookup_filter_Some. split; [exact Ef |]. cbn. now rewrite Ea.
        + apply map_lookup_filter_None. now left. }
    destruct (given service); exact E.
  - intros a0 r0 -> -> ->.
    destruct (String.eqb a a0 && String.eqb r r0) eqn:Ea.
    + apply map_lookup_filter_None. right. intros x _. cbn. rewrite Ea. discriminate.
    + destruct (fs !! (a, r, sv)) as [x |] eqn:Ef.
      * apply map_lookup_filter_Some. split; [exact Ef |]. cbn. now rewrite Ea.
      * apply map_lookup_filter_None. now left.
  - intros a0 r0 sv0 -> -> ->.
    destruct (String.eqb a a0) eqn:Ea; cbn [andb].
    2:{ apply lookup_delete_ne. apply String.eqb_neq in Ea. congruence. }
    destruct (String.eqb r r0) eqn:Er; cbn [andb].
    2:{ apply lookup_delete_ne. apply String.eqb_neq in Er. congruence. }
    destruct (String.eqb sv sv0) eqn:Es.
    + apply String.eqb_eq in Ea, Er, Es. subst. apply lookup_delete_eq.
    + apply lookup_delete_ne. apply String.eqb_neq in Es. congruence.
Qed.

End LimitCacheMore.

Lemma limit_cache_write_renews_whole_file_witness :
  fst (QuotaLimitCache.get Examples.limit_cache 100001%Q "111" "us-east-1" "ec2" "L-1216C47A"
         (QuotaLimitCache.set Examples.limit_cache 100000%Q "111" "us-east-1" "ec2" "L-0263D0A3"
            Examples.quota_data
            (QuotaLimitCache.set Examples.limit_cache 0%Q "111" "us-east-1" "ec2" "L-1216C47A"
               Examples.quota_data ∅)))
  = Some Examples.quota_data.
Proof.
  apply limit_cache_write_renews_whole_file;
    [discriminate | reflexivity | vm_compute; discriminate].
Defined.

Lemma limit_cache_unreadable_file_is_replaced_witness :
  fst (QuotaLimitCache.get Examples.limit_cache 5%Q "111" "us-east-1" "ec2" "L-1216C47A"
         (QuotaLimitCache.set Examples.limit_cache 0%Q "111" "us-east-1" "ec2" "L-1216C47A"
            Examples.quota_data
            (<[("111", "us-east-1", "ec2") := QuotaLimitCache.Unreadable]> ∅)))
  = Some Examples.quota_data.
Proof.
  apply (limit_cache_unreadable_file_is_replaced Examples.limit_cache "111" "us-east-1"
           "ec2" "L-1216C47A" Examples.quota_data 0%Q 5%Q
           (<[("111", "us-east-1", "ec2") := QuotaLimitCache.Unreadable]> ∅));
    [apply lookup_insert_eq | reflexivity | vm_compute; discriminate].
Defined.

Lemma limit_cache_files_are_independent_witness :
  fst (QuotaLimitCache.get Examples.limit_cache 5%Q "111" "eu-west-1" "ec2" "L-1216C47A"
         (QuotaLimitCache.set Examples.limit_cache 0%Q "111" "us-east-1" "ec2" "L-1216C47A"
            Examples.quota_data ∅))
  = fst (QuotaLimitCache.get Examples.limit_cache 5%Q "111" "eu-west-1" "ec2" "L-1216C47A" ∅).
Proof.
  apply (limit_cache_files_are_independent Examples.limit_cache "111" "us-east-1" "ec2"
           "L-1216C47A" "111" "eu-west-1" "ec2" "L-1216C47A" Examples.quota_data 0%Q 5%Q ∅).
  discriminate.
Defined.

(** ** The credential and region providers *)

Section Credentials.
Import CMDBCredentialProvider.

Lemma fetch_credentials_run (env : Env) (a : string) (self : t) :
  fst (fetch_credentials env a self) = db_answer env (db_calls self) a /\
  db_calls (snd (fetch_credentials env a self)) = S (db_calls self) /\
  _cache (snd (fetch_credentials env a self))
    = match db_answer env (db_calls self) a with
      | Some creds =>
          <[a := (creds, (time_at env (clock_reads self) + inject_Z cache_ttl)%Q)]>
            (_cache self)
      | None => _cache self
      end /\
  clock_reads (snd (fetch_credentials env a self))
    = match db_answer env (db_calls self) a with
      | Some _ => S (clock_reads self)
      | None => clock_reads self
      end.
Proof.
  unfold fetch_credentials, db_answer.
  destruct (account_credentials_at env (db_calls self)) as [m | e]; [| now cbn].
  destruct (m !! a) as [creds |]; [| now cbn].
  destruct (dict_nonempty creds); now cbn.
Qed.

(** X7. When the database holds credentials for an account that is not
    cached, [get_credentials] returns them with one database call; a second
    call whose clock reading is less than 3600 seconds later returns the
    same credentials without a database call and leaves the cache as it is;
    a second call at 3600 seconds or later asks the database again and
    returns what it holds then, and when that is nothing the account is no
    longer cached. *)
Theorem credentials_are_cached_for_an_hour (env : Env) (a : string) (self : t)
  (creds : credentials) :
  _cache self !! a = None ->
  db_answer env (db_calls self) a = Some creds ->
  let self1 := snd (get_credentials env a self) in
  let t1 := time_at env (clock_reads self) in
  let t2 := time_at env (S (clock_reads self)) in
  fst (get_credentials env a self) = Some creds /\
  db_calls self1 = S (db_calls self) /\
  ((t2 < t1 + 3600)%Q ->
   fst (get_credentials env a self1) = Some creds /\
   db_calls (snd (get_credentials env a self1)) = S (db_calls self) /\
   _cache (snd (get_credentials env a self1)) = _cache self1) /\
  ((t1 + 3600 <= t2)%Q ->
   fst (get_credentials env a self1) = db_answer env (S (db_calls self)) a /\
   db_calls (snd (get_credentials env a self1)) = S (S (db_calls self)) /\
   (db_answer env (S (db_calls self)) a = None ->
    _cache (snd (get_credentials env a self1)) !! a = None)).
Proof.
  intros Hc Hdb self1 t1 t2.
  assert (E1 : get_credentials env a self = fetch_credentials env a self)
    by (unfold get_credentials; now rewrite Hc).
  destruct (fetch_credentials_run env a self) as (F1 & F2 & F3 & F4).
  rewrite Hdb in F1, F3, F4.
  assert (C1 : _cache self1 !! a = Some (creds, (t1 + inject_Z cache_ttl)%Q)).
  { unfold self1. rewrite E1, F3. apply lookup_insert_eq. }
  assert (R1 : clock_reads self1 = S (clock_reads self))
    by (unfold self1; now rewrite E1).
  assert (D1 : db_calls self1 = S (db_calls self))
    by (unfold self1; now rewrite E1).
  split; [now rewrite E1 |]. split; [exact D1 |].
  split.
  - intros Hlt. unfold get_credentials at 1 2 3. rewrite C1, R1. fold t2.
    assert (Qgtb (t1 + inject_Z cache_ttl) t2 = true) as ->
      by (apply Qgtb_true; unfold cache_ttl; exact Hlt).
    cbn [fst snd db_calls _cache]. now rewrite D1.
  - intros Hge. unfold get_credentials at 1 2 3. rewrite C1, R1. fold t2.
    assert (Qgtb (t1 + inject_Z cache_ttl) t2 = false) as ->
      by (apply Qgtb_false; unfold cache_ttl; exact Hge).
    match goal with |- context [fetch_credentials env a ?x] =>
      destruct (fetch_credentials_run env a x) as (G1 & G2 & G3 & G4) end.
    cbn [db_calls _cache clock_reads] in G1, G2, G3, G4. rewrite D1 in G1, G2, G3.
    cbn [db_calls _cache clock_reads]. rewrite ?D1. split; [exact G1 |]. split; [exact G2 |].
    intros Hn. cbn [db_calls _cache clock_reads]. rewrite G3, Hn. apply lookup_delete_eq.
Qed.

(** X8. A miss is not cached: when the account is not cached and the
    database call fails or holds no non-empty entry for it, [get_credentials]
    returns [None] and leaves the cache unchanged, so the next call asks the
    database again. *)
Theorem credential_misses_are_not_cached (env : Env) (a : string) (self : t) :
  _cache self !! a = None ->
  db_answer env (db_calls self) a = None ->
  fst (get_credentials env a self) = None /\
  _cache (snd (get_credentials env a self)) = _cache self /\
  db_calls (snd (get_credentials env a self)) = S (db_calls self) /\
  fst (get_credentials env a (snd (get_credentials env a self)))
    = db_answer env (S (db_calls self)) a /\
  db_calls (snd (get_credentials env a (snd (get_credentials env a self))))
    = S (S (db_calls self)).
Proof.
  intros Hc Hdb.
  assert (E1 : get_credentials env a self = fetch_credentials env a self)
    by (unfold get_credentials; now rewrite Hc).
  destruct (fetch_credentials_run env a self) as (F1 & F2 & F3 & F4).
  rewrite Hdb in F1, F3, F4. rewrite E1.
  split; [exact F1 |]. split; [exact F3 |]. split; [exact F2 |].
  assert (E2 : get_credentials env a (snd (fetch_credentials env a self))
               = fetch_credentials env a (snd (fetch_credentials env a self)))
    by (unfold get_credentials; now rewrite F3, Hc).
  rewrite E2.
  destruct (fetch_credentials_run env a (snd (fetch_credentials env a self)))
    as (G1 & G2 & _). rewrite F2 in G1, G2. now split.
Qed.

End Credentials.

Section Regions.
Import CMDBRegionProvider.

(** X9. [CMDBRegionProvider.get_regions] remembers its first answer for
    an account without any expiry: once the discoverer has been asked (the
    answer is the discoverer's list for the account, or the empty list when
    it has none), every later call returns the same list whatever the
    environment and the cache files are by then, and touches nothing. *)
Theorem region_provider_memoises_without_expiry (self : t)
  (discoverer : ActiveRegionDiscoverer.t)
  (env : ActiveRegionDiscoverer.Env) (c : ascii) (rest : string)
  (s : ActiveRegionDiscoverer.state) :
  let a := String c rest in
  let first := get_regions self env (Some a) s in
  region_discoverer self = Some discoverer ->
  _ec2_regions_cache self !! a = None ->
  fst (fst first)
    = default [] (fst (ActiveRegionDiscoverer.discover_ec2_used_regions_from_provider
                         discoverer env true false s) !! a) /\
  forall (env' : ActiveRegionDiscoverer.Env) (s' : ActiveRegionDiscoverer.state),
    get_regions (snd (fst first)) env' (Some a) s'
    = (fst (fst first), snd (fst first), s').
Proof.
  intros a first Hd Hc. unfold first, get_regions, a, _load_ec2_regions.
  fold a. rewrite Hc, Hd.
  destruct (ActiveRegionDiscoverer.discover_ec2_used_regions_from_provider
              discoverer env true false s) as [m s1].
  cbn [fst snd]. split; [reflexivity |].
  intros env' s'. cbn [_ec2_regions_cache]. now rewrite lookup_insert_eq.
Qed.

(** X10. [get_regions] without an account id, or with the empty one,
    returns the empty list; an account already remembered (for instance from
    the map given to the constructor) is answered from memory; and without
    a discoverer the answer is the empty list, which is not remembered. None
    of these calls probes, reads a file or reads the clock. *)
Theorem region_provider_without_lookup (self : t)
  (env : ActiveRegionDiscoverer.Env) (s : ActiveRegionDiscoverer.state) :
  get_regions self env None s = ([], self, s) /\
  get_regions self env (Some "") s = ([], self, s) /\
  (forall (a : string) (regions : list string),
     a <> "" -> _ec2_regions_cache self !! a = Some regions ->
     get_regions self env (Some a) s = (regions, self, s)) /\
  (forall a : string,
     region_discoverer self = None -> _ec2_regions_cache self !! a = None ->
     get_regions self env (Some a) s = ([], self, s)) /\
  (forall (d : option ActiveRegionDiscoverer.t) (m : gmap string (list string))
          (a : string) (regions : list string),
     a <> "" -> m !! a = Some regions ->
     get_regions (init d (Some m)) env (Some a) s = (regions, init d (Some m), s)).
Proof.
  split; [reflexivity |]. split; [reflexivity |].
  assert (A : forall (self : t) (a : string) (regions : list string),
     a <> "" -> _ec2_regions_cache self !! a = Some regions ->
     get_regions self env (Some a) s = (regions, self, s)).
  { intros self0 [| c rest] regions Ha Hc; [congruence |].
    unfold get_regions, _load_ec2_regions. now rewrite Hc. }
  split; [apply A |]. split.
  - intros [| c rest] Hd Hc; [reflexivity |].
    unfold get_regions, _load_ec2_regions. now rewrite Hc, Hd.
  - intros d m a regions Ha Hm. apply A; [exact Ha | exact Hm].
Qed.

End Regions.

(** ** More on active-region discovery *)

Section RegionDiscoveryMore.
Import ActiveRegionDiscoverer.

Lemma discover_account_uncached (self : t) (env : Env) (use_cache force_refresh : bool)
  (cands : list string) (result : gmap string (list string))
  (entry : string * credentials) (s : state) :
  use_cache && negb force_refresh = false ->
  fst (discover_account self env use_cache force_refresh cands result entry s)
    = fresh_result env cands result entry /\
  probes (snd (discover_account self env use_cache force_refresh cands result entry s))
    = probes s ++ fresh_probes cands entry /\
  (use_cache = false ->
   snd (discover_account self env use_cache force_refresh cands result entry s)
   = mk_state (files s) (probes s ++ fresh_probes cands entry) (clock_reads s)).
Proof.
  intros Hm. destruct entry as [a creds].
  unfold discover_account, fresh_result, fresh_probes, keys_of. cbn [fst snd].
  destruct (access_key creds) as [ak |], (secret_key creds) as [sk |];
    try (cbn; rewrite app_nil_r; now destruct s).
  destruct (str_truthy ak && str_truthy sk);
    [| cbn; rewrite app_nil_r; now destruct s].
  rewrite Hm.
  destruct (probe_regions_run env a ak sk cands s) as (F & C & P).
  pose proof (probe_regions_result env a ak sk cands s) as R.
  destruct (probe_regions env a ak sk cands s) as [used s2]. cbn [fst snd] in *.
  unfold probed_regions. cbn [fst snd]. subst used.
  destruct use_cache; cbn [fst snd].
  - unfold _save_account_cache, time_time. cbn [fst snd probes]. split; [reflexivity |].
    split; [exact P | discriminate].
  - split; [reflexivity |]. split; [exact P |]. intros _.
    destruct s2; cbn in *; congruence.
Qed.

Lemma discover_accounts_uncached (self : t) (env : Env) (use_cache force_refresh : bool)
  (cands : list string) (entries : list (string * credentials)) :
  use_cache && negb force_refresh = false ->
  forall (result : gmap string (list string)) (s : state),
  fst (discover_accounts self env use_cache force_refresh cands result entries s)
    = fold_left (fresh_result env cands) entries result /\
  probes (snd (discover_accounts self env use_cache force_refresh cands result entries s))
    = probes s ++ flat_map (fresh_probes cands) entries /\
  (use_cache = false ->
   snd (discover_accounts self env use_cache force_refresh cands result entries s)
   = mk_state (files s) (probes s ++ flat_map (fresh_probes cands) entries)
       (clock_reads s)).
Proof.
  intros Hm. induction entries as [| entry rest IH]; intros result s.
  - cbn. rewrite app_nil_r. repeat split. now destruct s.
  - cbn [discover_accounts fold_left flat_map].
    destruct (discover_account_uncached self env use_cache force_refresh cands result
                entry s Hm) as (R & P & S).
    destruct (discover_account self env use_cache force_refresh cands result entry s)
      as [result' s'].
    cbn [fst snd] in *. subst result'.
    destruct (IH (fresh_result env cands result entry) s') as (R' & P' & S').
    split; [exact R' |]. split.
    + rewrite P', P. now rewrite app_assoc.
    + intros Hu. rewrite (S' Hu), (S Hu). cbn [files probes clock_reads].
      now rewrite app_assoc.
Qed.

Lemma probe_account_run (env : Env) (cands : list string)
  (result : gmap string (list string)) (entry : string * credentials) (s : state) :
  probe_account env cands result entry s
  = discover_account (mk 0) env false false cands result entry s.
Proof.
  destruct entry as [a creds]. unfold probe_account, discover_account.
  destruct (access_key creds) as [ak |], (secret_key creds) as [sk |]; reflexivity.
Qed.

Lemma probe_accounts_run (env : Env) (cands : list string)
  (entries : list (string * credentials)) :
  forall (result : gmap string (list string)) (s : state),
  probe_accounts env cands result entries s
  = discover_accounts (mk 0) env false false cands result entries s.
Proof.
  induction entries as [| entry rest IH]; intros result s; [reflexivity |].
  cbn [probe_accounts discover_accounts]. rewrite probe_account_run.
  destruct (discover_account _ _ _ _ _ _ _ _) as [r' s']. apply IH.
Qed.

Lemma discover_uncached (self : t) (env : Env) (use_cache force_refresh : bool)
  (s : state) :
  use_cache && negb force_refresh = false ->
  get_region_candidates env <> [] ->
  fst (discover_ec2_used_regions_from_provider self env use_cache force_refresh s)
    = fold_left (fresh_result env (get_region_candidates env))
        (account_credentials env) ∅ /\
  probes (snd (discover_ec2_used_regions_from_provider self env use_cache force_refresh s))
    = probes s ++ flat_map (fresh_probes (get_region_candidates env))
                    (account_credentials env) /\
  (use_cache = false ->
   snd (discover_ec2_used_regions_from_provider self env use_cache force_refresh s)
   = mk_state (files s)
       (probes s ++ flat_map (fresh_probes (get_region_candidates env))
                      (account_credentials env))
       (clock_reads s)).
Proof.
  intros Hm Hc. unfold discover_ec2_used_regions_from_provider.
  destruct (get_region_candidates env) as [| c0 cands] eqn:Ec; [congruence |].
  destruct (account_credentials env) as [| e0 entries] eqn:Ea.
  - cbn. rewrite app_nil_r. repeat split. now destruct s.
  - apply discover_accounts_uncached. exact Hm.
Qed.

(** X11. [discover_ec2_used_regions] on the provider's credentials does
    exactly what [discover_ec2_used_regions_from_provider] does with
    [use_cache=False]: same result, same probes, same state, whatever the
    force-refresh flag. *)
Theorem discovery_variants_agree (self : t) (env : Env) (force_refresh : bool)
  (s : state) :
  discover_ec2_used_regions env (account_credentials env) s
  = discover_ec2_used_regions_from_provider self env false force_refresh s.
Proof.
  unfold discover_ec2_used_regions, discover_ec2_used_regions_from_provider.
  destruct (get_region_candidates env) as [| c0 cands]; [reflexivity |].
  rewrite probe_accounts_run.
  set (cs := c0 :: cands).
  assert (G : forall entries result s0,
            discover_accounts (mk 0) env false false cs result entries s0
            = discover_accounts self env false force_refresh cs result entries s0).
  { induction entries as [| e rest IH]; intros result s0; [reflexivity |].
    cbn [discover_accounts].
    assert (E : discover_account (mk 0) env false false cs result e s0
                = discover_account self env false force_refresh cs result e s0).
    { destruct e as [a creds]. unfold discover_account.
      destruct (access_key creds), (secret_key creds); try reflexivity. }
    rewrite E. destruct (discover_account _ _ _ _ _ _ _ _) as [r' s']. apply IH. }
  rewrite G. destruct (account_credentials env); reflexivity.
Qed.

Lemma fold_fresh_lookup_other (env : Env) (cands : list string) (a : string)
  (entries : list (string * credentials)) :
  forall result : gmap string (list string),
  ~ In a (map fst entries) ->
  fold_left (fresh_result env cands) entries result !! a = result !! a.
Proof.
  induction entries as [| [x creds] rest IH]; intros result Hn; [reflexivity |].
  cbn [fold_left]. cbn [map fst In] in Hn.
  rewrite IH by tauto. unfold fresh_result. cbn [fst snd].
  destruct (keys_of creds); [| reflexivity].
  apply lookup_insert_ne. intros ->. tauto.
Qed.

Lemma fold_fresh_lookup (env : Env) (cands : list string) (a : string)
  (creds : credentials) (entries : list (string * credentials)) :
  forall result : gmap string (list string),
  NoDup (map fst entries) -> In (a, creds) entries ->
  fold_left (fresh_result env cands) entries result !! a
  = match keys_of creds with
    | Some keys => Some (probed_regions env cands keys)
    | None => result !! a
    end.
Proof.
  induction entries as [| [x c] rest IH]; intros result Hnd Hin; [destruct Hin |].
  cbn [map fst] in Hnd. apply NoDup_cons in Hnd as [Hx Hnd].
  cbn [fold_left]. destruct Hin as [[= -> ->] | Hin].
  - rewrite fold_fresh_lookup_other by (now rewrite <- list_elem_of_In).
    unfold fresh_result. cbn [fst snd].
    destruct (keys_of creds); [apply lookup_insert_eq | reflexivity].
  - rewrite (IH _ Hnd Hin). destruct (keys_of creds); [reflexivity |].
    unfold fresh_result. cbn [fst snd].
    destruct (keys_of c); [| reflexivity].
    apply lookup_insert_ne. intros ->. apply Hx.
    apply list_elem_of_In. apply in_map_iff. now exists (a, creds).
Qed.

Lemma fold_fresh_sound (env : Env) (cands : list string) (a : string)
  (entries : list (string * credentials)) :
  forall (result : gmap string (list string)) (rs : list string),
  fold_left (fresh_result env cands) entries result !! a = Some rs ->
  result !! a = Some rs \/
  exists creds keys, In (a, creds) entries /\ keys_of creds = Some keys /\
                     rs = probed_regions env cands keys.
Proof.
  induction entries as [| [x c] rest IH]; intros result rs H; [now left |].
  cbn [fold_left] in H. apply IH in H as [H | (creds & keys & Hin & Hk & ->)].
  - unfold fresh_result in H. cbn [fst snd] in H.
    destruct (keys_of c) as [keys |] eqn:Ek; [| now left].
    destruct (decide (x = a)) as [-> | Hne].
    + rewrite lookup_insert_eq in H. injection H as <-. right.
      exists c, keys. repeat split; [now left | exact Ek].
    + rewrite lookup_insert_ne in H by exact Hne. now left.
  - right. exists creds, keys. repeat split; [now right | exact Hk].
Qed.

(** X12. When the cache is not read ([use_cache] off or [force_refresh]
    on), the regions reported for an account are exactly the candidate
    regions from the CMDB in which the probe with that account's keys finds
    an instance, in candidate order: no region outside the candidates is
    ever reported, and an account whose credentials are incomplete gets no
    entry. *)
Theorem uncached_discovery_reports_probed_candidates (self : t) (env : Env)
  (use_cache force_refresh : bool) (s : state) (a : string) :
  use_cache && negb force_refresh = false ->
  let result :=
    fst (discover_ec2_used_regions_from_provider self env use_cache force_refresh s) in
  (forall rs : list string, result !! a = Some rs ->
     exists creds keys,
       In (a, creds) (account_credentials env) /\ keys_of creds = Some keys /\
       rs = probed_regions env (get_region_candidates env) keys /\
       forall r, In r rs ->
         In r (get_region_candidates env) /\
         probe_ec2_usage env r (fst keys) (snd keys) = true) /\
  (forall creds keys,
     get_region_candidates env <> [] ->
     NoDup (map fst (account_credentials env)) ->
     In (a, creds) (account_credentials env) -> keys_of creds = Some keys ->
     result !! a = Some (probed_regions env (get_region_candidates env) keys)) /\
  (forall creds,
     NoDup (map fst (account_credentials env)) ->
     In (a, creds) (account_credentials env) -> keys_of creds = None ->
     result !! a = None).
Proof.
  intros Hm result.
  assert (R : result = match get_region_candidates env with
                       | [] => ∅
                       | _ => fold_left (fresh_result env (get_region_candidates env))
                                (account_credentials env) ∅
                       end).
  { unfold result. destruct (get_region_candidates env) as [| c0 cands] eqn:Ec.
    - unfold discover_ec2_used_regions_from_provider. now rewrite Ec.
    - rewrite <- Ec. apply discover_uncached; [exact Hm | congruence]. }
  clearbody result. subst result. repeat split.
  - intros rs H.
    destruct (get_region_candidates env) as [| c0 cands] eqn:Ec;
      [now rewrite lookup_empty in H |].
    apply fold_fresh_sound in H as [H | (creds & keys & Hin & Hk & ->)];
      [now rewrite lookup_empty in H |].
    exists creds, keys. repeat split; try assumption.
    + unfold probed_regions in H. now apply filter_In in H.
    + unfold probed_regions in H. now apply filter_In in H.
  - intros creds keys Hc Hnd Hin Hk.
    destruct (get_region_candidates env) as [| c0 cands] eqn:Ec; [congruence |].
    rewrite (fold_fresh_lookup _ _ _ creds) by assumption. now rewrite Hk.
  - intros creds Hnd Hin Hk.
    destruct (get_region_candidates env) as [| c0 cands] eqn:Ec; [apply lookup_empty |].
    rewrite (fold_fresh_lookup _ _ _ creds) by assumption. rewrite Hk.
    apply lookup_empty.
Qed.

(** X13. When the cache is not read, the probes made are, for each
    account with complete credentials in the provider's order, one probe of
    every candidate region in order, and none for the other accounts. With
    [use_cache] off no file is written and the clock is not read. *)
Theorem uncached_discovery_probes_each_account_once (self : t) (env : Env)
  (use_cache force_refresh : bool) (s : state) :
  use_cache && negb force_refresh = false ->
  get_region_candidates env <> [] ->
  probes (snd (discover_ec2_used_regions_from_provider self env use_cache force_refresh s))
    = probes s ++ flat_map (fresh_probes (get_region_candidates env))
                    (account_credentials env) /\
  (use_cache = false ->
   files (snd (discover_ec2_used_regions_from_provider self env use_cache force_refresh s))
     = files s /\
   clock_reads (snd (discover_ec2_used_regions_from_provider self env use_cache
                       force_refresh s))
     = clock_reads s).
Proof.
  intros Hm Hc. destruct (discover_uncached self env use_cache force_refresh s Hm Hc)
    as (_ & P & S).
  split; [exact P |]. intros Hu. now rewrite (S Hu).
Qed.

Lemma load_account_cache_ignores_probes (self : t) (env : Env) (a : string)
  (s1 s2 : state) :
  files s1 = files s2 -> clock_reads s1 = clock_reads s2 ->
  fst (_load_account_cache self env a s1) = fst (_load_account_cache self env a s2) /\
  files (snd (_load_account_cache self env a s1))
    = files (snd (_load_account_cache self env a s2)) /\
  clock_reads (snd (_load_account_cache self env a s1))
    = clock_reads (snd (_load_account_cache self env a s2)).
Proof.
  intros Hf Hc. unfold _load_account_cache, time_time. rewrite Hf, Hc.
  destruct (files s2 !! a) as [[| d] |]; cbn; auto.
  destruct (Qgtb _ _); cbn; auto.
Qed.

Lemma discover_account_ignores_probes (self : t) (env : Env)
  (use_cache force_refresh : bool) (cands : list string)
  (result : gmap string (list string)) (entry : string * credentials) (s1 s2 : state) :
  files s1 = files s2 -> clock_reads s1 = clock_reads s2 ->
  fst (discover_account self env use_cache force_refresh cands result entry s1)
    = fst (discover_account self env use_cache force_refresh cands result entry s2) /\
  files (snd (discover_account self env use_cache force_refresh cands result entry s1))
    = files (snd (discover_account self env use_cache force_refresh cands result entry s2)) /\
  clock_reads (snd (discover_account self env use_cache force_refresh cands result entry s1))
    = clock_reads (snd (discover_account self env use_cache force_refresh cands result entry s2)).
Proof.
  intros Hf Hc. destruct entry as [a creds]. unfold discover_account.
  destruct (access_key creds) as [ak |], (secret_key creds) as [sk |];
    try (cbn; auto).
  destruct (str_truthy ak && str_truthy sk); [| cbn; auto].
  assert (L : forall (x : (option (list string)) * state) (y : (option (list string)) * state),
            fst x = fst y -> files (snd x) = files (snd y) ->
            clock_reads (snd x) = clock_reads (snd y) ->
            let f := fun (p : option (list string) * state) =>
              (let (cached_regions, s1) := p in
               match cached_regions with
               | Some regions => (<[a:=regions]> result, s1)
               | None =>
                   let (used_regions, s2) := probe_regions env a ak sk cands s1 in
                   let result0 := <[a:=used_regions]> result in
                   if use_cache
                   then (result0, snd (_save_account_cache env a used_regions s2))
                   else (result0, s2)
               end) in
            fst (f x) = fst (f y) /\ files (snd (f x)) = files (snd (f y)) /\
            clock_reads (snd (f x)) = clock_reads (snd (f y))).
  { intros [o1 x1] [o2 x2] E1 E2 E3. cbn [fst snd] in *. subst o2.
    destruct o1 as [regions |]; [cbn; auto |].
    destruct (probe_regions_run env a ak sk cands x1) as (F1 & C1 & _).
    destruct (probe_regions_run env a ak sk cands x2) as (F2 & C2 & _).
    pose proof (probe_regions_result env a ak sk cands x1) as R1.
    pose proof (probe_regions_result env a ak sk cands x2) as R2.
    destruct (probe_regions env a ak sk cands x1) as [u1 y1].
    destruct (probe_regions env a ak sk cands x2) as [u2 y2].
    cbn [fst snd] in *. subst u1 u2.
    destruct use_cache; cbn [fst snd].
    - unfold _save_account_cache, time_time. cbn [fst snd files clock_reads].
      rewrite F1, F2, C1, C2, E2, E3. auto.
    - rewrite F1, F2, C1, C2. auto. }
  apply L; destruct (use_cache && negb force_refresh); cbn [fst snd]; auto;
    apply (load_account_cache_ignores_probes self env a s1 s2 Hf Hc).
Qed.

Lemma discover_accounts_ignores_probes (self : t) (env : Env)
  (use_cache force_refresh : bool) (cands : list string)
  (entries : list (string * credentials)) :
  forall (result : gmap string (list string)) (s1 s2 : state),
  files s1 = files s2 -> clock_reads s1 = clock_reads s2 ->
  fst (discover_accounts self env use_cache force_refresh cands result entries s1)
    = fst (discover_accounts self env use_cache force_refresh cands result entries s2) /\
  files (snd (discover_accounts self env use_cache force_refresh cands result entries s1))
    = files (snd (discover_accounts self env use_cache force_refresh cands result entries s2)).
Proof.
  induction entries as [| e rest IH]; intros result s1 s2 Hf Hc; [now cbn |].
  cbn [discover_accounts].
  destruct (discover_account_ignores_probes self env use_cache force_refresh cands
              result e s1 s2 Hf Hc) as (R & F & C).
  destruct (discover_account _ _ _ _ _ _ _ s1) as [r1 x1].
  destruct (discover_account _ _ _ _ _ _ _ s2) as [r2 x2].
  cbn [fst snd] in *. subst r2. now apply IH.
Qed.

(** X14. The refresh script calls the discovery with [use_cache=False],
    so it probes but writes no cache file and reads no clock: a later
    discovery that uses the cache answers exactly as if the script had not
    run. *)
Theorem refresh_script_leaves_cache_files (self : t) (env env' : Env) (s : state) :
  files (snd (force_refresh_all_regions self env s)) = files s /\
  clock_reads (snd (force_refresh_all_regions self env s)) = clock_reads s /\
  fst (discover_ec2_used_regions_from_provider self env' true false
         (snd (force_refresh_all_regions self env s)))
  = fst (discover_ec2_used_regions_from_provider self env' true false s).
Proof.
  assert (A : files (snd (force_refresh_all_regions self env s)) = files s /\
              clock_reads (snd (force_refresh_all_regions self env s)) = clock_reads s).
  { unfold force_refresh_all_regions.
    destruct (get_region_candidates env) as [| c0 cands] eqn:Ec.
    - unfold discover_ec2_used_regions_from_provider. now rewrite Ec.
    - destruct (discover_uncached self env false true s eq_refl) as (_ & _ & S);
        [congruence |].
      now rewrite (S eq_refl). }
  destruct A as [F C]. split; [exact F |]. split; [exact C |].
  unfold discover_ec2_used_regions_from_provider at 1 2.
  destruct (get_region_candidates env') as [| c0 cands]; [reflexivity |].
  destruct (account_credentials env') as [| e0 entries]; [reflexivity |].
  now apply discover_accounts_ignores_probes.
Qed.

End RegionDiscoveryMore.

Section Stale.
Import ActiveRegionDiscoverer.
Variable self : t.
Variable env : Env.
Variable a : string.

Lemma discover_accounts_frame (use_cache force_refresh : bool) (cands : list string)
  (entries : list (string * credentials)) :
  ~ In a (map fst entries) ->
  forall (result : gmap string (list string)) (s : state),
  files (snd (discover_accounts self env use_cache force_refresh cands result entries s)) !! a
    = files s !! a /\
  probes_for a (probes (snd (discover_accounts self env use_cache force_refresh cands result entries s)))
    = probes_for a (probes s) /\
  (clock_reads s <= clock_reads (snd (discover_accounts self env use_cache force_refresh cands result entries s)))%nat /\
  fst (discover_accounts self env use_cache force_refresh cands result entries s) !! a
    = result !! a.
Proof.
  induction entries as [| [x c] rest IH]; intros Hn result s.
  - cbn. auto.
  - cbn [discover_accounts]. cbn [map fst In] in Hn.
    destruct (discover_account_frame self env a use_cache force_refresh cands result
                x c s) as (F & P & C & R); [intros ->; tauto |].
    destruct (discover_account self env use_cache force_refresh cands result (x, c) s)
      as [r1 s1]. cbn [fst snd] in *.
    destruct (IH (fun H => Hn (or_intror H)) r1 s1) as (F' & P' & C' & R').
    rewrite F', P', R'. repeat split; auto. lia.
Qed.

Lemma discover_account_stale (cands : list string)
  (result : gmap string (list string)) (creds : credentials) (keys : string * string)
  (s : state) :
  keys_of creds = Some keys ->
  stale_from self env (clock_reads s) (files s !! a) ->
  let run := discover_account self env true false cands result (a, creds) s in
  fst run !! a = Some (probed_regions env cands keys) /\
  written_since env a (clock_reads s) (snd run) (probed_regions env cands keys) /\
  probes (snd run) = probes s ++ map (EvProbe a) cands.
Proof.
  intros Hk Hst. cbv zeta. unfold discover_account.
  unfold keys_of in Hk.
  destruct (access_key creds) as [ak |]; [| discriminate].
  destruct (secret_key creds) as [sk |]; [| discriminate].
  destruct (str_truthy ak && str_truthy sk); [| discriminate].
  injection Hk as <-. cbn [andb negb].
  assert (L : fst (_load_account_cache self env a s) = None /\
              files (snd (_load_account_cache self env a s)) = files s /\
              probes (snd (_load_account_cache self env a s)) = probes s /\
              (clock_reads s <= clock_reads (snd (_load_account_cache self env a s)))%nat).
  { unfold _load_account_cache. unfold stale_from in Hst.
    destruct (files s !! a) as [[| d] |]; cbn; auto.
    unfold time_time. cbn.
    assert (Qgtb (time_at env (clock_reads s) - default 0%Q (cd_timestamp d))
              (inject_Z (cache_ttl self)) = true) as ->
      by (apply Qgtb_true; apply Hst; lia).
    cbn. auto. }
  destruct L as (L1 & L2 & L3 & L4).
  destruct (_load_account_cache self env a s) as [o s1]. cbn [fst snd] in *. subst o.
  destruct (probe_regions_run env a ak sk cands s1) as (F & C & P).
  pose proof (probe_regions_result env a ak sk cands s1) as R.
  destruct (probe_regions env a ak sk cands s1) as [used s2]. cbn [fst snd] in *.
  subst used. unfold probed_regions. cbn [fst snd].
  split; [apply lookup_insert_eq |]. split.
  - unfold written_since, _save_account_cache, time_time. cbn [fst snd files clock_reads].
    exists (clock_reads s2). split; [lia |]. apply lookup_insert_eq.
  - unfold _save_account_cache, time_time. cbn [fst snd probes]. now rewrite P, L3.
Qed.

Lemma stale_from_mono (n0 n1 : nat) (f : option file) :
  (n0 <= n1)%nat -> stale_from self env n0 f -> stale_from self env n1 f.
Proof.
  intros Hn. unfold stale_from. destruct f as [[| d] |]; auto.
  intros H n Hle. apply H. lia.
Qed.

Lemma discover_accounts_stale (cands : list string) (creds : credentials)
  (keys : string * string) (entries : list (string * credentials)) :
  keys_of creds = Some keys ->
  NoDup (map fst entries) -> In (a, creds) entries ->
  forall (result : gmap string (list string)) (s : state),
  stale_from self env (clock_reads s) (files s !! a) ->
  let run := discover_accounts self env true false cands result entries s in
  fst run !! a = Some (probed_regions env cands keys) /\
  written_since env a (clock_reads s) (snd run) (probed_regions env cands keys) /\
  probes_for a (probes (snd run))
    = probes_for a (probes s) ++ map (EvProbe a) cands.
Proof.
  intros Hk. induction entries as [| [x c] rest IH]; intros Hnd Hin result s Hst;
    [destruct Hin |].
  cbn [map fst] in Hnd. apply NoDup_cons in Hnd as [Hx Hnd].
  cbv zeta. cbn [discover_accounts].
  destruct Hin as [[= -> ->] | Hin].
  - destruct (discover_account_stale cands result creds keys s Hk Hst) as (R & W & P).
    destruct (discover_account self env true false cands result (a, creds) s)
      as [r1 s1]. cbn [fst snd] in *.
    destruct (discover_accounts_frame true false cands rest) with (result := r1) (s := s1)
      as (F' & P' & C' & R').
    { intros H. apply Hx. now apply list_elem_of_In. }
    rewrite R', P'. split; [exact R |]. split.
    + eapply written_since_mono; [exact F' | exact C' | exact W].
    + rewrite P, probes_for_app. f_equal.
      clear. unfold probes_for. induction cands as [| r cands IH]; [reflexivity |].
      cbn [map List.filter]. rewrite String.eqb_refl. now rewrite IH.
  - assert (Hne : x <> a).
    { intros ->. apply Hx. apply list_elem_of_In. apply in_map_iff. now exists (a, creds). }
    destruct (discover_account_frame self env a true false cands result x c s Hne)
      as (F & P & C & R).
    destruct (discover_account self env true false cands result (x, c) s)
      as [r1 s1]. cbn [fst snd] in *.
    destruct (IH Hnd Hin r1 s1) as (R' & W' & P').
    { rewrite F. eapply stale_from_mono; [exact C | exact Hst]. }
    split; [exact R' |]. split.
    + destruct W' as (m & Hm & Hf). exists m. split; [lia | exact Hf].
    + now rewrite P', P.
Qed.

(** X15. An account whose cache file is missing, unreadable or older
    than the TTL is probed again by a discovery that uses the cache: its
    result is what the probes find, its file is rewritten with that result
    and a timestamp read during the call, and it is probed once in every
    candidate region. *)
Theorem stale_cache_is_probed_again (creds : credentials) (keys : string * string)
  (s : state) :
  get_region_candidates env <> [] ->
  NoDup (map fst (account_credentials env)) ->
  In (a, creds) (account_credentials env) ->
  keys_of creds = Some keys ->
  stale_from self env (clock_reads s) (files s !! a) ->
  let run := discover_ec2_used_regions_from_provider self env true false s in
  fst run !! a = Some (probed_regions env (get_region_candidates env) keys) /\
  written_since env a (clock_reads s) (snd run)
    (probed_regions env (get_region_candidates env) keys) /\
  probes_for a (probes (snd run))
    = probes_for a (probes s) ++ map (EvProbe a) (get_region_candidates env).
Proof.
  intros Hc Hnd Hin Hk Hst. cbv zeta. unfold discover_ec2_used_regions_from_provider.
  destruct (get_region_candidates env) as [| c0 cands] eqn:Ec; [congruence |].
  destruct (account_credentials env) as [| e0 entries] eqn:Ea; [destruct Hin |].
  now apply (discover_accounts_stale (c0 :: cands) creds keys (e0 :: entries)).
Qed.

End Stale.

(** ** More on the aggregator *)

Section Summary.
Import Collector.

Lemma count_results_cons (p : QuotaResult -> bool) (r : QuotaResult)
  (rs : list QuotaResult) :
  count_results p (r :: rs) = ((if p r then 1 else 0) + count_results p rs)%nat.
Proof. unfold count_results. cbn. now destruct (p r). Qed.


Lemma status_partition (rs : list QuotaResult) :
  length rs = (count_results is_success rs + count_results is_skipped rs
               + count_results is_failed rs)%nat.
Proof.
  induction rs as [| r rs IH]; [reflexivity |].
  rewrite !count_results_cons. cbn [length]. rewrite IH.
  unfold is_success, is_skipped, is_failed. destruct (status r); lia.
Qed.

Lemma by_service_fold (sv : string) (rs : list QuotaResult) :
  forall m : gmap string service_counts,
  fold_left by_service_step rs m !! sv
  = match m !! sv with
    | Some sc =>
        Some (mk_counts (n_success sc + count_results (for_service sv is_success) rs)
                (n_skipped sc + count_results (for_service sv is_skipped) rs)
                (n_failed sc + count_results (for_service sv is_failed) rs))
    | None =>
        if existsb (fun r => String.eqb (service r) sv) rs
        then Some (mk_counts (count_results (for_service sv is_success) rs)
                     (count_results (for_service sv is_skipped) rs)
                     (count_results (for_service sv is_failed) rs))
        else None
    end.
Proof.
  induction rs as [| r rs IH]; intros m.
  - cbn. destruct (m !! sv) as [[a b c] |]; [| reflexivity].
    cbn. now rewrite !Nat.add_0_r.
  - cbn [fold_left existsb]. rewrite IH. rewrite !count_results_cons.
    unfold by_service_step, for_service.
    destruct (String.eqb (service r) sv) eqn:E.
    + apply String.eqb_eq in E. rewrite E, lookup_insert_eq. cbn [orb andb].
      unfold is_success, is_skipped, is_failed.
      destruct (m !! sv) as [[a b c] |]; cbn [default from_option id];
        destruct (status r); cbn [n_success n_skipped n_failed]; f_equal; f_equal; lia.
    + apply String.eqb_neq in E. rewrite lookup_insert_ne by exact E.
      cbn [orb andb]. destruct (m !! sv) as [[a b c] |]; reflexivity.
Qed.

Lemma skip_reasons_fold (rsn : string) (rs : list QuotaResult) :
  rsn <> "" ->
  forall m : gmap string nat,
  default O (fold_left skip_reasons_step rs m !! rsn)
  = (default O (m !! rsn) + count_results (skipped_for rsn) rs)%nat /\
  (fold_left skip_reasons_step rs m !! rsn = None <->
   m !! rsn = None /\ count_results (skipped_for rsn) rs = O).
Proof.
  intros Hr. induction rs as [| r rs IH]; intros m.
  - cbn. split; [lia | tauto].
  - cbn [fold_left]. destruct (IH (skip_reasons_step m r)) as [IH1 IH2].
    rewrite IH1, IH2, !count_results_cons. clear IH IH1 IH2.
    unfold skip_reasons_step, skipped_for.
    destruct (reason r) as [[| ch rest] |] eqn:Er.
    + rewrite bool_decide_eq_false_2 by congruence.
      rewrite andb_false_r. cbn. tauto.
    + destruct (is_skipped r); cbn [andb].
      * destruct (decide (String ch rest = rsn)) as [<- | Hne].
        -- rewrite lookup_insert_eq, bool_decide_eq_true_2 by reflexivity.
           cbn [default from_option id]. split; [lia |]. split; [intros [? _]; discriminate |].
           intros [_ ?]; lia.
        -- rewrite lookup_insert_ne by exact Hne.
           rewrite bool_decide_eq_false_2 by congruence. cbn. tauto.
      * cbn. tauto.
    + rewrite bool_decide_eq_false_2 by congruence.
      rewrite andb_false_r. cbn. tauto.
Qed.

Lemma add_result_results (r : QuotaResult) (c : t) :
  results (add_result r c) = results c ++ [r].
Proof.
  unfold add_result.
  destruct (is_success r).
  - cbv zeta. destruct (_get_usage_value _ _ _ _ _); reflexivity.
  - destruct (is_skipped r); [reflexivity |]. now destruct (is_failed r).
Qed.

Lemma add_result_usage_data (r : QuotaResult) (c : t) :
  usage_data (add_result r c) = usage_data c.
Proof.
  unfold add_result.
  destruct (is_success r).
  - cbv zeta. destruct (_get_usage_value _ _ _ _ _); reflexivity.
  - destruct (is_skipped r); [reflexivity |]. now destruct (is_failed r).
Qed.

Lemma update_success_frame (a rg sv : string) (ud : gmap string float) (c : t)
  (r : QuotaResult) :
  results (update_success a rg sv ud c r) = results c /\
  usage_data (update_success a rg sv ud c r) = usage_data c /\
  scrape_errors_total (update_success a rg sv ud c r) = scrape_errors_total c /\
  scrape_skipped_total (update_success a rg sv ud c r) = scrape_skipped_total c.
Proof.
  unfold update_success. destruct (quota_info_of r) as [qi |]; [| auto].
  destruct (_ && _); [| auto]. destruct (ud !! quota_code r); cbn; auto.
Qed.

Lemma update_skipped_frame (a rg sv : string) (ud : gmap string float) (c : t)
  (r : QuotaResult) :
  results (update_skipped a rg sv ud c r) = results c /\
  usage_data (update_skipped a rg sv ud c r) = usage_data c /\
  scrape_errors_total (update_skipped a rg sv ud c r) = scrape_errors_total c /\
  scrape_skipped_total (update_skipped a rg sv ud c r) = scrape_skipped_total c.
Proof.
  unfold update_skipped. destruct (_ && _); [| auto].
  destruct (ud !! quota_code r); cbn; auto.
Qed.

Lemma set_usage_data_frame (a rg sv : string) (ud : gmap string float) (c : t) :
  results (set_usage_data a rg sv ud c) = results c /\
  usage_data (set_usage_data a rg sv ud c) = <[(a, rg, sv) := ud]> (usage_data c) /\
  scrape_errors_total (set_usage_data a rg sv ud c) = scrape_errors_total c /\
  scrape_skipped_total (set_usage_data a rg sv ud c) = scrape_skipped_total c.
Proof.
  unfold set_usage_data. cbv zeta.
  set (c0 := store_usage_data (a, rg, sv) ud c).
  set (P := fun x : t =>
              results x = results c /\
              usage_data x = <[(a, rg, sv) := ud]> (usage_data c) /\
              scrape_errors_total x = scrape_errors_total c /\
              scrape_skipped_total x = scrape_skipped_total c).
  change (P (fold_left (update_skipped a rg sv ud) (results c0)
               (fold_left (update_success a rg sv ud) (results c0) c0))).
  apply fold_left_preserves.
  { intros x r (A & B & C & D).
    destruct (update_skipped_frame a rg sv ud x r) as (A' & B' & C' & D').
    unfold P. now rewrite A', B', C', D'. }
  apply fold_left_preserves.
  { intros x r (A & B & C & D).
    destruct (update_success_frame a rg sv ud x r) as (A' & B' & C' & D').
    unfold P. now rewrite A', B', C', D'. }
  unfold P, c0. cbn. auto.
Qed.

Lemma fold_add_result_results (rs : list QuotaResult) :
  forall c : t, results (fold_left (fun c r => add_result r c) rs c) = results c ++ rs.
Proof.
  induction rs as [| r rs IH]; intros c; cbn [fold_left].
  - now rewrite app_nil_r.
  - rewrite IH, add_result_results. now rewrite <- app_assoc.
Qed.

Lemma collect_all_results (t0 t1 : Q) (rs : list QuotaResult) (c : t) :
  results (collect_all t0 t1 rs c) = results c ++ rs.
Proof. unfold collect_all. cbn. apply fold_add_result_results. Qed.

Lemma add_result_gauges (r : QuotaResult) (c : t) :
  quota_limit (add_result r c)
    = (if is_success r then <[labels_of_result r := limit_of_result r]> (quota_limit c)
       else quota_limit c) /\
  quota_usage (add_result r c)
    = (if is_success r
       then <[labels_of_result r :=
                default NaN (_get_usage_value c (account_id r) (region r) (service r)
                               (quota_code r))]> (quota_usage c)
       else quota_usage c) /\
  quota_usage_percent (add_result r c)
    = (if is_success r
       then <[labels_of_result r :=
                match _get_usage_value c (account_id r) (region r) (service r)
                        (quota_code r) with
                | Some u => percent_of u (limit_of_result r)
                | None => NaN
                end]> (quota_usage_percent c)
       else quota_usage_percent c).
Proof.
  unfold add_result. destruct (is_success r).
  - cbv zeta.
    change (_get_usage_value (set_limit ?l ?v (append_result r ?x)))
      with (_get_usage_value x).
    destruct (_get_usage_value c (account_id r) (region r) (service r) (quota_code r));
      cbn; auto.
  - destruct (is_skipped r); [cbn; auto |]. destruct (is_failed r); cbn; auto.
Qed.

(** X16. [get_summary] counts the stored results: the total is the sum
    of the success, skipped and failed counts; [by_service] has an entry
    exactly for the services that have a result, holding the three counts
    of that service; [skip_reasons] counts the skipped results per
    non-empty reason. *)
Theorem summary_counts_the_stored_results (c : t) :
  sum_total (get_summary c)
    = (sum_success (get_summary c) + sum_skipped (get_summary c)
       + sum_failed (get_summary c))%nat /\
  (forall sv : string,
     by_service (get_summary c) !! sv
     = if existsb (fun r => String.eqb (service r) sv) (results c)
       then Some (mk_counts (count_results (for_service sv is_success) (results c))
                    (count_results (for_service sv is_skipped) (results c))
                    (count_results (for_service sv is_failed) (results c)))
       else None) /\
  (forall rsn : string,
     default O (skip_reasons (get_summary c) !! rsn)
     = if String.eqb rsn "" then O
       else count_results (skipped_for rsn) (results c)).
Proof.
  unfold get_summary. cbn [sum_total sum_success sum_skipped sum_failed by_service
                            skip_reasons].
  split; [apply status_partition |]. split.
  - intros sv. rewrite by_service_fold. now rewrite lookup_empty.
  - intros rsn. destruct (String.eqb rsn "") eqn:E.
    + apply String.eqb_eq in E. subst rsn.
      assert (H : fold_left skip_reasons_step (results c) ∅ !! "" = None).
      { apply (fold_left_preserves (fun m : gmap string nat => m !! "" = None));
          [| apply lookup_empty].
        intros m r Hm. unfold skip_reasons_step.
        destruct (reason r) as [[| ch rest] |]; try exact Hm.
        destruct (is_skipped r); [| exact Hm].
        now rewrite lookup_insert_ne by discriminate. }
      now rewrite H.
    + apply String.eqb_neq in E.
      destruct (skip_reasons_fold rsn (results c) E ∅) as [H _].
      rewrite H. now rewrite lookup_empty.
Qed.

(** X17. The result list of a collector only grows: [collect_all]
    appends, [set_usage_data] leaves it alone, nothing empties it. So
    collecting the same results in two cycles doubles their weight in the
    summary, although adding a result a second time leaves the three gauge
    families exactly as they were after the first time. *)
Theorem results_accumulate_across_cycles (t0 t1 t2 t3 : Q) (rs : list QuotaResult)
  (c : t) :
  results (collect_all t0 t1 rs c) = results c ++ rs /\
  (forall (a rg sv : string) (usage : gmap string float),
     results (set_usage_data a rg sv usage c) = results c) /\
  sum_total (get_summary (collect_all t2 t3 rs (collect_all t0 t1 rs c)))
    = (sum_total (get_summary c) + 2 * length rs)%nat /\
  (forall r : QuotaResult,
     quota_limit (add_result r (add_result r c)) = quota_limit (add_result r c) /\
     quota_usage (add_result r (add_result r c)) = quota_usage (add_result r c) /\
     quota_usage_percent (add_result r (add_result r c))
       = quota_usage_percent (add_result r c) /\
     results (add_result r (add_result r c)) = results c ++ [r; r]).
Proof.
  split; [apply collect_all_results |].
  split; [intros; apply set_usage_data_frame |].
  split.
  - unfold get_summary. cbn [sum_total]. rewrite !collect_all_results, !length_app. lia.
  - intros r.
    assert (U : forall x, _get_usage_value (add_result r x) (account_id r) (region r)
                            (service r) (quota_code r)
                          = _get_usage_value x (account_id r) (region r) (service r)
                              (quota_code r)).
    { intros x. unfold _get_usage_value. now rewrite add_result_usage_data. }
    destruct (add_result_gauges r (add_result r c)) as (A & B & C).
    destruct (add_result_gauges r c) as (A' & B' & C').
    rewrite A, B, C, U, A', B', C'.
    destruct (is_success r); rewrite ?insert_insert_eq;
      rewrite !add_result_results, <- app_assoc; auto.
Qed.

End Summary.

Section Series.
Import Collector Orchestrator.

(** X18. A result that is not a success changes none of the three gauge
    families. A failed one adds one to the error counter of its service,
    quota code and error type, a skipped one adds one to the skip counter
    of its service and reason. For a failure recorded by the orchestrator
    from an exception the error type counted is the reason code of the
    result. *)
Theorem failures_touch_no_series (c : t) (r : QuotaResult) :
  is_success r = false ->
  (quota_limit (add_result r c) = quota_limit c /\
   quota_usage (add_result r c) = quota_usage c /\
   quota_usage_percent (add_result r c) = quota_usage_percent c) /\
  (is_failed r = true ->
   scrape_errors_total (add_result r c)
     = <[(service r, quota_code r, error_type_of r) :=
           S (default O (scrape_errors_total c
                           !! (service r, quota_code r, error_type_of r)))]>
         (scrape_errors_total c) /\
   scrape_skipped_total (add_result r c) = scrape_skipped_total c) /\
  (is_skipped r = true ->
   scrape_skipped_total (add_result r c)
     = <[(service r, Py.str_or (reason r) "unknown") :=
           S (default O (scrape_skipped_total c
                           !! (service r, Py.str_or (reason r) "unknown")))]>
         (scrape_skipped_total c) /\
   scrape_errors_total (add_result r c) = scrape_errors_total c) /\
  (forall (sv : string) (quota : QuotaItem) (a rg : string) (e : exn),
     error_type_of (result_of_fetch sv quota a rg (Raises e))
       = failure_reason (exn_str e) /\
     reason (result_of_fetch sv quota a rg (Raises e))
       = Some (failure_reason (exn_str e))).
Proof.
  intros Hs. destruct (add_result_gauges r c) as (A & B & C).
  rewrite Hs in A, B, C. split; [auto |].
  unfold add_result. rewrite Hs. unfold is_failed, is_skipped.
  unfold is_success in Hs.
  destruct (status r); try discriminate; repeat split; try discriminate; reflexivity.
Qed.

Lemma update_success_series (a rg sv : string) (ud : gmap string float) (c : t)
  (r : QuotaResult) (L : labels) :
  (forall name code, ud !! code <> None -> L <> labels_of a rg sv name code) ->
  quota_usage (update_success a rg sv ud c r) !! L = quota_usage c !! L /\
  quota_usage_percent (update_success a rg sv ud c r) !! L = quota_usage_percent c !! L.
Proof.
  intros HL. unfold update_success.
  destruct (quota_info_of r) as [qi |]; [| auto].
  destruct (_ && _); [| auto].
  destruct (ud !! quota_code r) as [u |] eqn:E; [| auto].
  cbn. rewrite !lookup_insert_ne; [auto | |];
    intros <-; apply (HL (quota_name r) (quota_code r)); congruence.
Qed.

Lemma update_skipped_series (a rg sv : string) (ud : gmap string float) (c : t)
  (r : QuotaResult) (L : labels) :
  (forall name code, ud !! code <> None -> L <> labels_of a rg sv name code) ->
  quota_usage (update_skipped a rg sv ud c r) !! L = quota_usage c !! L /\
  quota_usage_percent (update_skipped a rg sv ud c r) !! L = quota_usage_percent c !! L.
Proof.
  intros HL. unfold update_skipped.
  destruct (_ && _); [| auto].
  destruct (ud !! quota_code r) as [u |] eqn:E; [| auto].
  cbn. rewrite !lookup_insert_ne; [auto | |];
    intros <-; apply (HL (quota_name r) (quota_code r)); congruence.
Qed.

(** X19. [set_usage_data] for one (account, region, service) changes
    the usage and percent series only at labels of that account, region and
    service whose quota code is in the given dictionary; it never changes
    the limit series; and afterwards the stored usage of that service is
    exactly the given dictionary, so a quota code missing from it keeps its
    last exported value. *)
Theorem usage_update_is_confined_to_its_series (a rg sv : string)
  (usage : gmap string float) (c : t) (p a' rg' sv' name code : string) :
  (a', rg', sv') <> (a, rg, sv) \/ usage !! code = None ->
  quota_usage (set_usage_data a rg sv usage c) !! (p, a', rg', sv', name, code)
    = quota_usage c !! (p, a', rg', sv', name, code) /\
  quota_usage_percent (set_usage_data a rg sv usage c) !! (p, a', rg', sv', name, code)
    = quota_usage_percent c !! (p, a', rg', sv', name, code) /\
  quota_limit (set_usage_data a rg sv usage c) = quota_limit c /\
  (forall code' : string,
     _get_usage_value (set_usage_data a rg sv usage c) a rg sv code' = usage !! code').
Proof.
  intros H.
  set (L := (p, a', rg', sv', name, code)).
  assert (HL : forall name0 code0, usage !! code0 <> None ->
                 L <> labels_of a rg sv name0 code0).
  { intros name0 code0 Hu. unfold L, labels_of. intros [= -> -> -> -> -> ->].
    destruct H as [H | H]; congruence. }
  assert (G : quota_usage (set_usage_data a rg sv usage c) !! L = quota_usage c !! L /\
              quota_usage_percent (set_usage_data a rg sv usage c) !! L
                = quota_usage_percent c !! L).
  { unfold set_usage_data. cbv zeta.
    set (c0 := store_usage_data (a, rg, sv) usage c).
    apply (fold_left_preserves
             (fun x : t => quota_usage x !! L = quota_usage c !! L /\
                           quota_usage_percent x !! L = quota_usage_percent c !! L)).
    { intros x r [A B].
      destruct (update_skipped_series a rg sv usage x r L HL) as [A' B'].
      split; [exact (eq_trans A' A) | exact (eq_trans B' B)]. }
    apply (fold_left_preserves
             (fun x : t => quota_usage x !! L = quota_usage c !! L /\
                           quota_usage_percent x !! L = quota_usage_percent c !! L)).
    { intros x r [A B].
      destruct (update_success_series a rg sv usage x r L HL) as [A' B'].
      split; [exact (eq_trans A' A) | exact (eq_trans B' B)]. }
    now cbn. }
  destruct G as [G1 G2]. split; [exact G1 |]. split; [exact G2 |].
  split; [apply set_usage_data_limit |].
  intros code'. unfold _get_usage_value.
  destruct (set_usage_data_frame a rg sv usage c) as (_ & U & _).
  rewrite U, lookup_insert_eq. reflexivity.
Qed.

(** X20. For a success result that carries its account and region in
    its quota dictionary (as the orchestrator builds it), the exported limit,
    usage and percent are the same whether the limit is recorded before the
    usage arrives or after it: the limit of the result, the usage value, and
    the percent derived from the two. Earlier results at the same labels do
    not matter, provided none of them is a skipped one. *)
Theorem limit_and_usage_arrive_in_either_order (c : t) (r : QuotaResult)
  (qi : quota_info) (usage : gmap string float) (u : float) :
  is_success r = true ->
  quota_info_of r = Some qi -> dict_truthy qi = true ->
  qi_account_id qi = Some (account_id r) -> qi_region qi = Some (region r) ->
  usage !! quota_code r = Some u ->
  (forall x, In x (results c) -> is_skipped x = true ->
             labels_of_result r <> labels_of_result x) ->
  let limit_first :=
    set_usage_data (account_id r) (region r) (service r) usage (add_result r c) in
  let usage_first :=
    add_result r (set_usage_data (account_id r) (region r) (service r) usage c) in
  (quota_limit limit_first !! labels_of_result r = Some (limit_of_result r) /\
   quota_usage limit_first !! labels_of_result r = Some u /\
   quota_usage_percent limit_first !! labels_of_result r
     = Some (percent_of u (limit_of_result r))) /\
  (quota_limit usage_first !! labels_of_result r = Some (limit_of_result r) /\
   quota_usage usage_first !! labels_of_result r = Some u /\
   quota_usage_percent usage_first !! labels_of_result r
     = Some (percent_of u (limit_of_result r))).
Proof.
  intros Hs Hq Hd Ha Hr Hu Hk limit_first usage_first. split.
  - unfold limit_first. split.
    { rewrite set_usage_data_limit. now apply add_result_success. }
    unfold set_usage_data. cbv zeta.
    set (a := account_id r). set (rg := region r). set (sv := service r).
    set (c1 := store_usage_data (a, rg, sv) usage (add_result r c)).
    assert (R1 : results c1 = results c ++ [r]) by apply add_result_results.
    rewrite R1.
    set (P := fun x : t =>
                quota_usage x !! labels_of_result r = Some u /\
                quota_usage_percent x !! labels_of_result r
                  = Some (percent_of u (limit_of_result r))).
    change (P (fold_left (update_skipped a rg sv usage) (results c ++ [r])
                 (fold_left (update_success a rg sv usage) (results c ++ [r]) c1))).
    apply fold_left_invariant_in.
    { intros x y Hy [A B].
      destruct (update_skipped_keeps a rg sv usage x y (labels_of_result r)) as [A' B'].
      - intros Hsk _ _ _. apply in_app_or in Hy as [Hy | [<- | []]].
        + now apply Hk.
        + unfold is_skipped in Hsk. unfold is_success in Hs.
          destruct (status r); discriminate.
      - unfold P. now rewrite A', B'. }
    rewrite fold_left_app. cbn [fold_left].
    unfold P, update_success. rewrite Hq, Hs, Hd, Hu. cbn [andb].
    rewrite !bool_decide_eq_true_2 by (unfold a, rg, sv; assumption || reflexivity).
    cbn [andb]. cbn [quota_usage quota_usage_percent set_percent set_usage].
    unfold labels_of_result. fold a rg sv. rewrite !lookup_insert_eq.
    unfold limit_of_result. rewrite Hq. auto.
  - unfold usage_first.
    destruct (add_result_success
                (set_usage_data (account_id r) (region r) (service r) usage c) r Hs)
      as (A & B & C).
    destruct (set_usage_data_frame (account_id r) (region r) (service r) usage c)
      as (_ & U & _).
    assert (V : _get_usage_value
                  (set_usage_data (account_id r) (region r) (service r) usage c)
                  (account_id r) (region r) (service r) (quota_code r) = Some u).
    { unfold _get_usage_value. rewrite U, lookup_insert_eq. exact Hu. }
    rewrite V in B, C. auto.
Qed.

End Series.

(** ** Runs of the orchestrator *)

Section Runs.
Import Run.
Variable R : state -> state -> Prop.
Hypothesis R_refl : forall s, R s s.
Hypothesis R_trans : forall s1 s2 s3, R s1 s2 -> R s2 s3 -> R s1 s3.

Lemma runs_ret {A} (a : A) : runs R (ret a).
Proof. intros s. apply R_refl. Qed.

Lemma runs_bind {A B} (m : M A) (k : A -> M B) :
  runs R m -> (forall a, runs R (k a)) -> runs R (bind m k).
Proof.
  intros Hm Hk s. unfold bind. specialize (Hm s).
  destruct (m s) as [a s1]. cbn [snd] in Hm.
  eapply R_trans; [exact Hm | apply Hk].
Qed.

Lemma runs_for_each {A B} (xs : list A) (body : A -> M (list B)) :
  (forall x, In x xs -> runs R (body x)) -> runs R (for_each xs body).
Proof.
  induction xs as [| x xs IH]; intros H; cbn [for_each].
  - apply runs_ret.
  - apply runs_bind; [apply H; now left |]. intros r.
    apply runs_bind; [apply IH; intros y Hy; apply H; now right |].
    intros rs. apply runs_ret.
Qed.

End Runs.

Section Limits.
Import Orchestrator Run.

Lemma extends_refl (P : event -> Prop) (s : state) : extends P s s.
Proof.
  split; [lia |]. split; [lra |]. exists []. now rewrite app_nil_r.
Qed.

Lemma extends_trans (P : event -> Prop) (s1 s2 s3 : state) :
  extends P s1 s2 -> extends P s2 s3 -> extends P s1 s3.
Proof.
  intros (A1 & C1 & e1 & T1 & F1) (A2 & C2 & e2 & T2 & F2).
  split; [lia |]. split; [lra |]. exists (e1 ++ e2).
  split; [rewrite T2, T1; now rewrite app_assoc | now apply Forall_app].
Qed.

Lemma extends_weaken (P Q : event -> Prop) (s s' : state) :
  (forall e, P e -> Q e) -> extends P s s' -> extends Q s s'.
Proof.
  intros H (A & C & evs & T & F). split; [exact A |]. split; [exact C |].
  exists evs. split; [exact T |]. eapply Forall_impl; [exact F | exact H].
Qed.

Lemma extends_new_events (P : event -> Prop) (s s' : state) :
  extends P s s' -> Forall P (Orchestrator.new_events s s').
Proof.
  intros (_ & _ & evs & T & F). unfold Orchestrator.new_events.
  rewrite T. now rewrite drop_app_length.
Qed.

Lemma bind_run {A B} (m : M A) (k : A -> M B) (s : state) :
  bind m k s = k (fst (m s)) (snd (m s)).
Proof. unfold bind. now destruct (m s). Qed.

Lemma for_each_cons {A B} (x : A) (xs : list A) (body : A -> M (list B)) (s : state) :
  for_each (x :: xs) body s
  = (fst (body x s) ++ fst (for_each xs body (snd (body x s))),
     snd (for_each xs body (snd (body x s)))).
Proof.
  cbn [for_each]. rewrite !bind_run. unfold ret.
  now destruct (for_each xs body (snd (body x s))).
Qed.

Lemma limit_event_mono (l1 l2 : list string) (e : event) :
  (forall x, In x l1 -> In x l2) -> limit_event l1 e -> limit_event l2 e.
Proof. intros H. destruct e; cbn; auto. Qed.

Lemma sleep_extends (P : event -> Prop) (site : sleep_site) (d : Q) :
  (0 <= d)%Q -> P (EvSleep site d) -> runs (extends P) (sleep site d).
Proof.
  intros Hd HP s. unfold sleep, extends. cbn [snd api_calls clock trace].
  split; [lia |]. split; [lra |].
  exists [EvSleep site d]. split; [reflexivity |]. now constructor.
Qed.

Lemma get_service_quota_extends (w : World) (cl : ServiceQuotasClient)
  (sv code : string) :
  runs (extends (limit_event [client_region cl])) (Client.get_service_quota w cl sv code).
Proof.
  intros s. rewrite get_service_quota_run. unfold extends.
  cbn [snd api_calls clock trace].
  split; [lia |]. split.
  { unfold client_clock. destruct (client_throttled _); lra. }
  eexists. split; [reflexivity |]. unfold client_events.
  constructor; [cbn; now left |]. destruct (client_throttled _); repeat constructor.
Qed.

Lemma wait_time_nonneg (n : nat) : (0 <= inject_Z (wait_time n))%Q.
Proof.
  change 0%Q with (inject_Z 0). rewrite <- Zle_Qle. unfold wait_time.
  assert (0 <= 2 ^ Z.of_nat n) by (apply Z.pow_nonneg; lia). lia.
Qed.

Lemma retry_loop_extends (w : World) (cl : ServiceQuotasClient) (sv code : string)
  (fuel : nat) :
  forall rc, runs (extends (limit_event [client_region cl]))
               (retry_loop fuel w cl sv code rc).
Proof.
  induction fuel as [| fuel IH]; intros rc; cbn [retry_loop].
  - apply runs_ret, extends_refl.
  - destruct (rc <? max_retries)%nat; [| apply runs_ret, extends_refl].
    apply runs_bind; [apply extends_trans | apply get_service_quota_extends |].
    intros [q | e]; [apply runs_ret, extends_refl |].
    destruct (_ && _); [| apply runs_ret, extends_refl].
    apply runs_bind; [apply extends_trans | |].
    + apply sleep_extends; [apply wait_time_nonneg | exact I].
    + intros _. apply IH.
Qed.

Lemma fetch_with_retry_extends (w : World) (cl : ServiceQuotasClient) (sv code : string) :
  runs (extends (limit_event [client_region cl])) (fetch_with_retry w cl sv code).
Proof. apply retry_loop_extends. Qed.

Lemma retry_loop_calls (w : World) (cl : ServiceQuotasClient) (sv code : string)
  (fuel : nat) :
  forall rc s,
  (api_calls (snd (retry_loop fuel w cl sv code rc s))
   <= api_calls s + (max_retries - rc))%nat.
Proof.
  induction fuel as [| fuel IH]; intros rc s; cbn [retry_loop].
  - unfold ret. cbn [snd]. lia.
  - destruct (rc <? max_retries)%nat eqn:Erc; [| unfold ret; cbn [snd]; lia].
    apply Nat.ltb_lt in Erc. unfold bind at 1. rewrite get_service_quota_run.
    destruct (client_result code _) as [q | e];
      [unfold ret; cbn [snd api_calls]; lia |].
    destruct (Py.str_in _ _ && (rc <? max_retries - 1)%nat) eqn:Et;
      [| unfold ret; cbn [snd api_calls]; lia].
    unfold bind, sleep. cbn [snd].
    etransitivity; [apply IH |]. cbn [api_calls]. lia.
Qed.

Lemma retry_loop_good (w : World) (cl : ServiceQuotasClient) (sv code : string)
  (fuel : nat) :
  forall rc s,
  (rc < max_retries)%nat -> (max_retries - rc <= fuel)%nat ->
  good_fetch (fst (retry_loop fuel w cl sv code rc s)).
Proof.
  induction fuel as [| fuel IH]; intros rc s Hrc Hf; [lia |].
  cbn [retry_loop]. apply Nat.ltb_lt in Hrc as Hrc'. rewrite Hrc'.
  unfold bind at 1. rewrite get_service_quota_run.
  unfold client_result.
  destruct (remote_get_service_quota w (api_calls s) cl sv code) as [resp | e].
  - reflexivity.
  - destruct (Py.str_in _ _ && (rc <? max_retries - 1)%nat) eqn:Et; [| exact I].
    apply andb_true_iff in Et as [_ Et]. apply Nat.ltb_lt in Et.
    unfold bind, sleep. cbn [snd fst]. apply IH; lia.
Qed.

Lemma fetch_with_retry_good (w : World) (cl : ServiceQuotasClient) (sv code : string)
  (s : state) :
  good_fetch (fst (fetch_with_retry w cl sv code s)).
Proof. apply retry_loop_good; unfold max_retries; lia. Qed.

Lemma fetch_with_retry_calls (w : World) (cl : ServiceQuotasClient) (sv code : string)
  (s : state) :
  (api_calls (snd (fetch_with_retry w cl sv code s)) <= api_calls s + 3)%nat.
Proof. etransitivity; [apply retry_loop_calls |]. unfold max_retries. lia. Qed.

Lemma cache_lookup_run (cache : option QuotaLimitCache.t) (a rg sv code : string)
  (s : state) :
  snd (cache_lookup cache a rg sv code s) = s /\
  match fst (cache_lookup cache a rg sv code s) with
  | Some qi => dict_truthy qi = true
  | None => True
  end.
Proof.
  unfold cache_lookup. destruct cache as [c |]; [| now cbn].
  destruct (negb (QuotaLimitCache.is_force_refresh c)); [| now cbn].
  unfold QuotaLimitCache.get.
  destruct (cache_files s !! (a, rg, sv)) as [[| d] |]; try (destruct s; now cbn).
  cbv zeta. destruct (Qgtb _ _); [destruct s; now cbn |].
  destruct (default ∅ (QuotaLimitCache.cd_quotas d) !! code) as [q |];
    [| destruct s; now cbn].
  destruct (dict_truthy q) eqn:E; destruct s; now cbn.
Qed.

(** The fetch made for a statically configured quota when the cache gave
    nothing. *)
Lemma collect_static_quota_run (w : World) (cache : option QuotaLimitCache.t)
  (cl : ServiceQuotasClient) (a sv rg : string) (q : QuotaItem) (s : state) :
  let code := item_quota_code q in
  let s1 := snd (sleep PreDelay (1 # 10) s) in
  let f := fetch_with_retry w cl sv code s1 in
  collect_static_quota w cache cl a sv rg q s
  = match fst (cache_lookup cache a rg sv code s) with
    | Some qi => ([result_of_fetch sv q a rg (Returns (Some qi))], s)
    | None =>
        ([result_of_fetch sv q a rg (fst f)],
         match fst f, cache with
         | Returns (Some qi), Some c =>
             if dict_truthy qi then snd (cache_store c a rg sv code qi (snd f))
             else snd f
         | _, _ => snd f
         end)
    end.
Proof.
  intros code s1 f. subst f s1. unfold collect_static_quota. fold code.
  unfold bind at 1. destruct (cache_lookup_run cache a rg sv code s) as [S _].
  destruct (cache_lookup cache a rg sv code s) as [o s0]. cbn [fst snd] in *. subst s0.
  destruct o as [qi |]; [reflexivity |].
  unfold bind, sleep. cbn [snd].
  destruct (fetch_with_retry w cl sv code _) as [o s2]. cbn [fst snd].
  destruct o as [[qi |] | e]; try reflexivity.
  destruct cache as [c |]; [| reflexivity].
  destruct (dict_truthy qi); reflexivity.
Qed.

Lemma retry_loop_first_call (w : World) (cl : ServiceQuotasClient) (sv code : string)
  (fuel rc : nat) (s : state) :
  (rc < max_retries)%nat ->
  exists evs,
    trace (snd (retry_loop (S fuel) w cl sv code rc s))
    = trace s ++ EvGetServiceQuota (client_region cl) sv code :: evs /\
    (api_calls s < api_calls (snd (retry_loop (S fuel) w cl sv code rc s)))%nat.
Proof.
  intros Hrc. apply Nat.ltb_lt in Hrc.
  set (o := remote_get_service_quota w (api_calls s) cl sv code).
  set (s1 := mk_state (S (api_calls s)) (trace s ++ client_events cl sv code o)
               (client_clock o (clock s)) (cache_files s)).
  assert (E : retry_loop (S fuel) w cl sv code rc s
              = match client_result code o with
                | Returns quota_info => ret (Returns (Some quota_info))
                | Raises api_error =>
                    if Py.str_in "TooManyRequestsException" (exn_str api_error)
                       && (rc <? max_retries - 1)%nat
                    then bind (sleep RetryBackoff (inject_Z (wait_time rc)))
                           (fun _ => retry_loop fuel w cl sv code (S rc))
                    else ret (Raises api_error)
                end s1).
  { cbn [retry_loop]. rewrite Hrc. unfold bind at 1.
    now rewrite get_service_quota_run. }
  rewrite E. clear E.
  assert (T1 : trace s1 = trace s ++ client_events cl sv code o) by reflexivity.
  assert (A1 : api_calls s1 = S (api_calls s)) by reflexivity.
  clearbody s1.
  assert (G : forall m : M (outcome (option quota_info)),
            runs (extends (limit_event [client_region cl])) m ->
            exists evs,
              trace (snd (m s1))
              = trace s ++ EvGetServiceQuota (client_region cl) sv code :: evs /\
              (api_calls s < api_calls (snd (m s1)))%nat).
  { intros m Hm. destruct (Hm s1) as (A & _ & evs & T & _).
    unfold client_events in T1. eexists. split; [| lia].
    rewrite T, T1. rewrite <- app_assoc. reflexivity. }
  destruct (client_result code o) as [q | e];
    [apply G, runs_ret, extends_refl |].
  destruct (_ && _); [| apply G, runs_ret, extends_refl].
  apply G. apply runs_bind; [apply extends_trans | |].
  - apply sleep_extends; [apply wait_time_nonneg | exact I].
  - intros _. apply retry_loop_extends.
Qed.

Lemma result_of_fetch_success (sv : string) (q : QuotaItem) (a rg : string)
  (o : outcome (option quota_info)) :
  status (result_of_fetch sv q a rg o) = SUCCESS ->
  exists qi, o = Returns (Some qi) /\ dict_truthy qi = true.
Proof.
  unfold result_of_fetch. destruct o as [[qi |] | e]; try discriminate.
  destruct (dict_truthy qi) eqn:E; [| discriminate]. intros _. now exists qi.
Qed.

(** X21. Write-through of the limit cache: when a statically configured
    quota misses the cache and its fetch succeeds (at least one remote call
    is made), collecting the same quota again, within the TTL of the clock
    at the write and on the same cache files, yields the same result without
    any remote call, sleep or change of state, whatever the world and the
    client are by then. *)
Theorem fetched_limit_is_served_from_cache (w w2 : World) (c : QuotaLimitCache.t)
  (cl cl2 : ServiceQuotasClient) (a sv rg : string) (q : QuotaItem) (s s2 : state) :
  let first := collect_static_quota w (Some c) cl a sv rg q s in
  QuotaLimitCache.is_force_refresh c = false ->
  fst (cache_lookup (Some c) a rg sv (item_quota_code q) s) = None ->
  Forall (fun r => status r = SUCCESS) (fst first) ->
  cache_files s2 = cache_files (snd first) ->
  (clock s2 <= clock (snd first) + inject_Z (QuotaLimitCache.cache_ttl c))%Q ->
  (api_calls s < api_calls (snd first))%nat /\
  collect_static_quota w2 (Some c) cl2 a sv rg q s2 = (fst first, s2).
Proof.
  intros first Hf Hmiss Hok Hfiles Hclock. unfold first in *. clear first.
  rewrite collect_static_quota_run in Hok, Hfiles, Hclock |- *.
  rewrite Hmiss in *. cbn [fst snd] in Hok, Hfiles, Hclock |- *.
  set (st := snd (sleep PreDelay (1 # 10) s)) in *.
  apply Forall_inv in Hok.
  apply result_of_fetch_success in Hok as (qi & Ho & Hd).
  destruct (retry_loop_first_call w cl sv (item_quota_code q) 2 0 st) as (_ & _ & Hcalls);
    [unfold max_retries; lia |].
  change (retry_loop 3 w cl sv (item_quota_code q) 0 st)
    with (fetch_with_retry w cl sv (item_quota_code q) st) in Hcalls.
  rewrite Ho, Hd in *. split; [exact Hcalls |].
  rewrite collect_static_quota_run.
  assert (L : cache_lookup (Some c) a rg sv (item_quota_code q) s2 = (Some qi, s2)).
  { destruct (cache_lookup_run (Some c) a rg sv (item_quota_code q) s2) as [S _].
    apply injective_projections; [| exact S]. cbn [fst].
    unfold cache_lookup. rewrite Hf. cbn [negb].
    rewrite Hfiles. unfold cache_store. cbn [snd cache_files clock] in *.
    now rewrite limit_get_live. }
  rewrite L. reflexivity.
Qed.

Lemma result_of_fetch_labels (sv : string) (q : QuotaItem) (a rg : string)
  (o : outcome (option quota_info)) :
  service (result_of_fetch sv q a rg o) = sv /\
  quota_code (result_of_fetch sv q a rg o) = item_quota_code q /\
  quota_name (result_of_fetch sv q a rg o) = item_quota_name q /\
  account_id (result_of_fetch sv q a rg o) = a /\
  region (result_of_fetch sv q a rg o) = rg.
Proof.
  unfold result_of_fetch. destruct o as [[qi |] | e]; cbn; auto.
  destruct (dict_truthy qi); cbn; auto.
Qed.

Lemma collect_static_quota_effect (w : World) (cache : option QuotaLimitCache.t)
  (cl : ServiceQuotasClient) (a sv rg : string) (q : QuotaItem) (s : state) :
  extends (limit_event [client_region cl]) s
    (snd (collect_static_quota w cache cl a sv rg q s)) /\
  (api_calls (snd (collect_static_quota w cache cl a sv rg q s)) <= api_calls s + 3)%nat /\
  exists o, fst (collect_static_quota w cache cl a sv rg q s)
            = [result_of_fetch sv q a rg o] /\ good_fetch o.
Proof.
  rewrite collect_static_quota_run.
  destruct (cache_lookup_run cache a rg sv (item_quota_code q) s) as [_ Hd].
  destruct (fst (cache_lookup cache a rg sv (item_quota_code q) s)) as [qi |].
  - cbn [fst snd]. split; [apply extends_refl |]. split; [lia |].
    now exists (Returns (Some qi)).
  - cbn [fst snd].
    set (s1 := snd (sleep PreDelay (1 # 10) s)).
    assert (E1 : extends (limit_event [client_region cl]) s s1).
    { apply sleep_extends; [lra | exact I]. }
    assert (A1 : api_calls s1 = api_calls s) by reflexivity.
    pose proof (fetch_with_retry_extends w cl sv (item_quota_code q) s1) as E2.
    pose proof (fetch_with_retry_calls w cl sv (item_quota_code q) s1) as C2.
    pose proof (fetch_with_retry_good w cl sv (item_quota_code q) s1) as G2.
    set (f := fetch_with_retry w cl sv (item_quota_code q) s1) in *.
    assert (E3 : extends (limit_event [client_region cl]) s (snd f))
      by (eapply extends_trans; [exact E1 | exact E2]).
    assert (K : forall c qi,
              extends (limit_event [client_region cl]) s
                (snd (cache_store c a rg sv (item_quota_code q) qi (snd f))) /\
              (api_calls (snd (cache_store c a rg sv (item_quota_code q) qi (snd f)))
               <= api_calls s + 3)%nat).
    { intros c qi. unfold cache_store. cbn [snd api_calls].
      split; [| lia]. destruct E3 as (A & C & evs & T & F).
      split; [exact A |]. split; [exact C |]. exists evs. now split. }
    split; [| split; [| now exists (fst f)]].
    + destruct (fst f) as [[qi |] | e]; try exact E3.
      destruct cache as [c |]; [| exact E3].
      destruct (dict_truthy qi); [apply K | exact E3].
    + destruct (fst f) as [[qi |] | e]; try lia.
      destruct cache as [c |]; [| lia].
      destruct (dict_truthy qi); [apply K | lia].
Qed.

(** X22. Collecting the statically configured quotas of a service
    yields exactly one result per quota, in configuration order, each
    labelled with the service, account and region it was collected for; it
    makes at most three remote calls per quota, all of them through the
    given client. *)
Theorem static_quotas_yield_one_result_each (w : World)
  (cache : option QuotaLimitCache.t) (cl : ServiceQuotasClient) (a sv rg : string)
  (quotas : list QuotaItem) (s : state) :
  let run := for_each quotas (collect_static_quota w cache cl a sv rg) s in
  map quota_code (fst run) = map item_quota_code quotas /\
  map quota_name (fst run) = map item_quota_name quotas /\
  Forall (fun r => service r = sv /\ account_id r = a /\ region r = rg) (fst run) /\
  (api_calls s <= api_calls (snd run) <= api_calls s + 3 * length quotas)%nat /\
  Forall (limit_event [client_region cl]) (new_events s (snd run)).
Proof.
  cbv zeta.
  assert (G : map quota_code
                (fst (for_each quotas (collect_static_quota w cache cl a sv rg) s))
              = map item_quota_code quotas /\
              map quota_name
                (fst (for_each quotas (collect_static_quota w cache cl a sv rg) s))
              = map item_quota_name quotas /\
              Forall (fun r => service r = sv /\ account_id r = a /\ region r = rg)
                (fst (for_each quotas (collect_static_quota w cache cl a sv rg) s)) /\
              (api_calls (snd (for_each quotas (collect_static_quota w cache cl a sv rg) s))
               <= api_calls s + 3 * length quotas)%nat).
  { revert s. induction quotas as [| q quotas IH]; intros s.
    - cbn. repeat split; auto. lia.
    - rewrite for_each_cons.
      destruct (collect_static_quota_effect w cache cl a sv rg q s)
        as (_ & C & o & R & _).
      destruct (collect_static_quota w cache cl a sv rg q s) as [r1 s1].
      cbn [fst snd] in C, R. subst r1.
      specialize (IH s1). cbn [fst snd].
      destruct IH as (I1 & I2 & I3 & I4).
      destruct (result_of_fetch_labels sv q a rg o) as (L1 & L2 & L3 & L4 & L5).
      cbn [app map length]. rewrite I1, I2, L2, L3.
      repeat split; auto; try lia. }
  destruct G as (G1 & G2 & G3 & G4).
  assert (E : extends (limit_event [client_region cl]) s
                (snd (for_each quotas (collect_static_quota w cache cl a sv rg) s))).
  { apply (runs_for_each _ (extends_refl _) (extends_trans _)).
    intros q _ s'. apply collect_static_quota_effect. }
  repeat split; auto.
  - apply E.
  - now apply extends_new_events.
Qed.

End Limits.

Section Loops.
Import Orchestrator Run.

Lemma usage_run_refl (a : string) (s : state) : usage_run a s s.
Proof. repeat split. exists []. now rewrite app_nil_r. Qed.

Lemma usage_run_trans (a : string) (s1 s2 s3 : state) :
  usage_run a s1 s2 -> usage_run a s2 s3 -> usage_run a s1 s3.
Proof.
  intros (A1 & C1 & F1 & e1 & T1 & P1) (A2 & C2 & F2 & e2 & T2 & P2).
  split; [congruence |]. split; [congruence |]. split; [congruence |].
  exists (e1 ++ e2). split; [rewrite T2, T1; now rewrite app_assoc | now apply Forall_app].
Qed.

Lemma usage_run_extends (a : string) (s s' : state) :
  usage_run a s s' -> extends (usage_event a) s s'.
Proof.
  intros (A & C & F & evs & T & P). split; [lia |]. split; [rewrite C; lra |].
  now exists evs.
Qed.

Lemma client_for_region (rg : string) (creds : option credentials) :
  client_region (client_for rg creds) = rg.
Proof. now destruct creds. Qed.

Lemma list_service_quotas_extends (w : World) (cl : ServiceQuotasClient) (sv : string) :
  runs (extends (limit_event [client_region cl])) (Client.list_service_quotas w cl sv).
Proof.
  intros s. unfold Client.list_service_quotas, emit.
  assert (E : extends (limit_event [client_region cl]) s
                (mk_state (api_calls s)
                   (trace s ++ [EvListServiceQuotas (client_region cl) sv])
                   (clock s) (cache_files s))).
  { split; [cbn; lia |]. split; [cbn; lra |]. eexists. split; [reflexivity |].
    constructor; [cbn; now left | constructor]. }
  cbn [snd]. now destruct (remote_list_service_quotas w cl sv).
Qed.

Lemma discover_quotas_extends (w : World) (cl : ServiceQuotasClient)
  (d : DiscoveryConfig) (rg : string) :
  runs (extends (limit_event [client_region cl]))
    (SageMakerDiscovery.discover_quotas w cl d rg).
Proof.
  unfold SageMakerDiscovery.discover_quotas.
  apply runs_bind; [apply extends_trans | apply list_service_quotas_extends |].
  intros [qs | e]; apply runs_ret, extends_refl.
Qed.

Lemma collect_discovered_quota_effect (w : World) (cl : ServiceQuotasClient)
  (a sv rg : string) (q : QuotaItem) (s : state) :
  extends (limit_event [client_region cl]) s
    (snd (collect_discovered_quota w cl a sv rg q s)) /\
  exists o, fst (collect_discovered_quota w cl a sv rg q s)
            = [result_of_fetch sv q a rg o] /\ good_fetch o.
Proof.
  unfold collect_discovered_quota. rewrite !bind_run. unfold ret. cbn [fst snd].
  set (s1 := snd (sleep PreDelay (1 # 10) s)).
  split.
  - eapply extends_trans; [| apply fetch_with_retry_extends].
    apply sleep_extends; [lra | exact I].
  - eexists. split; [reflexivity |]. apply fetch_with_retry_good.
Qed.

Lemma dict_truthy_with_context (q : quota_info) (a rg : string) :
  dict_truthy (with_context q a rg) = true.
Proof.
  unfold with_context, dict_truthy.
  destruct (qi_quota_code q), (qi_quota_name q), (qi_value q), (qi_unit q),
    (qi_adjustable q), (qi_global_quota q); reflexivity.
Qed.

Lemma result_of_fetch_well_formed (sv : string) (q : QuotaItem) (a rg : string)
  (o : outcome (option quota_info)) :
  good_fetch o ->
  well_formed a rg (result_of_fetch sv q a (service_region_of sv rg) o) /\
  service (result_of_fetch sv q a (service_region_of sv rg) o) = sv.
Proof.
  intros Hg. unfold result_of_fetch, well_formed.
  destruct o as [[qi |] | e]; cbn in Hg; [| contradiction |].
  - rewrite Hg. cbn [success_result account_id region service status quota_info_of].
    split; [| reflexivity]. split; [reflexivity |]. split; [reflexivity |].
    eexists. split; [reflexivity |]. split; [apply dict_truthy_with_context |].
    split; reflexivity.
  - cbn [failed_result account_id region service status error reason].
    split; [| reflexivity]. split; [reflexivity |]. split; [reflexivity |].
    eexists. split; reflexivity.
Qed.

Lemma cloudfront_results_well_formed (a rg : string) (quotas : list QuotaItem)
  (r : QuotaResult) :
  In r (cloudfront_results a (service_region_of "cloudfront" rg) quotas) ->
  well_formed a rg r /\ service r = "cloudfront".
Proof.
  intros H. apply cloudfront_results_in in H as (q & l & _ & _ & ->).
  unfold well_formed. cbn. repeat split. eexists. repeat split.
Qed.

Lemma limit_service_step_effect (w : World) (cache : option QuotaLimitCache.t)
  (creds : option credentials) (a rg : string) (cl : ServiceQuotasClient)
  (sv : string) (config : service_config) (s : state) :
  let step := limit_service_step w cache creds a rg cl (sv, config) s in
  fst (fst step) = step_client creds rg cl (sv, config) /\
  extends (limit_event [client_region (step_client creds rg cl (sv, config))]) s
    (snd step) /\
  forall r, In r (snd (fst step)) -> well_formed a rg r /\ service r = sv.
Proof.
  cbv zeta. unfold limit_service_step, step_client.
  fold (service_region_of sv rg).
  set (c1 := if in_list sv global_services && negb (String.eqb rg "us-east-1")
             then client_for "us-east-1" creds else cl).
  destruct config as [quotas | d].
  - destruct (String.eqb sv "cloudfront") eqn:Ecf.
    + apply String.eqb_eq in Ecf. subst sv. unfold ret. cbn [fst snd].
      split; [reflexivity |]. split; [apply extends_refl |].
      intros r. apply cloudfront_results_well_formed.
    + rewrite bind_run. unfold ret. cbn [fst snd].
      split; [reflexivity |]. split.
      * apply (runs_for_each _ (extends_refl _) (extends_trans _)).
        intros q _ s'. apply collect_static_quota_effect.
      * intros r.
        apply (for_each_in (fun r => well_formed a rg r /\ service r = sv)).
        intros q s' b Hb.
        destruct (collect_static_quota_effect w cache c1 a sv (service_region_of sv rg)
                    q s') as (_ & _ & o & E & G).
        rewrite E in Hb. destruct Hb as [<- | []].
        now apply result_of_fetch_well_formed.
  - destruct (enabled d).
    2:{ unfold ret. cbn [fst snd]. split; [reflexivity |].
        split; [apply extends_refl | intros r []]. }
    set (c2 := if in_list sv regional_services
                  && negb (String.eqb (service_region_of sv rg) (client_region c1))
               then client_for (service_region_of sv rg) creds else c1).
    rewrite !bind_run. unfold ret. cbn [fst snd].
    split; [reflexivity |]. split.
    + eapply extends_trans; [apply discover_quotas_extends |].
      apply (runs_for_each _ (extends_refl _) (extends_trans _)).
      intros q _ s'. apply collect_discovered_quota_effect.
    + intros r.
      apply (for_each_in (fun r => well_formed a rg r /\ service r = sv)).
      intros q s' b Hb.
      destruct (collect_discovered_quota_effect w c2 a sv (service_region_of sv rg)
                  q s') as (_ & o & E & G).
      rewrite E in Hb. destruct Hb as [<- | []].
      now apply result_of_fetch_well_formed.
Qed.

Lemma step_client_region (creds : option credentials) (rg : string)
  (cl : ServiceQuotasClient) (entry : string * service_config) :
  In (client_region (step_client creds rg cl entry)) [client_region cl; rg; "us-east-1"].
Proof.
  destruct entry as [sv config]. unfold step_client, service_region_of.
  set (c1 := if in_list sv global_services && negb (String.eqb rg "us-east-1")
             then client_for "us-east-1" creds else cl).
  assert (H1 : In (client_region c1) [client_region cl; rg; "us-east-1"]).
  { unfold c1. destruct (_ && _); [rewrite client_for_region; cbn; auto | now left]. }
  destruct config as [quotas | d]; [exact H1 |].
  destruct (enabled d); [| exact H1]. clearbody c1.
  destruct (in_list sv regional_services && _); [| exact H1].
  rewrite client_for_region. destruct (in_list sv global_services); cbn; auto.
Qed.

Lemma limit_loop_effect (w : World) (cache : option QuotaLimitCache.t)
  (creds : option credentials) (a rg : string)
  (aws : list (string * service_config)) :
  forall (cl : ServiceQuotasClient) (s : state),
  In (client_region cl) [rg; "us-east-1"] ->
  extends (limit_event [rg; "us-east-1"]) s
    (snd (limit_loop w cache creds a rg cl aws s)) /\
  forall r, In r (fst (limit_loop w cache creds a rg cl aws s)) ->
    well_formed a rg r /\ In (service r) (map fst aws).
Proof.
  induction aws as [| [sv config] rest IH]; intros cl s Hcl.
  - cbn. split; [apply extends_refl | intros r []].
  - cbn [limit_loop]. rewrite !bind_run. unfold ret. cbn [fst snd].
    destruct (limit_service_step_effect w cache creds a rg cl sv config s)
      as (C & E & W).
    assert (Hcl' : In (client_region (step_client creds rg cl (sv, config)))
                     [rg; "us-east-1"]).
    { pose proof (step_client_region creds rg cl (sv, config)) as H.
      destruct H as [H | H]; [rewrite <- H; exact Hcl | exact H]. }
    rewrite C. destruct (IH (step_client creds rg cl (sv, config))
                           (snd (limit_service_step w cache creds a rg cl (sv, config) s))
                           Hcl') as (E' & W').
    split.
    + eapply extends_trans; [| exact E'].
      eapply extends_weaken; [| exact E]. intros e. apply limit_event_mono.
      intros x [<- | []]. exact Hcl'.
    + intros r Hr. apply in_app_or in Hr as [Hr | Hr].
      * destruct (W r Hr) as [Hw <-]. split; [exact Hw | now left].
      * destruct (W' r Hr) as [Hw Hin]. split; [exact Hw | now right].
Qed.

Lemma usage_step_effect (w : World) (uc : gset string)
  (aws : list (string * service_config)) (creds : option credentials)
  (a rg sv : string) (s : state) :
  usage_run a s (snd (usage_step w uc aws creds a rg sv s)) /\
  forall it, In it (fst (usage_step w uc aws creds a rg sv s)) ->
    well_formed_item aws a rg it.
Proof.
  unfold usage_step.
  destruct (in_config sv aws) eqn:Ec; cbn [andb];
    [| split; [apply usage_run_refl | intros it []]].
  destruct (bool_decide _); [| split; [apply usage_run_refl | intros it []]].
  rewrite bind_run. unfold emit. cbn [fst snd].
  fold (service_region_of sv rg).
  set (s1 := mk_state _ _ _ _).
  assert (U : usage_run a s s1).
  { repeat split. eexists. split; [reflexivity |]. repeat constructor. }
  destruct (remote_collect_usage _ _ _ _ _) as [u | e];
    [| split; [exact U | intros it []]].
  destruct (0 <? size u)%nat eqn:Es; [| split; [exact U | intros it []]].
  split; [exact U |]. intros it [<- | []]. cbn. apply Nat.ltb_lt in Es. auto.
Qed.

Lemma in_map_fst_config (sv : string) (aws : list (string * service_config)) :
  In sv (map fst aws) -> in_config sv aws = true.
Proof.
  intros H. apply in_map_iff in H as ([k v] & <- & Hin).
  unfold in_config. apply existsb_exists. exists (k, v). split; [exact Hin |].
  apply String.eqb_refl.
Qed.

Lemma region_run_eq (w : World) (cache : option QuotaLimitCache.t)
  (uc : gset string) (aws : list (string * service_config)) (a rg : string)
  (creds : option credentials) (cl cu : bool) (s : state) :
  let um := if cu then for_each usage_services (usage_step w uc aws creds a rg)
            else ret [] in
  let lm := if cl then limit_loop w cache creds a rg (client_for rg creds) aws
            else ret [] in
  _collect_account_region_quotas w cache uc aws a rg creds cl cu s
  = (fst (um s) ++ map ResultItem (fst (lm (snd (um s)))), snd (lm (snd (um s)))).
Proof.
  cbv zeta. unfold _collect_account_region_quotas. now rewrite !bind_run.
Qed.

Lemma usage_items_of_results (rs : list QuotaResult) :
  usage_items_of (map ResultItem rs) = [].
Proof. induction rs as [| r rs IH]; [reflexivity | exact IH]. Qed.

Lemma limit_results_of_usage (items : list item) :
  (forall it, In it items -> exists a' r' sv' u, it = UsageItem a' r' sv' u) ->
  limit_results_of items = [].
Proof.
  induction items as [| it items IH]; intros H; [reflexivity |].
  destruct (H it (or_introl eq_refl)) as (a' & r' & sv' & u & ->).
  cbn. apply IH. intros x Hx. apply H. now right.
Qed.

Lemma region_run_effect (w : World) (cache : option QuotaLimitCache.t)
  (uc : gset string) (aws : list (string * service_config)) (a rg : string)
  (creds : option credentials) (cl cu : bool) (s : state) :
  let run := _collect_account_region_quotas w cache uc aws a rg creds cl cu s in
  extends (fun e => (cu = true /\ usage_event a e) \/
                    (cl = true /\ limit_event [rg; "us-east-1"] e)) s (snd run) /\
  (cl = false -> usage_run a s (snd run)) /\
  Forall (well_formed_item aws a rg) (fst run) /\
  (cl = false -> limit_results_of (fst run) = []) /\
  (cu = false -> usage_items_of (fst run) = []).
Proof.
  cbv zeta. rewrite region_run_eq. cbv zeta. cbn [fst snd].
  set (um := if cu then for_each usage_services (usage_step w uc aws creds a rg)
             else ret []).
  set (lm := if cl then limit_loop w cache creds a rg (client_for rg creds) aws
             else ret []).
  set (Pboth := fun e => (cu = true /\ usage_event a e) \/
                         (cl = true /\ limit_event [rg; "us-east-1"] e)).
  assert (U : usage_run a s (snd (um s)) /\
              extends Pboth s (snd (um s)) /\
              (forall it, In it (fst (um s)) -> well_formed_item aws a rg it) /\
              (forall it, In it (fst (um s)) ->
                 exists a' r' sv' u, it = UsageItem a' r' sv' u) /\
              (cu = false -> fst (um s) = [])).
  { unfold um, Pboth. destruct cu.
    - assert (R : usage_run a s
                    (snd (for_each usage_services (usage_step w uc aws creds a rg) s))).
      { apply (runs_for_each _ (usage_run_refl a) (usage_run_trans a)).
        intros sv _ s'. apply usage_step_effect. }
      split; [exact R |]. split; [| split; [| split; [| discriminate]]].
      + eapply extends_weaken; [| apply usage_run_extends; exact R].
        intros e He. now left.
      + apply for_each_in. intros sv s' it. apply usage_step_effect.
      + apply for_each_in. intros sv s' it. apply usage_step_items.
    - split; [apply usage_run_refl |]. split; [apply extends_refl |].
      split; [intros it [] |]. split; [intros it [] | reflexivity]. }
  destruct U as (U1 & U0 & U2 & U4 & U3).
  set (s1 := snd (um s)) in *.
  assert (L : extends Pboth s1 (snd (lm s1)) /\
              (forall r, In r (fst (lm s1)) ->
                 well_formed a rg r /\ In (service r) (map fst aws)) /\
              (cl = false -> lm s1 = ([], s1))).
  { unfold lm, Pboth. destruct cl.
    - destruct (limit_loop_effect w cache creds a rg aws (client_for rg creds) s1)
        as (E & W); [rewrite client_for_region; now left |].
      split; [| split; [exact W | discriminate]].
      eapply extends_weaken; [| exact E]. intros e He. now right.
    - split; [apply extends_refl |]. split; [intros r [] | reflexivity]. }
  destruct L as (L1 & L2 & L3).
  split; [| split; [| split; [| split]]].
  - eapply extends_trans; [exact U0 | exact L1].
  - intros Hcl. rewrite (L3 Hcl). exact U1.
  - apply List.Forall_forall. intros it Hit. apply in_app_or in Hit as [Hit | Hit].
    + now apply U2.
    + apply in_map_iff in Hit as (r & <- & Hr). destruct (L2 r Hr) as [Hw Hs].
      split; [exact Hw | now apply in_map_fst_config].
  - intros Hcl. rewrite (L3 Hcl). cbn [fst map]. rewrite app_nil_r.
    now apply limit_results_of_usage.
  - intros Hcu. rewrite (U3 Hcu). cbn [app]. apply usage_items_of_results.
Qed.

Lemma for_each_in_from {A B : Type} (xs : list A) (body : A -> M (list B)) :
  forall s b, In b (fst (for_each xs body s)) ->
  exists x s', In x xs /\ In b (fst (body x s')).
Proof.
  induction xs as [| x xs IH]; intros s b H; [destruct H |].
  rewrite for_each_cons in H. cbn [fst] in H. apply in_app_or in H as [H | H].
  - exists x, s. split; [now left | exact H].
  - destruct (IH _ _ H) as (y & s' & Hy & Hb). exists y, s'. split; [now right | exact Hb].
Qed.

Lemma limit_results_of_nil (items : list item) :
  limit_results_of items = [] ->
  forall it, In it items -> exists a' r' sv' u, it = UsageItem a' r' sv' u.
Proof.
  induction items as [| x items IH]; intros H it Hit; [destruct Hit |].
  destruct x as [a' r' sv' u | r]; [| discriminate].
  destruct Hit as [<- | Hit]; [eauto | now apply IH].
Qed.

Lemma usage_items_of_nil (items : list item) :
  usage_items_of items = [] <->
  forall it, In it items -> exists r, it = ResultItem r.
Proof.
  induction items as [| x items IH]; [split; [intros _ it [] | reflexivity] |].
  destruct x as [a' r' sv' u | r]; cbn.
  - split; [discriminate |]. intros H.
    destruct (H _ (or_introl eq_refl)) as (r & Hr). discriminate.
  - rewrite IH. split.
    + intros H it [<- | Hit]; [eauto | now apply H].
    + intros H it Hit. apply H. now right.
Qed.

Lemma account_regions_run (w : World) (cache : option QuotaLimitCache.t)
  (uc : gset string) (aws : list (string * service_config)) (cl cu : bool)
  (a : string) (s : state) :
  _collect_account_quotas w cache uc aws cl cu a s
  = for_each (account_regions w a)
      (fun region =>
         _collect_account_region_quotas w cache uc aws a region
           match get_credentials w with
           | Some provider =>
               match provider a with
               | Returns c => c
               | Raises _ => None
               end
           | None => None
           end cl cu) s.
Proof.
  unfold _collect_account_quotas, account_regions.
  destruct (get_regions w a) as [[| r rs] | e]; reflexivity.
Qed.

(** X23. In the collection of one account every usage collection is
    for that account and happens only when usage is asked for, and every
    limit call goes to us-east-1 or to one of the account's regions and
    happens only when limits are asked for. A usage-only collection makes no
    limit call, does not sleep, leaves the limit cache alone and yields no
    limit result; a limit-only one yields no usage item. *)
Theorem collection_phases_are_separate (w : World) (cache : option QuotaLimitCache.t)
  (uc : gset string) (aws : list (string * service_config)) (cl cu : bool)
  (a : string) (s : state) :
  let run := _collect_account_quotas w cache uc aws cl cu a s in
  Forall (fun e => (cu = true /\ usage_event a e) \/
                   (cl = true /\ limit_event ("us-east-1" :: account_regions w a) e))
    (new_events s (snd run)) /\
  (cl = false ->
   api_calls (snd run) = api_calls s /\ clock (snd run) = clock s /\
   cache_files (snd run) = cache_files s /\ limit_results_of (fst run) = []) /\
  (cu = false -> usage_items_of (fst run) = []).
Proof.
  cbv zeta. rewrite account_regions_run.
  set (creds := match get_credentials w with Some _ => _ | None => _ end).
  set (body := fun region =>
                 _collect_account_region_quotas w cache uc aws a region creds cl cu).
  split; [| split].
  - apply extends_new_events.
    apply (runs_for_each _ (extends_refl _) (extends_trans _)).
    intros rg Hrg s'.
    destruct (region_run_effect w cache uc aws a rg creds cl cu s') as (E & _).
    eapply extends_weaken; [| exact E].
    intros e [He | [Hc He]]; [now left | right]. split; [exact Hc |].
    eapply limit_event_mono; [| exact He].
    intros x [<- | [<- | []]]; [now right | now left].
  - intros Hcl.
    assert (R : usage_run a s (snd (for_each (account_regions w a) body s))).
    { apply (runs_for_each _ (usage_run_refl a) (usage_run_trans a)).
      intros rg _ s'. now apply region_run_effect. }
    destruct R as (A & C & F & _). repeat split; try assumption.
    apply limit_results_of_usage.
    apply (for_each_in (fun it => exists a' r' sv' u, it = UsageItem a' r' sv' u)).
    intros rg s'. apply limit_results_of_nil. now apply region_run_effect.
  - intros Hcu. apply usage_items_of_nil.
    apply (for_each_in (fun it => exists r, it = ResultItem r)).
    intros rg s'. apply usage_items_of_nil. now apply region_run_effect.
Qed.

(** X24. Every item collected for an account belongs to one of the
    account's regions and is well formed: a result carries the account, and
    the region us-east-1 when its service is global and the collected region
    otherwise; a success carries a non-empty quota dictionary with the same
    account and region; a failure carries the exception text and the reason
    code derived from it (never [empty_response]); no result is skipped; a
    usage item has a configured service and a non-empty dictionary. *)
Theorem collected_items_are_well_formed (w : World) (cache : option QuotaLimitCache.t)
  (uc : gset string) (aws : list (string * service_config)) (cl cu : bool)
  (a : string) (s : state) :
  Forall (fun it => exists rg, In rg (account_regions w a) /\
                               well_formed_item aws a rg it)
    (fst (_collect_account_quotas w cache uc aws cl cu a s)).
Proof.
  rewrite account_regions_run. apply List.Forall_forall. intros it Hit.
  apply for_each_in_from in Hit as (rg & s' & Hrg & Hit).
  exists rg. split; [exact Hrg |].
  match type of Hit with
  | In _ (fst (_collect_account_region_quotas _ _ _ _ _ _ ?c _ _ _)) =>
      destruct (region_run_effect w cache uc aws a rg c cl cu s') as (_ & _ & W & _)
  end.
  rewrite List.Forall_forall in W. now apply W.
Qed.

Lemma new_events_split (P Q : event -> Prop) (s s1 s2 : state) :
  extends P s s1 -> extends Q s1 s2 ->
  new_events s s2 = new_events s s1 ++ new_events s1 s2.
Proof.
  intros (_ & _ & e1 & T1 & _) (_ & _ & e2 & T2 & _). unfold new_events.
  rewrite T2, T1. rewrite <- app_assoc.
  rewrite !drop_app_length. rewrite app_assoc. now rewrite drop_app_length.
Qed.

Lemma static_result_for (w : World) (cache : option QuotaLimitCache.t)
  (cl : ServiceQuotasClient) (a sv rg : string) (quotas : list QuotaItem)
  (q : QuotaItem) :
  In q quotas ->
  forall s, exists o,
    In (result_of_fetch sv q a rg o)
       (fst (for_each quotas (collect_static_quota w cache cl a sv rg) s)).
Proof.
  induction quotas as [| x quotas IH]; intros Hq s; [destruct Hq |].
  rewrite for_each_cons. cbn [fst]. destruct Hq as [-> | Hq].
  - destruct (collect_static_quota_effect w cache cl a sv rg q s) as (_ & _ & o & E & _).
    exists o. apply in_or_app. left. rewrite E. now left.
  - destruct (IH Hq (snd (collect_static_quota w cache cl a sv rg x s))) as (o & Ho).
    exists o. apply in_or_app. now right.
Qed.

Lemma static_call_for (w : World) (cl : ServiceQuotasClient) (a sv rg : string)
  (quotas : list QuotaItem) (q : QuotaItem) :
  In q quotas ->
  forall s,
    In (EvGetServiceQuota (client_region cl) sv (item_quota_code q))
       (new_events s (snd (for_each quotas (collect_static_quota w None cl a sv rg) s))).
Proof.
  induction quotas as [| x quotas IH]; intros Hq s; [destruct Hq |].
  rewrite for_each_cons. cbn [snd].
  set (s1 := snd (collect_static_quota w None cl a sv rg x s)).
  assert (E1 : extends (limit_event [client_region cl]) s s1)
    by apply collect_static_quota_effect.
  assert (E2 : extends (limit_event [client_region cl]) s1
                 (snd (for_each quotas (collect_static_quota w None cl a sv rg) s1))).
  { apply (runs_for_each _ (extends_refl _) (extends_trans _)).
    intros y _ s'. apply collect_static_quota_effect. }
  rewrite (new_events_split _ _ s s1 _ E1 E2). apply in_or_app.
  destruct Hq as [-> | Hq]; [left | right; now apply IH].
  unfold s1. rewrite collect_static_quota_run. cbn [cache_lookup ret fst snd].
  set (st := snd (sleep PreDelay (1 # 10) s)).
  assert (K : snd (match fst (fetch_with_retry w cl sv (item_quota_code q) st) with
                   | Returns (Some _) | _ => 
                       ([result_of_fetch sv q a rg
                           (fst (fetch_with_retry w cl sv (item_quota_code q) st))],
                        snd (fetch_with_retry w cl sv (item_quota_code q) st))
                   end)
              = snd (fetch_with_retry w cl sv (item_quota_code q) st)).
  { now destruct (fst (fetch_with_retry w cl sv (item_quota_code q) st)) as [[?|]|?]. }
  destruct (retry_loop_first_call w cl sv (item_quota_code q) 2 0 st) as (evs & T & _);
    [unfold max_retries; lia |].
  change (retry_loop 3 w cl sv (item_quota_code q) 0 st)
    with (fetch_with_retry w cl sv (item_quota_code q) st) in T.
  unfold new_events.
  match goal with |- In _ (drop _ (trace ?x)) =>
    assert (X : trace x = trace s ++ EvSleep PreDelay (1 # 10)
                            :: EvGetServiceQuota (client_region cl) sv (item_quota_code q)
                            :: evs)
  end.
  { destruct (fst (fetch_with_retry w cl sv (item_quota_code q) st)) as [[?|]|?];
      cbn [snd]; rewrite T; unfold st, sleep; cbn [snd trace];
      now rewrite <- app_assoc. }
  rewrite X, drop_app_length. right. now left.
Qed.

Lemma global_not_regional (sv : string) :
  in_list sv global_services = true -> in_list sv regional_services = false.
Proof.
  unfold in_list, global_services, regional_services. cbn [existsb].
  rewrite !orb_false_r. intros H. apply orb_true_iff in H as [H | H];
    apply String.eqb_eq in H; subst sv; reflexivity.
Qed.

(** X25. The client of the limit loop is carried from one service to
    the next. After a global service has been handled in a region other
    than us-east-1, a statically configured regional service that follows is
    queried in us-east-1, while each of its results is labelled with the
    region being collected. *)
Theorem client_stays_in_global_region (w : World) (cache : option QuotaLimitCache.t)
  (creds : option credentials) (a rg : string) (cl : ServiceQuotasClient)
  (gsv : string) (cfg : service_config) (sv : string) (quotas : list QuotaItem)
  (s : state) :
  let run := limit_loop w cache creds a rg cl [(gsv, cfg); (sv, Static quotas)] s in
  in_list gsv global_services = true ->
  String.eqb rg "us-east-1" = false ->
  in_list sv global_services = false ->
  Forall (limit_event ["us-east-1"]) (new_events s (snd run)) /\
  (forall q, In q quotas ->
     exists r, In r (fst run) /\ service r = sv /\
               quota_code r = item_quota_code q /\ region r = rg) /\
  (cache = None -> forall q, In q quotas ->
     In (EvGetServiceQuota "us-east-1" sv (item_quota_code q))
        (new_events s (snd run))).
Proof.
  intros run Hg Hrg Hsv. unfold run. clear run.
  cbn [limit_loop]. rewrite !bind_run. unfold ret at 1 2 3 4 5 6.
  cbn [fst snd].
  destruct (limit_service_step_effect w cache creds a rg cl gsv cfg s) as (C1 & E1 & _).
  set (st1 := limit_service_step w cache creds a rg cl (gsv, cfg) s) in *.
  assert (R1 : client_region (step_client creds rg cl (gsv, cfg)) = "us-east-1").
  { unfold step_client. rewrite Hg, Hrg. cbn [andb negb].
    rewrite (global_not_regional gsv Hg). cbn [andb].
    destruct cfg as [qs | d]; [apply client_for_region |].
    destruct (enabled d); apply client_for_region. }
  rewrite R1 in E1. rewrite C1.
  set (c1 := step_client creds rg cl (gsv, cfg)) in *.
  assert (Hcf : String.eqb sv "cloudfront" = false).
  { apply String.eqb_neq. intros ->. discriminate. }
  assert (S2 : limit_service_step w cache creds a rg c1 (sv, Static quotas) (snd st1)
               = (c1, fst (for_each quotas (collect_static_quota w cache c1 a sv rg)
                             (snd st1)),
                  snd (for_each quotas (collect_static_quota w cache c1 a sv rg)
                         (snd st1)))).
  { unfold limit_service_step. rewrite Hsv, Hcf. cbn [andb].
    rewrite bind_run. reflexivity. }
  rewrite S2. cbn [fst snd].
  set (f := for_each quotas (collect_static_quota w cache c1 a sv rg) (snd st1)).
  assert (E2 : extends (limit_event ["us-east-1"]) (snd st1) (snd f)).
  { rewrite <- R1. apply (runs_for_each _ (extends_refl _) (extends_trans _)).
    intros y _ s'. apply collect_static_quota_effect. }
  split; [| split].
  - apply extends_new_events. eapply extends_trans; [exact E1 | exact E2].
  - intros q Hq.
    destruct (static_result_for w cache c1 a sv rg quotas q Hq (snd st1)) as (o & Ho).
    exists (result_of_fetch sv q a rg o).
    destruct (result_of_fetch_labels sv q a rg o) as (L1 & L2 & _ & _ & L5).
    split; [| auto]. apply in_or_app. right. rewrite app_nil_r. exact Ho.
  - intros -> q Hq.
    pose proof (new_events_split _ _ s (snd st1) (snd f) E1 E2) as N.
    match goal with |- In _ ?l => change l with (new_events s (snd f)) end.
    rewrite N. apply in_or_app. right. rewrite <- R1. fold c1. now apply static_call_for.
Qed.

End Loops.

Section Cycle.
Import Orchestrator Collector Run.












Lemma reapply_cloudfront_noop_eq (accounts : list string) (c : t) :
  (forall a, usage_data c !! (a, "us-east-1", "cloudfront") = None) ->
  reapply_cloudfront accounts c = c.
Proof.
  intros H. unfold reapply_cloudfront.
  apply (fold_left_preserves (fun x => x = c)); [| reflexivity].
  intros x a ->. now rewrite H.
Qed.




Import Sequential.














End Cycle.

(** ** More on the scheduler *)

Section SchedulingMore.
Import Scheduler.

Lemma refresh_loop_shape (interval : Z) (callback : Callable)
  (envs : list iteration_env) :
  forall n : nat,
  let t := refresh_loop interval callback n envs in
  invocations t = seq n (length (invocations t)) /\
  (length (invocations t) <= length (sleeps t) <= length envs)%nat /\
  Forall (eq interval) (sleeps t) /\
  (forall pre post i, t = pre ++ Invoked i :: post ->
     exists pre', pre = pre' ++ [Slept interval]).
Proof.
  induction envs as [| env rest IH]; intros n; cbv zeta.
  - cbn. repeat split; auto. intros [| x pre] post i H; discriminate.
  - cbn [refresh_loop].
    destruct (running_at_test env); cbn [negb].
    2:{ cbn. repeat split; auto; try lia.
        intros [| x [| y pre]] post i H; discriminate. }
    destruct (running_after_sleep env); cbn [negb].
    2:{ cbn. repeat split; auto; try lia.
        intros [| x [| y [| z pre]]] post i H; discriminate. }
    specialize (IH (S n)). cbv zeta in IH.
    destruct IH as (I1 & I2 & I3 & I4).
    set (tail := refresh_loop interval callback (S n) rest) in *.
    assert (G : forall log : list loop_event,
              invocations log = [] -> sleeps log = [] ->
              (forall pre post i, log ++ tail = pre ++ Invoked i :: post ->
                 exists pre', pre = pre' ++ [Slept interval]) ->
              let t := Slept interval :: Invoked n :: log ++ tail in
              invocations t = seq n (length (invocations t)) /\
              (length (invocations t) <= length (sleeps t) <= length (env :: rest))%nat /\
              Forall (eq interval) (sleeps t) /\
              (forall pre post i, t = pre ++ Invoked i :: post ->
                 exists pre', pre = pre' ++ [Slept interval])).
    { intros log Hi Hs Hp. cbv zeta. unfold invocations, sleeps in *.
      cbn [flat_map app]. rewrite !flat_map_app, Hi, Hs. cbn [app length seq].
      split; [f_equal; exact I1 |]. split; [lia |]. split; [now constructor |].
      intros pre post i H. destruct pre as [| x pre]; [discriminate |].
      injection H as <- H. destruct pre as [| y pre].
      - exists []. reflexivity.
      - injection H as <- H. destruct (Hp pre post i H) as (pre' & ->).
        exists (Slept interval :: Invoked n :: pre'). reflexivity. }
    destruct (callback n) as [| e].
    + apply (G []); auto.
    + destruct (is_Exception e).
      * apply (G [LoggedError e]); auto. cbn [app].
        intros pre post i H. destruct pre as [| x pre]; [discriminate |].
        injection H as <- H. destruct (I4 pre post i H) as (pre' & ->).
        now exists (LoggedError e :: pre').
      * cbn. repeat split; auto; try lia.
        intros pre post i H. destruct pre as [| x pre]; [discriminate |].
        injection H as <- H. destruct pre as [| y pre]; [now exists [] |].
        injection H as <- H. destruct pre as [| z [| z' pre]]; discriminate.
Qed.

(** X27. In both timer loops every invocation of the callback comes
    directly after a sleep of the loop's own interval, so the first run
    happens only after a full interval; the invocations are numbered from 0
    without gaps; there are at most as many invocations as sleeps and at
    most as many sleeps as iterations. *)
Theorem timer_loop_sleeps_before_every_run (self : QuotaScheduler)
  (envs : list iteration_env) :
  (let t := _limit_refresh_loop self envs in
   invocations t = seq 0 (length (invocations t)) /\
   (length (invocations t) <= length (sleeps t) <= length envs)%nat /\
   Forall (eq (limit_interval self)) (sleeps t) /\
   (forall pre post i, t = pre ++ Invoked i :: post ->
      exists pre', pre = pre' ++ [Slept (limit_interval self)])) /\
  (let t := _usage_refresh_loop self envs in
   invocations t = seq 0 (length (invocations t)) /\
   (length (invocations t) <= length (sleeps t) <= length envs)%nat /\
   Forall (eq (usage_interval self)) (sleeps t) /\
   (forall pre post i, t = pre ++ Invoked i :: post ->
      exists pre', pre = pre' ++ [Slept (usage_interval self)])).
Proof.
  split; apply refresh_loop_shape.
Qed.

(** X28. A timer loop ends without invoking its callback again: when
    the running flag is found cleared at the loop test it exits at once,
    when it is found cleared after the sleep it exits without the pending
    invocation, and when the callback raises something that is not an
    [Exception] the loop is left by that exception. In all three cases the
    later iterations never happen. *)
Theorem timer_loop_ends_without_a_further_run (interval : Z) (callback : Callable)
  (n : nat) (pre : list iteration_env) (env : iteration_env)
  (rest : list iteration_env) :
  Forall stays_running pre ->
  (forall i e, (n <= i < n + length pre)%nat -> callback i = CbRaises e ->
               is_Exception e = true) ->
  (running_at_test env = false ->
   refresh_loop interval callback n (pre ++ env :: rest)
   = cycles interval callback n (length pre) ++ [LoopExited]) /\
  (running_at_test env = true -> running_after_sleep env = false ->
   refresh_loop interval callback n (pre ++ env :: rest)
   = cycles interval callback n (length pre) ++ [Slept interval; LoopExited]) /\
  (forall e, stays_running env ->
   callback (n + length pre)%nat = CbRaises e -> is_Exception e = false ->
   refresh_loop interval callback n (pre ++ env :: rest)
   = cycles interval callback n (length pre)
     ++ [Slept interval; Invoked (n + length pre); Escaped e]).
Proof.
  intros Hrun Hexn.
  rewrite (refresh_loop_cycles interval callback pre n (env :: rest) Hrun Hexn).
  cbn [refresh_loop]. split; [| split].
  - intros ->. reflexivity.
  - intros -> ->. reflexivity.
  - intros e [-> ->] -> ->. reflexivity.
Qed.

End SchedulingMore.

Lemma timer_loop_ends_without_a_further_run_witness :
  Scheduler._usage_refresh_loop Examples.scheduler
    [Examples.running; Scheduler.mk_iteration_env true false; Examples.running]
  = [Scheduler.Slept 3600; Scheduler.Invoked 0; Scheduler.Slept 3600;
     Scheduler.LoopExited].
Proof.
  destruct (timer_loop_ends_without_a_further_run 3600 Examples.always_ok 0
              [Examples.running] (Scheduler.mk_iteration_env true false)
              [Examples.running]) as (_ & H & _).
  - repeat constructor.
  - intros i e _ Hcb. discriminate.
  - exact (H eq_refl eq_refl).
Defined.

(** ** More on quota discovery *)

Section DiscoveryMore.
Import SageMakerDiscovery.

Lemma ascii_lower_idem (c : ascii) : Py.ascii_lower (Py.ascii_lower c) = Py.ascii_lower c.
Proof. destruct c as [[] [] [] [] [] [] [] []]; reflexivity. Qed.

Lemma lower_idem (s : string) : Py.lower (Py.lower s) = Py.lower s.
Proof.
  induction s as [| c s IH]; [reflexivity |].
  cbn [Py.lower]. now rewrite ascii_lower_idem, IH.
Qed.

Lemma all_keywords_in_lower (keywords : list string) (n : string) :
  all_keywords_in (map Py.lower keywords) n = all_keywords_in keywords n.
Proof.
  unfold all_keywords_in. induction keywords as [| k ks IH]; [reflexivity |].
  cbn [map forallb]. now rewrite lower_idem, IH.
Qed.

Lemma match_catalog_filter (config : DiscoveryConfig) (catalog : list catalog_entry) :
  match_catalog config catalog
  = map (item_of config)
      (List.filter (fun q => _matches_rules config (entry_quota_name q)) catalog).
Proof.
  induction catalog as [| q rest IH]; [reflexivity |].
  cbn [match_catalog List.filter].
  destruct (_matches_rules config (entry_quota_name q)); cbn [map]; now rewrite IH.
Qed.

Lemma matches_rules_loop_app (r1 r2 : list match_rule) (n : string) :
  matches_rules_loop (r1 ++ r2) n
  = matches_rules_loop r1 n || matches_rules_loop r2 n.
Proof.
  induction r1 as [| r r1 IH]; [reflexivity |].
  cbn [app matches_rules_loop]. destruct (name_contains r) as [kws |]; [| exact IH].
  destruct (all_keywords_in kws n); [reflexivity | exact IH].
Qed.

(** X29. Rule matching ignores case on both sides: a quota name
    matches exactly when its lower-case form does, two names that agree up
    to case match alike, and lower-casing the keywords of every rule changes
    nothing. *)
Theorem discovery_matching_ignores_case (config : DiscoveryConfig) (name : string) :
  _matches_rules config (Py.lower name) = _matches_rules config name /\
  (forall name' : string, Py.lower name' = Py.lower name ->
     _matches_rules config name' = _matches_rules config name) /\
  _matches_rules
    (mk_DiscoveryConfig (enabled config)
       (map (fun rule => mk_rule (option_map (map Py.lower) (name_contains rule)))
          (match_rules config))
       (default_priority config)) name
  = _matches_rules config name.
Proof.
  unfold _matches_rules. split; [now rewrite lower_idem |].
  split; [now intros name' -> |].
  cbn [match_rules]. induction (match_rules config) as [| r rules IH]; [reflexivity |].
  cbn [map matches_rules_loop name_contains].
  destruct (name_contains r) as [kws |]; cbn [option_map]; [| exact IH].
  rewrite all_keywords_in_lower, IH. reflexivity.
Qed.

(** X30. The discovered items are the catalog entries whose names
    match, in catalog order. With no rule, or only rules without
    [name_contains], nothing is discovered; with a rule whose keyword list
    is empty everything is; and adding rules, before or after the configured
    ones, never removes a discovered item. *)
Theorem discovery_rule_sets (config : DiscoveryConfig) (catalog : list catalog_entry) :
  match_catalog config catalog
    = map (item_of config)
        (List.filter (fun q => _matches_rules config (entry_quota_name q)) catalog) /\
  (length (match_catalog config catalog) <= length catalog)%nat /\
  (match_rules config = [] -> match_catalog config catalog = []) /\
  (Forall (fun rule => name_contains rule = None) (match_rules config) ->
   match_catalog config catalog = []) /\
  (In (mk_rule (Some [])) (match_rules config) ->
   match_catalog config catalog = map (item_of config) catalog) /\
  (forall (more : list match_rule) (item : QuotaItem),
     In item (match_catalog config catalog) ->
     In item (match_catalog
                (mk_DiscoveryConfig (enabled config) (match_rules config ++ more)
                   (default_priority config)) catalog) /\
     In item (match_catalog
                (mk_DiscoveryConfig (enabled config) (more ++ match_rules config)
                   (default_priority config)) catalog)).
Proof.
  split; [apply match_catalog_filter |]. split.
  { rewrite match_catalog_filter, length_map. apply filter_length_le. }
  assert (N : forall rules n, Forall (fun rule => name_contains rule = None) rules ->
                matches_rules_loop rules n = false).
  { intros rules n H. induction H as [| r rules Hr _ IH]; [reflexivity |].
    cbn [matches_rules_loop]. now rewrite Hr. }
  assert (Z : (forall q, _matches_rules config (entry_quota_name q) = false) ->
              match_catalog config catalog = []).
  { intros H. induction catalog as [| q rest IH]; [reflexivity |].
    cbn [match_catalog]. now rewrite H. }
  split; [| split; [| split]].
  - intros E. apply Z. intros q. unfold _matches_rules. now rewrite E.
  - intros H. apply Z. intros q. unfold _matches_rules. now apply N.
  - intros H. rewrite match_catalog_filter. f_equal.
    assert (A : forall n, _matches_rules config n = true).
    { intros n. unfold _matches_rules. apply matches_rules_loop_spec.
      exists (mk_rule (Some [])), []. repeat split; [exact H |]. intros kw []. }
    clear Z. induction catalog as [| q rest IH]; [reflexivity |].
    cbn [List.filter]. now rewrite A, IH.
  - intros more item. rewrite !match_catalog_filter, !in_map_iff.
    intros (q & <- & Hq). apply filter_In in Hq as [Hin Hm].
    unfold _matches_rules in *. cbn [match_rules].
    split; exists q; (split; [reflexivity |]); apply filter_In;
      (split; [exact Hin |]); rewrite matches_rules_loop_app, Hm;
      [reflexivity | apply orb_true_r].
Qed.

End DiscoveryMore.

(** ** The further properties on the concrete inputs *)

Section ConcreteMore.

(** Account 111 is fetched once and then served from the cache ten seconds
    later. *)
Lemma credentials_are_cached_for_an_hour_witness :
  fst (CMDBCredentialProvider.get_credentials Examples.credential_env "111"
         (snd (CMDBCredentialProvider.get_credentials Examples.credential_env "111"
                 CMDBCredentialProvider.init)))
  = Some Examples.keys.
Proof.
  pose proof (credentials_are_cached_for_an_hour Examples.credential_env "111"
                CMDBCredentialProvider.init Examples.keys) as H.
  cbv zeta in H. destruct H as (_ & _ & H & _).
  - apply lookup_empty.
  - unfold CMDBCredentialProvider.db_answer. cbn.
    now rewrite lookup_singleton_eq.
  - apply H. vm_compute. reflexivity.
Defined.

(** An account the database does not know is asked for again. *)
Lemma credential_misses_are_not_cached_witness :
  fst (CMDBCredentialProvider.get_credentials Examples.empty_credential_env "999"
         CMDBCredentialProvider.init) = None /\
  CMDBCredentialProvider.db_calls
    (snd (CMDBCredentialProvider.get_credentials Examples.empty_credential_env "999"
            (snd (CMDBCredentialProvider.get_credentials Examples.empty_credential_env
                    "999" CMDBCredentialProvider.init))))
  = 2%nat.
Proof.
  destruct (credential_misses_are_not_cached Examples.empty_credential_env "999"
              CMDBCredentialProvider.init) as (A & _ & _ & _ & B).
  - apply lookup_empty.
  - unfold CMDBCredentialProvider.db_answer. cbn. now rewrite lookup_empty.
  - split; [exact A | exact B].
Defined.

(** The regions of account 111 are remembered after the first call. *)
Lemma region_provider_memoises_without_expiry_witness :
  CMDBRegionProvider.get_regions
    (snd (fst (CMDBRegionProvider.get_regions Examples.region_provider
                 Examples.region_env (Some "111") Examples.region_s0)))
    Examples.region_env (Some "111") Examples.region_s0
  = (fst (fst (CMDBRegionProvider.get_regions Examples.region_provider
                 Examples.region_env (Some "111") Examples.region_s0)),
     snd (fst (CMDBRegionProvider.get_regions Examples.region_provider
                 Examples.region_env (Some "111") Examples.region_s0)),
     Examples.region_s0).
Proof.
  pose proof (region_provider_memoises_without_expiry Examples.region_provider
                Examples.discoverer Examples.region_env "1"%char "11"
                Examples.region_s0) as H.
  cbv zeta in H. destruct H as (_ & H).
  - reflexivity.
  - apply lookup_empty.
  - apply H.
Defined.

(** Without the cache, account 111 is reported with the candidates its
    probe finds instances in. *)
Lemma uncached_discovery_reports_probed_candidates_witness :
  fst (ActiveRegionDiscoverer.discover_ec2_used_regions_from_provider
         Examples.discoverer Examples.region_env false true Examples.region_s0)
    !! "111"
  = Some (ActiveRegionDiscoverer.probed_regions Examples.region_env
            (ActiveRegionDiscoverer.get_region_candidates Examples.region_env)
            ("AKIAEXAMPLE", "secret")).
Proof.
  pose proof (uncached_discovery_reports_probed_candidates Examples.discoverer
                Examples.region_env false true Examples.region_s0 "111" eq_refl) as H.
  cbv zeta in H. destruct H as (_ & H & _).
  apply (H Examples.keys).
  - discriminate.
  - repeat constructor. intros H0. inversion H0.
  - now left.
  - reflexivity.
Defined.

Lemma uncached_discovery_probes_each_account_once_witness :
  ActiveRegionDiscoverer.probes
    (snd (ActiveRegionDiscoverer.discover_ec2_used_regions_from_provider
            Examples.discoverer Examples.region_env false true Examples.region_s0))
  = [ActiveRegionDiscoverer.EvProbe "111" "eu-west-1";
     ActiveRegionDiscoverer.EvProbe "111" "us-east-1"].
Proof.
  destruct (uncached_discovery_probes_each_account_once Examples.discoverer
              Examples.region_env false true Examples.region_s0) as (H & _).
  - reflexivity.
  - discriminate.
  - rewrite H. reflexivity.
Defined.

(** With no cache file, account 111 is probed and reported. *)
Lemma stale_cache_is_probed_again_witness :
  fst (ActiveRegionDiscoverer.discover_ec2_used_regions_from_provider
         Examples.discoverer Examples.region_env true false Examples.region_s0)
    !! "111"
  = Some (ActiveRegionDiscoverer.probed_regions Examples.region_env
            (ActiveRegionDiscoverer.get_region_candidates Examples.region_env)
            ("AKIAEXAMPLE", "secret")).
Proof.
  pose proof (stale_cache_is_probed_again Examples.discoverer Examples.region_env
                "111" Examples.keys ("AKIAEXAMPLE", "secret") Examples.region_s0) as H.
  cbv zeta in H. destruct H as (H & _).
  - discriminate.
  - repeat constructor. intros H0. inversion H0.
  - now left.
  - reflexivity.
  - exact I.
  - exact H.
Defined.

(** A skipped result leaves the limit series of a fresh collector empty. *)
Lemma failures_touch_no_series_witness :
  Collector.quota_limit (Collector.add_result Examples.skipped_result Collector.init)
  = Collector.quota_limit Collector.init.
Proof.
  destruct (failures_touch_no_series Collector.init Examples.skipped_result)
    as ((H & _) & _).
  - reflexivity.
  - exact H.
Defined.

(** Usage of account 111 does not touch the series of account 222. *)
Lemma usage_update_is_confined_to_its_series_witness :
  Collector.quota_usage
    (Collector.set_usage_data "111" "us-east-1" "cloudfront" Examples.usage_50
       Collector.init)
    !! ("aws", "222", "us-east-1", "cloudfront", "Web distributions per AWS account",
        "L-24B04930")
  = Collector.quota_usage Collector.init
    !! ("aws", "222", "us-east-1", "cloudfront", "Web distributions per AWS account",
        "L-24B04930").
Proof.
  destruct (usage_update_is_confined_to_its_series "111" "us-east-1" "cloudfront"
              Examples.usage_50 Collector.init "aws" "222" "us-east-1" "cloudfront"
              "Web distributions per AWS account" "L-24B04930") as (H & _).
  - left. discriminate.
  - exact H.
Defined.

(** Limit 200 and usage 50 give 25 percent in either order. *)
Lemma limit_and_usage_arrive_in_either_order_witness :
  Collector.quota_usage_percent
    (Collector.set_usage_data "111" "us-east-1" "cloudfront" Examples.usage_50
       (Collector.add_result Examples.result_200 Collector.init))
    !! Collector.labels_of_result Examples.result_200 = Some 25%float /\
  Collector.quota_usage_percent
    (Collector.add_result Examples.result_200
       (Collector.set_usage_data "111" "us-east-1" "cloudfront" Examples.usage_50
          Collector.init))
    !! Collector.labels_of_result Examples.result_200 = Some 25%float.
Proof.
  pose proof (limit_and_usage_arrive_in_either_order Collector.init Examples.result_200
                (mk_quota_info (Some "L-24B04930")
                   (Some "Web distributions per AWS account") (Some 200%float)
                   None None None (Some "111") (Some "us-east-1"))
                Examples.usage_50 50%float) as H.
  cbv zeta in H. destruct H as ((_ & _ & A) & (_ & _ & B)).
  - reflexivity.
  - reflexivity.
  - reflexivity.
  - reflexivity.
  - reflexivity.
  - apply lookup_singleton_eq.
  - intros x [].
  - split; [exact A | exact B].
Defined.

(** A fetched limit is served from the cache on the next collection. *)
Lemma fetched_limit_is_served_from_cache_witness :
  Orchestrator.collect_static_quota Examples.w_throttle (Some Examples.limit_cache)
    Examples.default_client "111" "ec2" "us-east-1" Examples.ec2_quota
    (snd (Orchestrator.collect_static_quota Examples.w_ok (Some Examples.limit_cache)
            Examples.default_client "111" "ec2" "us-east-1" Examples.ec2_quota
            Examples.s0))
  = (fst (Orchestrator.collect_static_quota Examples.w_ok (Some Examples.limit_cache)
            Examples.default_client "111" "ec2" "us-east-1" Examples.ec2_quota
            Examples.s0),
     snd (Orchestrator.collect_static_quota Examples.w_ok (Some Examples.limit_cache)
            Examples.default_client "111" "ec2" "us-east-1" Examples.ec2_quota
            Examples.s0)).
Proof.
  pose proof (fetched_limit_is_served_from_cache Examples.w_ok Examples.w_throttle
                Examples.limit_cache Examples.default_client Examples.default_client
                "111" "ec2" "us-east-1" Examples.ec2_quota Examples.s0
                (snd (Orchestrator.collect_static_quota Examples.w_ok
                        (Some Examples.limit_cache) Examples.default_client "111" "ec2"
                        "us-east-1" Examples.ec2_quota Examples.s0))) as H.
  cbv zeta in H. destruct H as (_ & H).
  - reflexivity.
  - reflexivity.
  - repeat constructor.
  - reflexivity.
  - rewrite <- (Qplus_0_r (clock _)) at 1. apply Qplus_le_r. discriminate.
  - exact H.
Defined.

(** After route53 in eu-west-1 the ec2 limit is asked for in us-east-1. *)
Lemma client_stays_in_global_region_witness :
  In (EvGetServiceQuota "us-east-1" "ec2" "L-1216C47A")
     (Orchestrator.new_events Examples.s0
        (snd (Orchestrator.limit_loop Examples.w_ok None None "111" "eu-west-1"
                (client_for "eu-west-1" None) Examples.aws_route53_ec2 Examples.s0))).
Proof.
  pose proof (client_stays_in_global_region Examples.w_ok None None "111" "eu-west-1"
                (client_for "eu-west-1" None) "route53"
                (Orchestrator.Static [Examples.route53_quota]) "ec2"
                [Examples.ec2_quota] Examples.s0) as H.
  cbv zeta in H. destruct H as (_ & _ & H).
  - reflexivity.
  - reflexivity.
  - reflexivity.
  - apply (H eq_refl Examples.ec2_quota). now left.
Defined.

(** The sequential loop on concrete inputs. A single account is collected
    in it, with its CloudFront percent at 25; with concurrency switched off
    and two accounts only the last account is collected; without any
    account the call ends on the unassigned [regions]. *)
Lemma sequential_cycle_examples :
  match fst (Sequential.collect_quotas_whole Examples.w_ok None {["cloudfront"]}
               Examples.aws_cloudfront None ["111"] ["111"] true true
               Collector.init Examples.s0) with
  | Sequential.Completed qc =>
      Some (map (fun r => (account_id r, status r)) (Collector.results qc),
            Collector.quota_usage_percent qc
              !! Collector.labels_of_result Examples.result_200)
  | _ => None
  end = Some ([("111", SUCCESS)], Some 25%float) /\
  match fst (Sequential.collect_quotas_whole Examples.w_ok None {["cloudfront"]}
               Examples.aws_cloudfront (Some "False") ["111"; "222"] ["222"; "111"]
               true true Collector.init Examples.s0) with
  | Sequential.Completed qc =>
      Some (map (fun r => (account_id r, status r)) (Collector.results qc))
  | _ => None
  end = Some [("222", SUCCESS)] /\
  match fst (Sequential.collect_quotas_whole Examples.w_ok None {["cloudfront"]}
               Examples.aws_cloudfront None [] [] true true Collector.init
               Examples.s0) with
  | Sequential.RegionsUnbound => true
  | _ => false
  end = true.
Proof.
  split; [vm_compute; reflexivity |]. split; vm_compute; reflexivity.
Qed.

End ConcreteMore.
